(** * personal_dash: the Go backend (backend/main.go) over its SQLite store

    A shallow embedding of the request handlers, of the two tables they
    write and of the in-memory join that builds the dashboard view.

    - Go strings are byte strings ([string]); [int64] values are [Z] with
      the range written out where the code depends on it.
    - The store is a record of the two tables, the AUTOINCREMENT counters
      and the connection's foreign-key switch; statements are a datatype
      with the SQLite semantics of the schema in [ensureSchema].
    - Handlers run in a state monad over the store, the open transaction
      and an oracle that says which statement fails (timeout, I/O).
    - [getDashboardData] keeps pointers into the backing array of a slice
      that is still growing, so slices, backing arrays and pointers are
      modelled with an explicit heap. *)

From Stdlib Require Import ZArith Ascii String DecimalString DecimalZ.
From stdpp Require Import base option list gmap sorting.

Local Open Scope string_scope.
Local Open Scope list_scope.
Local Open Scope Z_scope.

(** ** Package strings: the byte-level functions *)

Module strings.

(** [strings.HasPrefix]. *)
Fixpoint HasPrefix (s p : string) : bool :=
  match p, s with
  | EmptyString, _ => true
  | String a p', String b s' => Ascii.eqb a b && HasPrefix s' p'
  | String _ _, EmptyString => false
  end.

Fixpoint drop (n : nat) (s : string) : string :=
  match n, s with
  | S n', String _ s' => drop n' s'
  | _, _ => s
  end.

(** [strings.TrimPrefix]. *)
Definition TrimPrefix (s p : string) : string :=
  if HasPrefix s p then drop (String.length p) s else s.

(** [strings.Contains]: [substr] occurs in [s]. *)
Fixpoint Contains (s substr : string) : bool :=
  HasPrefix s substr ||
  match s with
  | EmptyString => false
  | String _ s' => Contains s' substr
  end.

Fixpoint trimLeftByte (s : string) (c : ascii) : string :=
  match s with
  | String a s' => if Ascii.eqb a c then trimLeftByte s' c else s
  | EmptyString => EmptyString
  end.

Fixpoint trimRightByte (s : string) (c : ascii) : string :=
  match s with
  | EmptyString => EmptyString
  | String a s' =>
      match trimRightByte s' c with
      | EmptyString => if Ascii.eqb a c then EmptyString else String a EmptyString
      | t => String a t
      end
  end.

(** [strings.Trim(s, cutset)] for a cutset of one ASCII byte, the only
    form the handlers use ([Trim(path, "/")]). *)
Definition Trim (s : string) (c : ascii) : string :=
  trimRightByte (trimLeftByte s c) c.

(** [strings.Split(s, sep)] for a separator of one byte: always at
    least one piece, empty pieces are kept. *)
Fixpoint Split (s : string) (sep : ascii) : list string :=
  match s with
  | EmptyString => [EmptyString]
  | String a s' =>
      if Ascii.eqb a sep then EmptyString :: Split s' sep
      else match Split s' sep with
           | p :: ps => String a p :: ps
           | [] => [String a EmptyString]
           end
  end.

(** What [strings.ToLower] does on a string of ASCII bytes. *)
Definition lowerByte (a : ascii) : ascii :=
  let n := N_of_ascii a in
  if ((65 <=? n) && (n <=? 90))%N then ascii_of_N (n + 32) else a.

Fixpoint lowerASCII (s : string) : string :=
  match s with
  | EmptyString => EmptyString
  | String a s' => String (lowerByte a) (lowerASCII s')
  end.

(** The table [asciiSpace]: tab, newline, vertical tab, form feed,
    carriage return, space. *)
Definition asciiSpace (a : ascii) : bool :=
  let n := N_of_ascii a in
  ((9 <=? n) && (n <=? 13) || (n =? 32))%N.

Fixpoint trimLeftSpace (s : string) : string :=
  match s with
  | String a s' => if asciiSpace a then trimLeftSpace s' else s
  | EmptyString => EmptyString
  end.

Fixpoint trimRightSpace (s : string) : string :=
  match s with
  | EmptyString => EmptyString
  | String a s' =>
      match trimRightSpace s' with
      | EmptyString => if asciiSpace a then EmptyString else String a EmptyString
      | t => String a t
      end
  end.

(** What [strings.TrimSpace] does on a string of ASCII bytes. *)
Definition trimSpaceASCII (s : string) : string :=
  trimRightSpace (trimLeftSpace s).

End strings.

(** ** Package strconv *)

Module strconv.

Inductive NumError := ErrSyntax | ErrRange.

Definition digit (a : ascii) : option Z :=
  let n := Z.of_N (N_of_ascii a) in
  if (48 <=? n) && (n <=? 57) then Some (n - 48) else None.

Fixpoint digits (s : string) (acc : Z) : option Z :=
  match s with
  | EmptyString => Some acc
  | String a s' =>
      match digit a with
      | Some d => digits s' (10 * acc + d)
      | None => None
      end
  end.

(** [strconv.ParseUint(s, 10, 64)]. *)
Definition ParseUint (s : string) : Z + NumError :=
  match s with
  | EmptyString => inr ErrSyntax
  | _ =>
      match digits s 0 with
      | None => inr ErrSyntax
      | Some n => if n <? 2 ^ 64 then inl n else inr ErrRange
      end
  end.

(** [strconv.ParseInt(s, 10, 64)]: an optional sign, then decimal
    digits, within the range of [int64]. *)
Definition ParseInt (s : string) : Z + NumError :=
  match s with
  | EmptyString => inr ErrSyntax
  | String a rest =>
      let neg := Ascii.eqb a "-" in
      let s0 := if Ascii.eqb a "+" || neg then rest else s in
      match ParseUint s0 with
      | inr e => inr e
      | inl un =>
          if negb neg && (2 ^ 63 <=? un) then inr ErrRange
          else if neg && (2 ^ 63 <? un) then inr ErrRange
          else inl (if neg then - un else un)
      end
  end.

(** [strconv.FormatInt(i, 10)]. *)
Definition FormatInt (i : Z) : string :=
  NilZero.string_of_int (Z.to_int i).

End strconv.

(** ** What the model leaves open about the Go installation

    [strings.ToLower] and [strings.TrimSpace] follow the Unicode tables;
    the capacity a slice gets when [append] outgrows it is chosen by the
    runtime.  The handlers are written over any such choice. *)

Class GoEnv := {
  ToLower : string -> string;
  TrimSpace : string -> string;
  growCap : nat -> nat
}.

(** The runtime's [nextslicecap] for an append of one element. *)
Definition nextslicecap (oldCap : nat) : nat :=
  if (oldCap =? 0)%nat then 1%nat
  else if (oldCap <? 256)%nat then (2 * oldCap)%nat
  else (oldCap + (oldCap + 768) / 4)%nat.

(** The instance used to run the model: what Go does on ASCII text,
    and the capacities the runtime gives a growing slice before it
    rounds them to an allocation size. *)
Definition goASCII : GoEnv := {|
  ToLower := strings.lowerASCII;
  TrimSpace := strings.trimSpaceASCII;
  growCap := nextslicecap
|}.

(** ** Package sort

    [sort.Slice] as the insertion sort the library runs on ranges of at
    most 12 elements: element [i] moves left while it is [less] than its
    left neighbour.  [rp] is the ordered prefix, last element first.
    On longer ranges the library orders equal keys differently; the
    properties below use only that the result is an ordered permutation
    of the input. *)

Fixpoint insertBack {A} (less : A -> A -> bool) (x : A) (rp : list A) : list A :=
  match rp with
  | y :: rp' => if less x y then y :: insertBack less x rp' else x :: rp
  | [] => [x]
  end.

Definition sortSlice {A} (less : A -> A -> bool) (l : list A) : list A :=
  rev (foldl (fun rp x => insertBack less x rp) [] l).

(** ** The store: the two tables of [ensureSchema] *)

Record category_row := { cr_id : Z; cr_name : string }.

Record link_row := {
  lr_id : Z;
  lr_name : string;
  lr_url : string;
  lr_category_id : Z
}.

(** [seq_categories] and [seq_links] are the rows of [sqlite_sequence]
    that AUTOINCREMENT keeps; [foreign_keys] is the connection's
    [PRAGMA foreign_keys]. *)
Record store := {
  categories : list category_row;
  links : list link_row;
  seq_categories : Z;
  seq_links : Z;
  foreign_keys : bool
}.

Definition maxInt64 : Z := 2 ^ 63 - 1.

Inductive dberror :=
| ErrUnique
| ErrForeignKey
| ErrFull
| ErrTxDone
| ErrOther (msg : string).

(** [err.Error()] as the driver words it. *)
Definition Error (e : dberror) : string :=
  match e with
  | ErrUnique => "constraint failed: UNIQUE constraint failed: categories.name (2067)"
  | ErrForeignKey => "constraint failed: FOREIGN KEY constraint failed (787)"
  | ErrFull => "database or disk is full (13)"
  | ErrTxDone => "sql: transaction has already been committed or rolled back"
  | ErrOther msg => msg
  end.

(** The six statements the handlers issue. *)
Inductive stmt :=
| InsertCategory (name : string)
| InsertLink (name url : string) (category_id : Z)
| UpdateLink (name url : string) (category_id id : Z)
| DeleteLink (id : Z)
| DeleteLinksOfCategory (category_id : Z)
| DeleteCategory (id : Z).

Definition maxRowid (ids : list Z) : Z := foldr Z.max 0 ids.

(** AUTOINCREMENT: one more than the largest rowid ever used; no row can
    be added once the largest [int64] has been given out. *)
Definition newRowid (seq : Z) (ids : list Z) : option Z :=
  let m := Z.max seq (maxRowid ids) in
  if m <? maxInt64 then Some (m + 1) else None.

Definition hasCategory (st : store) (id : Z) : bool :=
  existsb (fun r => cr_id r =? id) (categories st).

Definition hasLink (st : store) (id : Z) : bool :=
  existsb (fun r => lr_id r =? id) (links st).

(** [name TEXT NOT NULL UNIQUE]: the column has the default collation
    BINARY, so two names clash when they are the same bytes. *)
Definition nameTaken (st : store) (name : string) : bool :=
  existsb (fun r => String.eqb (cr_name r) name) (categories st).

Definition setLinks (st : store) (ls : list link_row) (seq : Z) : store :=
  {| categories := categories st; links := ls;
     seq_categories := seq_categories st; seq_links := seq;
     foreign_keys := foreign_keys st |}.

Definition setCategories (st : store) (cs : list category_row) (seq : Z) : store :=
  {| categories := cs; links := links st;
     seq_categories := seq; seq_links := seq_links st;
     foreign_keys := foreign_keys st |}.

Definition updateRow (name url : string) (category_id id : Z) (r : link_row) : link_row :=
  if lr_id r =? id
  then {| lr_id := lr_id r; lr_name := name; lr_url := url; lr_category_id := category_id |}
  else r.

(** One statement on the tables.  The FOREIGN KEY clause of [links] is
    checked, and its ON DELETE CASCADE runs, only on a connection whose
    [foreign_keys] is on. *)
Definition exec (q : stmt) (st : store) : store + dberror :=
  match q with
  | InsertCategory name =>
      match newRowid (seq_categories st) (cr_id <$> categories st) with
      | None => inr ErrFull
      | Some id =>
          if nameTaken st name then inr ErrUnique
          else inl (setCategories st (categories st ++ [{| cr_id := id; cr_name := name |}]) id)
      end
  | InsertLink name url category_id =>
      match newRowid (seq_links st) (lr_id <$> links st) with
      | None => inr ErrFull
      | Some id =>
          if foreign_keys st && negb (hasCategory st category_id) then inr ErrForeignKey
          else inl (setLinks st
                      (links st ++ [{| lr_id := id; lr_name := name; lr_url := url;
                                       lr_category_id := category_id |}]) id)
      end
  | UpdateLink name url category_id id =>
      if foreign_keys st && hasLink st id && negb (hasCategory st category_id)
      then inr ErrForeignKey
      else inl (setLinks st (updateRow name url category_id id <$> links st) (seq_links st))
  | DeleteLink id =>
      inl (setLinks st (filter (fun r => lr_id r <> id) (links st)) (seq_links st))
  | DeleteLinksOfCategory category_id =>
      inl (setLinks st (filter (fun r => lr_category_id r <> category_id) (links st))
             (seq_links st))
  | DeleteCategory id =>
      let st' := setCategories st (filter (fun r => cr_id r <> id) (categories st))
                   (seq_categories st) in
      inl (if foreign_keys st
           then setLinks st' (filter (fun r => lr_category_id r <> id) (links st')) (seq_links st')
           else st')
  end.

(** [sql.Open("sqlite", cfg.sqlitePath)] in [main]: the path carries no
    [_pragma] and no PRAGMA statement follows, so the connection keeps
    SQLite's default, foreign keys off.  [ensureSchema] on a new file
    leaves both tables empty. *)
Definition sqlOpen : store :=
  {| categories := []; links := []; seq_categories := 0; seq_links := 0;
     foreign_keys := false |}.

(** ** The handle [s.db]: store, open transaction, failing statements

    [faults] is consumed one entry per call on the handle: [Some msg]
    makes that call fail with [msg] (deadline exceeded, I/O error) and
    leaves the tables alone; an exhausted list means no more failures. *)

Record world := {
  db : store;
  txn : option store;
  faults : list (option string)
}.

Definition M (A : Type) : Type := world -> A * world.

Definition ret {A} (a : A) : M A := fun w => (a, w).
Definition bind {A B} (m : M A) (f : A -> M B) : M B :=
  fun w => let '(a, w') := m w in f a w'.

Notation "x <- m ;; k" := (bind m (fun x => k))
  (at level 100, m at next level, right associativity).

Definition setDb (w : world) (st : store) : world :=
  {| db := st; txn := txn w; faults := faults w |}.
Definition setTxn (w : world) (t : option store) : world :=
  {| db := db w; txn := t; faults := faults w |}.

Definition fault : M (option dberror) := fun w =>
  match faults w with
  | [] => (None, w)
  | f :: fs => (ErrOther <$> f, {| db := db w; txn := txn w; faults := fs |})
  end.

(** [s.db.ExecContext(ctx, q, ...)]; the result is Go's [err]. *)
Definition ExecContext (q : stmt) : M (option dberror) :=
  f <- fault ;;
  match f with
  | Some e => ret (Some e)
  | None => fun w =>
      match exec q (db w) with
      | inl st' => (None, setDb w st')
      | inr e => (Some e, w)
      end
  end.

(** [s.db.BeginTx]: the transaction works on its own copy. *)
Definition BeginTx : M (option dberror) :=
  f <- fault ;;
  match f with
  | Some e => ret (Some e)
  | None => fun w => (None, setTxn w (Some (db w)))
  end.

(** [tx.ExecContext]. *)
Definition TxExecContext (q : stmt) : M (option dberror) :=
  f <- fault ;;
  match f with
  | Some e => ret (Some e)
  | None => fun w =>
      match txn w with
      | None => (Some ErrTxDone, w)
      | Some t =>
          match exec q t with
          | inl t' => (None, setTxn w (Some t'))
          | inr e => (Some e, w)
          end
      end
  end.

(** [tx.Commit]: installs the copy; a commit that fails gives it up. *)
Definition Commit : M (option dberror) :=
  f <- fault ;;
  match f with
  | Some e => fun w => (Some e, setTxn w None)
  | None => fun w =>
      match txn w with
      | None => (Some ErrTxDone, w)
      | Some t => (None, {| db := t; txn := None; faults := faults w |})
      end
  end.

(** [tx.Rollback]: drops the copy; nothing to do after a commit. *)
Definition Rollback : M unit := fun w => (tt, setTxn w None).

(** [defer d] around the rest of a function body. *)
Definition defer {A} (d : M unit) (body : M A) : M A :=
  a <- body ;; _ <- d ;; ret a.

(** [SELECT id, name FROM categories], rows read to the end. *)
Definition QueryCategories : M (list category_row + dberror) :=
  f <- fault ;;
  match f with
  | Some e => ret (inr e)
  | None => fun w => (inl (categories (db w)), w)
  end.

(** [SELECT id, name, url, category_id FROM links]. *)
Definition QueryLinks : M (list link_row + dberror) :=
  f <- fault ;;
  match f with
  | Some e => ret (inr e)
  | None => fun w => (inl (links (db w)), w)
  end.

(** ** The view model *)

Record dashboardLink := {
  dl_ID : string;
  dl_CategoryID : string;
  dl_Name : string;
  dl_URL : string
}.

(** [dc_Links] is a Go slice: [None] is the nil slice, [Some []] the
    empty one of the literal [[]dashboardLink{}]. *)
Record dashboardCategory := {
  dc_ID : string;
  dc_Name : string;
  dc_Links : option (list dashboardLink)
}.

Record dashboardData := { Categories : list dashboardCategory }.

(** ** Slices of [dashboardCategory], their backing arrays, pointers

    A backing array is as long as its capacity; the heap holds every
    array that was ever allocated, at the address of its index.  A
    pointer [&categories[i]] is an array and an index into it. *)

Record slice := { s_arr : nat; s_len : nat; s_cap : nat }.

Abbreviation heap := (list (list dashboardCategory)).

Abbreviation ptr := (nat * nat)%type.

Definition zeroCategory : dashboardCategory :=
  {| dc_ID := ""; dc_Name := ""; dc_Links := None |}.

(** [make([]dashboardCategory, 0)]. *)
Definition makeSlice (h : heap) : heap * slice :=
  (h ++ [[]], {| s_arr := length h; s_len := 0; s_cap := 0 |}).

(** [append(s, x)]: in place while the capacity lasts, otherwise into a
    new array that receives a copy of the elements. *)
Definition append `{GoEnv} (h : heap) (s : slice) (x : dashboardCategory) : heap * slice :=
  if (s_len s <? s_cap s)%nat then
    (alter (fun a => <[s_len s := x]> a) (s_arr s) h,
     {| s_arr := s_arr s; s_len := S (s_len s); s_cap := s_cap s |})
  else
    let newcap := Nat.max (growCap (s_cap s)) (S (s_len s)) in
    (h ++ [take (s_len s) (h !!! s_arr s) ++ x ::
             replicate (newcap - S (s_len s)) zeroCategory],
     {| s_arr := length h; s_len := S (s_len s); s_cap := newcap |}).

(** [*p], when [p] is in range. *)
Definition deref (h : heap) (p : ptr) : option dashboardCategory :=
  a ← h !! p.1; a !! p.2.

(** The elements [s[0], ..., s[len-1]]. *)
Definition elems (h : heap) (s : slice) : list dashboardCategory :=
  take (s_len s) (h !!! s_arr s).

Definition appendLink (l : dashboardLink) (c : dashboardCategory) : dashboardCategory :=
  {| dc_ID := dc_ID c; dc_Name := dc_Name c;
     dc_Links := Some (default [] (dc_Links c) ++ [l]) |}.

(** [p.Links = append(p.Links, l)] through the pointer [p]. *)
Definition storeLink (h : heap) (p : ptr) (l : dashboardLink) : heap :=
  alter (fun a => alter (appendLink l) p.2 a) p.1 h.

(** ** getDashboardData *)

Definition newCategory (r : category_row) : dashboardCategory :=
  {| dc_ID := strconv.FormatInt (cr_id r); dc_Name := cr_name r; dc_Links := Some [] |}.

Definition newLink (r : link_row) : dashboardLink :=
  {| dl_ID := strconv.FormatInt (lr_id r);
     dl_CategoryID := strconv.FormatInt (lr_category_id r);
     dl_Name := lr_name r;
     dl_URL := lr_url r |}.

(** The loop over [categoryRows]: append the item, then remember the
    address of the slot it went to. *)
Fixpoint loadCategories `{GoEnv} (rows : list category_row)
    (h : heap) (s : slice) (categoryMap : gmap Z ptr) : heap * slice * gmap Z ptr :=
  match rows with
  | [] => (h, s, categoryMap)
  | r :: rows' =>
      let '(h', s') := append h s (newCategory r) in
      loadCategories rows' h' s' (<[cr_id r := (s_arr s', (s_len s' - 1)%nat)]> categoryMap)
  end.

(** The loop over [linkRows]: a link goes to whatever the remembered
    address of its category holds; without an address it is skipped. *)
Fixpoint loadLinks (rows : list link_row) (categoryMap : gmap Z ptr) (h : heap) : heap :=
  match rows with
  | [] => h
  | r :: rows' =>
      match categoryMap !! lr_category_id r with
      | Some parentCategory => loadLinks rows' categoryMap (storeLink h parentCategory (newLink r))
      | None => loadLinks rows' categoryMap h
      end
  end.

Definition lessCategory `{GoEnv} (a b : dashboardCategory) : bool :=
  String.ltb (ToLower (dc_Name a)) (ToLower (dc_Name b)).

Definition lessLink `{GoEnv} (a b : dashboardLink) : bool :=
  String.ltb (ToLower (dl_Name a)) (ToLower (dl_Name b)).

Definition sortLinks `{GoEnv} (c : dashboardCategory) : dashboardCategory :=
  {| dc_ID := dc_ID c; dc_Name := dc_Name c;
     dc_Links := sortSlice lessLink <$> dc_Links c |}.

(** The in-memory part of [getDashboardData], from the rows of the two
    queries in the order they were read. *)
Definition aggregate `{GoEnv} (cats : list category_row) (lks : list link_row) : dashboardData :=
  let '(h0, s0) := makeSlice [] in
  let '(h1, categories, categoryMap) := loadCategories cats h0 s0 ∅ in
  let h2 := loadLinks lks categoryMap h1 in
  {| Categories := sortLinks <$> sortSlice lessCategory (elems h2 categories) |}.

Definition getDashboardData `{GoEnv} : M (dashboardData + dberror) :=
  cs <- QueryCategories ;;
  match cs with
  | inr e => ret (inr e)
  | inl cats =>
      ls <- QueryLinks ;;
      match ls with
      | inr e => ret (inr e)
      | inl lks => ret (inl (aggregate cats lks))
      end
  end.

(** ** Package net/http *)

(** [Form] is what [r.ParseForm] leaves in [r.Form], body fields before
    query fields, or [None] when it returns an error. *)
Record Request := {
  Method : string;
  Path : string;
  Form : option (list (string * string))
}.

Record Response := {
  Status : Z;
  ContentType : string;
  Body : string
}.

Definition StatusOK : Z := 200.
Definition StatusBadRequest : Z := 400.
Definition StatusNotFound : Z := 404.
Definition StatusMethodNotAllowed : Z := 405.
Definition StatusConflict : Z := 409.
Definition StatusInternalServerError : Z := 500.

Definition MethodGet : string := "GET".
Definition MethodPost : string := "POST".

Definition newline : string := String (ascii_of_nat 10) EmptyString.

(** [http.Error(w, msg, code)]. *)
Definition httpError (msg : string) (code : Z) : Response :=
  {| Status := code; ContentType := "text/plain; charset=utf-8";
     Body := (msg ++ newline)%string |}.

(** [http.NotFound]. *)
Definition NotFound : Response := httpError "404 page not found" StatusNotFound.

(** [r.FormValue(key)]: the first value of the key, or the empty string. *)
Fixpoint FormValue (form : list (string * string)) (key : string) : string :=
  match form with
  | [] => ""
  | (k, v) :: form' => if String.eqb k key then v else FormValue form' key
  end.

(** ** The server *)

(** [templates] stands for [ExecuteTemplate(w, "dashboard.html", data)]
    on the parsed templates/dashboard.html: the bytes it wrote to the
    response, and whether it returned without error. *)
Record server := { templates : dashboardData -> string * bool }.

Section Handlers.

Context `{GoEnv}.
Variable s : server.

(** A first write commits status 200, so an error of the template after
    output only appends its message; without output it is a 500. *)
Definition renderDashboard : M Response :=
  d <- getDashboardData ;;
  match d with
  | inr _ => ret (httpError "failed to load dashboard" StatusInternalServerError)
  | inl data =>
      let '(out, ok) := templates s data in
      if ok then
        ret {| Status := StatusOK; ContentType := "text/html; charset=utf-8"; Body := out |}
      else if String.eqb out "" then
        ret (httpError "failed to render template" StatusInternalServerError)
      else
        ret {| Status := StatusOK; ContentType := "text/html; charset=utf-8";
               Body := (out ++ "failed to render template" ++ newline)%string |}
  end.

Definition handleHealth (_ : Request) : M Response :=
  ret {| Status := StatusOK; ContentType := "text/plain; charset=utf-8"; Body := "ok" |}.

Definition handleDashboard (r : Request) : M Response :=
  if negb (String.eqb (Method r) MethodGet) then
    ret (httpError "method not allowed" StatusMethodNotAllowed)
  else renderDashboard.

Definition handleCreateCategory (r : Request) : M Response :=
  if negb (String.eqb (Method r) MethodPost) then
    ret (httpError "method not allowed" StatusMethodNotAllowed)
  else
  match Form r with
  | None => ret (httpError "invalid form" StatusBadRequest)
  | Some form =>
      let name := TrimSpace (FormValue form "name") in
      if String.eqb name "" then
        ret (httpError "category name is required" StatusBadRequest)
      else
        err <- ExecContext (InsertCategory name) ;;
        match err with
        | Some e =>
            if strings.Contains (ToLower (Error e)) "unique" then
              ret (httpError "category already exists" StatusConflict)
            else ret (httpError "failed to create category" StatusInternalServerError)
        | None => renderDashboard
        end
  end.

Definition handleCategoryActions (r : Request) : M Response :=
  if negb (String.eqb (Method r) MethodPost) then
    ret (httpError "method not allowed" StatusMethodNotAllowed)
  else
  let path := strings.TrimPrefix (Path r) "/actions/categories/" in
  match strings.Split (strings.Trim path "/") "/" with
  | [p0; p1] =>
      if negb (String.eqb p1 "delete") then ret NotFound
      else
      match strconv.ParseInt p0 with
      | inr _ => ret (httpError "invalid category id" StatusBadRequest)
      | inl categoryID =>
          err <- BeginTx ;;
          match err with
          | Some _ => ret (httpError "failed to delete category" StatusInternalServerError)
          | None =>
              defer Rollback (
                err <- TxExecContext (DeleteLinksOfCategory categoryID) ;;
                match err with
                | Some _ =>
                    ret (httpError "failed to delete category links" StatusInternalServerError)
                | None =>
                    err <- TxExecContext (DeleteCategory categoryID) ;;
                    match err with
                    | Some _ =>
                        ret (httpError "failed to delete category" StatusInternalServerError)
                    | None =>
                        err <- Commit ;;
                        match err with
                        | Some _ =>
                            ret (httpError "failed to delete category"
                                   StatusInternalServerError)
                        | None => renderDashboard
                        end
                    end
                end)
          end
      end
  | _ => ret NotFound
  end.

(** The fields of a link form: [name], [url], [category_id], trimmed,
    all required, the last one an [int64]. *)
Definition linkFields (form : list (string * string)) : (string * string * Z) + Response :=
  let name := TrimSpace (FormValue form "name") in
  let url := TrimSpace (FormValue form "url") in
  let categoryIDText := TrimSpace (FormValue form "category_id") in
  if String.eqb name "" || String.eqb url "" || String.eqb categoryIDText "" then
    inr (httpError "name, url, and category are required" StatusBadRequest)
  else
    match strconv.ParseInt categoryIDText with
    | inr _ => inr (httpError "invalid category id" StatusBadRequest)
    | inl categoryID => inl (name, url, categoryID)
    end.

Definition handleCreateLink (r : Request) : M Response :=
  if negb (String.eqb (Method r) MethodPost) then
    ret (httpError "method not allowed" StatusMethodNotAllowed)
  else
  match Form r with
  | None => ret (httpError "invalid form" StatusBadRequest)
  | Some form =>
      match linkFields form with
      | inr resp => ret resp
      | inl (name, url, categoryID) =>
          err <- ExecContext (InsertLink name url categoryID) ;;
          match err with
          | Some _ => ret (httpError "failed to create link" StatusInternalServerError)
          | None => renderDashboard
          end
      end
  end.

Definition handleDeleteLink (r : Request) (id : Z) : M Response :=
  err <- ExecContext (DeleteLink id) ;;
  match err with
  | Some _ => ret (httpError "failed to delete link" StatusInternalServerError)
  | None => renderDashboard
  end.

Definition handleUpdateLink (r : Request) (id : Z) : M Response :=
  match Form r with
  | None => ret (httpError "invalid form" StatusBadRequest)
  | Some form =>
      match linkFields form with
      | inr resp => ret resp
      | inl (name, url, categoryID) =>
          err <- ExecContext (UpdateLink name url categoryID id) ;;
          match err with
          | Some _ => ret (httpError "failed to update link" StatusInternalServerError)
          | None => renderDashboard
          end
      end
  end.

Definition handleLinkActions (r : Request) : M Response :=
  if negb (String.eqb (Method r) MethodPost) then
    ret (httpError "method not allowed" StatusMethodNotAllowed)
  else
  let path := strings.TrimPrefix (Path r) "/actions/links/" in
  match strings.Split (strings.Trim path "/") "/" with
  | [p0; p1] =>
      match strconv.ParseInt p0 with
      | inr _ => ret (httpError "invalid link id" StatusBadRequest)
      | inl id =>
          if String.eqb p1 "delete" then handleDeleteLink r id
          else if String.eqb p1 "update" then handleUpdateLink r id
          else ret NotFound
      end
  | _ => ret NotFound
  end.

(** ** The routes registered in [main]

    [loggingMiddleware] wraps the mux and only logs; a request that the
    mux hands to a route is served by [handler]. *)

Inductive route :=
| RouteHealth
| RouteDashboard
| RouteCreateCategory
| RouteCategoryActions
| RouteCreateLink
| RouteLinkActions.

(** The pattern each route is registered under with [mux.HandleFunc]:
    one without a trailing slash is that path, one with a trailing
    slash is the subtree below it.  Dispatch is [http.ServeMux]'s. *)
Definition pattern (rt : route) : string :=
  match rt with
  | RouteHealth => "/health"
  | RouteDashboard => "/partials/dashboard"
  | RouteCreateCategory => "/actions/categories/create"
  | RouteCategoryActions => "/actions/categories/"
  | RouteCreateLink => "/actions/links/create"
  | RouteLinkActions => "/actions/links/"
  end.

(** What [http.ServeMux] asks of the path of a request that it hands
    to a route: under a pattern without a trailing slash the path is
    the pattern; under a subtree pattern the path begins with it and is
    not the path of a route registered on its own, which wins. *)
Definition reaches (rt : route) (path : string) : Prop :=
  match rt with
  | RouteCategoryActions | RouteLinkActions =>
      strings.HasPrefix path (pattern rt) = true /\
      path <> pattern RouteCreateCategory /\ path <> pattern RouteCreateLink
  | _ => path = pattern rt
  end.

(** The method the interface table gives each route. *)
Definition route_method (rt : route) : string :=
  match rt with
  | RouteHealth | RouteDashboard => MethodGet
  | _ => MethodPost
  end.

Definition handler (rt : route) : Request -> M Response :=
  match rt with
  | RouteHealth => handleHealth
  | RouteDashboard => handleDashboard
  | RouteCreateCategory => handleCreateCategory
  | RouteCategoryActions => handleCategoryActions
  | RouteCreateLink => handleCreateLink
  | RouteLinkActions => handleLinkActions
  end.

End Handlers.

(** * The vocabulary of the properties *)

(** [x] may stand before [y] in an ordered slice: [y] is not [less]
    than [x]. *)
Definition notAfter {A} (less : A -> A -> bool) (x y : A) : Prop := less y x = false.

(** The slice points at an allocated array of its capacity. *)
Definition slice_ok (h : heap) (s : slice) : Prop :=
  exists a, h !! s_arr s = Some a /\ length a = s_cap s /\ (s_len s <= s_cap s)%nat.

(** Every cell of every array, reachable or not. *)
Definition all_cells (P : dashboardCategory -> Prop) (h : heap) : Prop :=
  Forall (Forall P) h.

(** Every link a cell holds was read from a link row, and the row names
    the category row the cell was made from. *)
Definition linksOK (cats : list category_row) (lks : list link_row)
    (e : dashboardCategory) : Prop :=
  forall l, l ∈ default [] (dc_Links e) ->
    exists r k, r ∈ lks /\ k ∈ cats /\ l = newLink r /\
                lr_category_id r = cr_id k /\ dc_ID e = strconv.FormatInt (cr_id k).

(** Every remembered address holds a cell made from the category row of
    that id. *)
Definition ptrs_ok (cats : list category_row) (m : gmap Z ptr) (h : heap) : Prop :=
  forall id p, m !! id = Some p ->
    exists e k, deref h p = Some e /\ k ∈ cats /\ cr_id k = id /\
                dc_ID e = strconv.FormatInt id.

(** What the link loop may do to a cell: add links, nothing else. *)
Definition grown (e e' : dashboardCategory) : Prop :=
  dc_ID e' = dc_ID e /\ dc_Name e' = dc_Name e /\
  (is_Some (dc_Links e) -> is_Some (dc_Links e')).

(** [a] is not after [b] when case is ignored. *)
Definition ciLe `{GoEnv} (a b : string) : Prop :=
  String.leb (ToLower a) (ToLower b) = true.

(** The id and name under which a view entry shows a category. *)
Definition header (c : dashboardCategory) : string * string := (dc_ID c, dc_Name c).

Definition links_of (c : dashboardCategory) : list dashboardLink :=
  default [] (dc_Links c).

(** The pieces [parts] that the two action handlers cut out of the path. *)
Definition pathParts (prefix path : string) : list string :=
  strings.Split (strings.Trim (strings.TrimPrefix path prefix) "/") "/".

(** The next call on the handle is one that the oracle lets through. *)
Definition nextFails (w : world) : bool :=
  match faults w with
  | Some _ :: _ => true
  | _ => false
  end.

(** The world once a call has consumed its oracle entry. *)
Definition popFault (w : world) : world :=
  {| db := db w; txn := txn w; faults := tail (faults w) |}.

(** One of the next [n] calls on the handle is made to fail. *)
Definition failsWithin (n : nat) (w : world) : bool :=
  existsb (fun f => match f with Some _ => true | None => false end) (take n (faults w)).

(** The tables without category [c] and without the links under it. *)
Definition deleteCascade (c : Z) (st : store) : store :=
  {| categories := filter (fun k => cr_id k <> c) (categories st);
     links := filter (fun r => lr_category_id r <> c) (links st);
     seq_categories := seq_categories st;
     seq_links := seq_links st;
     foreign_keys := foreign_keys st |}.

(** Every link row names a category row that is there. *)
Definition refs_ok (st : store) : Prop :=
  Forall (fun r => hasCategory st (lr_category_id r) = true) (links st).

(** * Sample data *)

(** A stand-in for templates/dashboard.html: one line per category, its
    links after it. *)
Definition plainLinks (c : dashboardCategory) : string :=
  String.concat "," ((fun l => dl_Name l ++ "=" ++ dl_URL l)%string <$> links_of c).

Definition plainTemplate (d : dashboardData) : string * bool :=
  (String.concat ";"
     ((fun c => dc_ID c ++ ":" ++ dc_Name c ++ "[" ++ plainLinks c ++ "]")%string
        <$> Categories d), true).

Definition plainServer : server := {| templates := plainTemplate |}.

(** The world [main] starts serving in, on a new database file. *)
Definition startWorld : world := {| db := sqlOpen; txn := None; faults := [] |}.

Definition post (path : string) (form : list (string * string)) : Request :=
  {| Method := MethodPost; Path := path; Form := Some form |}.

(** A store with two categories read in the order "b", "A" and three
    links, one of them under a category id that no row has. *)
Definition demoStore : store :=
  {| categories := [{| cr_id := 1; cr_name := "b" |}; {| cr_id := 2; cr_name := "A" |}];
     links := [{| lr_id := 1; lr_name := "zeta"; lr_url := "https://z"; lr_category_id := 2 |};
               {| lr_id := 2; lr_name := "Eta"; lr_url := "https://e"; lr_category_id := 2 |};
               {| lr_id := 3; lr_name := "lost"; lr_url := "https://l"; lr_category_id := 9 |}];
     seq_categories := 2; seq_links := 3; foreign_keys := false |}.

Definition demoWorld : world := {| db := demoStore; txn := None; faults := [] |}.

Definition demoView : dashboardData :=
  {| Categories :=
       [{| dc_ID := "2"; dc_Name := "A";
           dc_Links := Some [{| dl_ID := "2"; dl_CategoryID := "2"; dl_Name := "Eta";
                                dl_URL := "https://e" |};
                             {| dl_ID := "1"; dl_CategoryID := "2"; dl_Name := "zeta";
                                dl_URL := "https://z" |}] |};
        {| dc_ID := "1"; dc_Name := "b"; dc_Links := Some [] |}] |}.

(** The tables after one category named "Dev" has been created. *)
Definition devStore : store :=
  {| categories := [{| cr_id := 1; cr_name := "Dev" |}]; links := [];
     seq_categories := 1; seq_links := 0; foreign_keys := false |}.

Definition devWorld : world := {| db := devStore; txn := None; faults := [] |}.

(** The tables after category "Dev" got the link "Repo". *)
Definition repoWorld : world :=
  {| db := {| categories := [{| cr_id := 1; cr_name := "Dev" |}];
              links := [{| lr_id := 1; lr_name := "Repo"; lr_url := "https://x";
                           lr_category_id := 1 |}];
              seq_categories := 1; seq_links := 1; foreign_keys := false |};
     txn := None; faults := [] |}.

(** Two categories, and one link under the one that is read first. *)
Definition twoStore : store :=
  {| categories := [{| cr_id := 1; cr_name := "Dev" |}; {| cr_id := 2; cr_name := "Ops" |}];
     links := [{| lr_id := 1; lr_name := "Repo"; lr_url := "https://x";
                  lr_category_id := 1 |}];
     seq_categories := 2; seq_links := 1; foreign_keys := false |}.

(** * The rest of main.go *)

(** ** loadConfig *)

Record config := { sqlitePath : string; port : string }.

(** [Getenv] is [os.Getenv]: the value of a variable, empty when it is
    not set.  The second component is the error, which is always nil. *)
Definition loadConfig `{GoEnv} (Getenv : string -> string) : config * option string :=
  let sqlitePath := TrimSpace (Getenv "SQLITE_PATH") in
  let port := TrimSpace (Getenv "PORT") in
  let sqlitePath := if String.eqb sqlitePath "" then "./data/personal_dash.db" else sqlitePath in
  let port := if String.eqb port "" then "8080" else port in
  ({| sqlitePath := sqlitePath; port := port |}, None).

(** [addr] in [main]: [fmt.Sprintf(":%s", cfg.port)]. *)
Definition listenAddr (cfg : config) : string := (":" ++ port cfg)%string.

(** ** ensureSchema *)

(** What schema [main] of the database file knows by name: ordinary
    tables with their columns, views, and indexes with their table and
    columns.  The objects SQLite keeps under names that start with
    [sqlite_] are left out: no statement of [ensureSchema] names one. *)
Inductive sql_object :=
| Table (name : string) (columns : list string)
| View (name : string)
| Index (name : string) (table : string) (columns : list string).

(** The two kinds of statement in [stmts], both [IF NOT EXISTS]; the
    column constraints are those that [exec] enforces. *)
Inductive ddl :=
| CreateTable (name : string) (columns : list string)
| CreateIndex (name : string) (table : string) (columns : list string).

Definition stmts : list ddl :=
  [CreateTable "categories" ["id"; "name"];
   CreateTable "links" ["id"; "name"; "url"; "category_id"];
   CreateIndex "idx_links_category" "links" ["category_id"];
   CreateIndex "idx_links_name_category" "links" ["name"; "category_id"]].

(** The database file as [ensureSchema] sees it, and the oracle of the
    calls that fail for a reason outside the schema. *)
Record schema_world := {
  catalog : list sql_object;
  ddl_faults : list (option string)
}.

(** Names of tables, indexes and columns are compared without regard to
    ASCII case. *)
Definition sameName (a b : string) : bool :=
  String.eqb (strings.lowerASCII a) (strings.lowerASCII b).

Definition isTable (name : string) (o : sql_object) : bool :=
  match o with
  | Table n _ | View n => sameName n name
  | Index _ _ _ => false
  end.

Definition isIndex (name : string) (o : sql_object) : bool :=
  match o with
  | Index n _ _ => sameName n name
  | _ => false
  end.

(** [sqlite3FindTable] finds a table or a view, [sqlite3FindIndex] an
    index. *)
Definition FindTable (name : string) (cat : list sql_object) : option sql_object :=
  List.find (isTable name) cat.

Definition FindIndex (name : string) (cat : list sql_object) : option sql_object :=
  List.find (isIndex name) cat.

(** One statement.  [CREATE TABLE IF NOT EXISTS] leaves a table or view
    of that name as it is, whatever its columns, and refuses the name
    of an index.  [CREATE INDEX IF NOT EXISTS] looks for its table
    first, refuses a view and the name of a table, leaves an index of
    that name as it is, whatever it is on, and otherwise needs the
    columns it names. *)
Definition execDDL (q : ddl) (cat : list sql_object) : list sql_object + dberror :=
  match q with
  | CreateTable name columns =>
      match FindTable name cat with
      | Some _ => inl cat
      | None =>
          match FindIndex name cat with
          | Some _ => inr (ErrOther ("there is already an index named " ++ name)%string)
          | None => inl (cat ++ [Table name columns])
          end
      end
  | CreateIndex name table columns =>
      match FindTable table cat with
      | Some (Table _ tcolumns) =>
          match FindTable name cat with
          | Some _ => inr (ErrOther ("there is already a table named " ++ name)%string)
          | None =>
              match FindIndex name cat with
              | Some _ => inl cat
              | None =>
                  match List.find (fun c => negb (existsb (sameName c) tcolumns)) columns with
                  | Some c => inr (ErrOther ("no such column: " ++ c)%string)
                  | None => inl (cat ++ [Index name table columns])
                  end
              end
          end
      | Some _ => inr (ErrOther "views may not be indexed")
      | None => inr (ErrOther ("no such table: main." ++ table)%string)
      end
  end.

(** The loop of [ensureSchema]: each statement is a call of [db.Exec]
    on its own, and the first error ends the loop. *)
Fixpoint execAll (qs : list ddl) (sw : schema_world) : option dberror * schema_world :=
  match qs with
  | [] => (None, sw)
  | q :: qs' =>
      match ddl_faults sw with
      | Some msg :: fs => (Some (ErrOther msg), {| catalog := catalog sw; ddl_faults := fs |})
      | fs =>
          match execDDL q (catalog sw) with
          | inr e => (Some e, {| catalog := catalog sw; ddl_faults := tail fs |})
          | inl cat => execAll qs' {| catalog := cat; ddl_faults := tail fs |}
          end
      end
  end.

Definition ensureSchema (sw : schema_world) : option dberror * schema_world :=
  execAll stmts sw.

(** The object that a statement makes where nothing is in its way. *)
Definition objectOf (q : ddl) : sql_object :=
  match q with
  | CreateTable name columns => Table name columns
  | CreateIndex name table columns => Index name table columns
  end.

Definition schemaObjects : list sql_object := objectOf <$> stmts.

(** No table, view or index goes by [name]. *)
Definition unknown (cat : list sql_object) (name : string) : Prop :=
  FindTable name cat = None /\ FindIndex name cat = None.

(** A statement that has nothing left to do. *)
Definition settled (q : ddl) (cat : list sql_object) : Prop := execDDL q cat = inl cat.

(** * More vocabulary *)

(** The statuses of a request that is turned down as the client's. *)
Definition clientCodes : list Z :=
  [StatusBadRequest; StatusNotFound; StatusMethodNotAllowed; StatusConflict].

(** The tables are those of [w]; a transaction is open only if one was. *)
Definition tablesKept (w w' : world) : Prop :=
  db w' = db w /\ (txn w' = txn w \/ txn w' = None).

(** A statement with the fields that the handlers ask for. *)
Definition checked (q : stmt) : Prop :=
  match q with
  | InsertCategory name => name <> ""
  | InsertLink name url _ | UpdateLink name url _ _ => name <> "" /\ url <> ""
  | DeleteLink _ | DeleteLinksOfCategory _ | DeleteCategory _ => True
  end.

(** Statements run one after the other, as long as none fails. *)
Fixpoint runAll (qs : list stmt) (st : store) : option store :=
  match qs with
  | [] => Some st
  | q :: qs' =>
      match exec q st with
      | inl st' => runAll qs' st'
      | inr _ => None
      end
  end.

(** How the handler of route [rt] can end: turned down with a client
    status, failed with 500 before or at its statement, the constant of
    /health, or the dashboard rendered on the world [w1] that its
    statements [qs] left. *)
Definition outcome `{GoEnv} (s : server) (rt : route) (w : world)
    (out : Response * world) : Prop :=
  (exists msg code, out.1 = httpError msg code /\ code ∈ clientCodes /\ tablesKept w out.2) \/
  (exists msg, out.1 = httpError msg StatusInternalServerError /\ tablesKept w out.2) \/
  (rt = RouteHealth /\
   out = ({| Status := StatusOK; ContentType := "text/plain; charset=utf-8"; Body := "ok" |}, w)) \/
  (exists w1 qs, out.1 = (renderDashboard s w1).1 /\ db out.2 = db w1 /\
                 (txn out.2 = txn w \/ txn out.2 = None) /\
                 runAll qs (db w) = Some (db w1) /\ Forall checked qs).

(** No row has an id above the AUTOINCREMENT counter of its table. *)
Definition ids_bounded (st : store) : Prop :=
  Forall (fun k => cr_id k <= seq_categories st) (categories st) /\
  Forall (fun r => lr_id r <= seq_links st) (links st).

(** The keys of the schema: ids in both tables, names of categories. *)
Definition keys_unique (st : store) : Prop :=
  NoDup (cr_id <$> categories st) /\
  NoDup (cr_name <$> categories st) /\
  NoDup (lr_id <$> links st).

(** From [st] to [st']: the counters have not gone back, and an id of
    [st'] is one of [st] or above the counter of [st]. *)
Definition issued_after (st st' : store) : Prop :=
  seq_categories st <= seq_categories st' /\
  seq_links st <= seq_links st' /\
  Forall (fun i => i ∈ (cr_id <$> categories st) \/ seq_categories st < i)
         (cr_id <$> categories st') /\
  Forall (fun i => i ∈ (lr_id <$> links st) \/ seq_links st < i)
         (lr_id <$> links st').

(** No row has an empty name, no link an empty url. *)
Definition noBlank (st : store) : Prop :=
  Forall (fun k => cr_name k <> "") (categories st) /\
  Forall (fun r => lr_name r <> "" /\ lr_url r <> "") (links st).

(** Every remembered address is in an allocated array, and behind the
    end of the slice when it is in the slice's array. *)
Definition ptrs_behind (m : gmap Z ptr) (h : heap) (s : slice) : Prop :=
  forall id p, m !! id = Some p ->
    (p.1 < length h)%nat /\ (p.1 = s_arr s -> (p.2 < s_len s)%nat).

(** The links that the link loop stores through the address [p]. *)
Definition linksThrough (m : gmap Z ptr) (p : ptr) (rows : list link_row) : list dashboardLink :=
  newLink <$> filter (fun r => m !! lr_category_id r = Some p) rows.

(** The link rows under category id [c], as the view shows them. *)
Definition linksUnder (c : Z) (rows : list link_row) : list dashboardLink :=
  newLink <$> filter (fun r => lr_category_id r = c) rows.

(** An environment for [loadConfig]: PORT set with blanks around it. *)
Definition demoEnv (name : string) : string :=
  if String.eqb name "PORT" then " 9090 " else "".

(** * Properties *)

(** ** The library functions on sample inputs *)

Example ParseInt_42 : strconv.ParseInt "42" = inl 42.
Proof. reflexivity. Qed.

Example ParseInt_signs : strconv.ParseInt "-7" = inl (-7) /\ strconv.ParseInt "+7" = inl 7.
Proof. split; reflexivity. Qed.

Example ParseInt_syntax :
  strconv.ParseInt "4x" = inr strconv.ErrSyntax /\
  strconv.ParseInt "" = inr strconv.ErrSyntax /\
  strconv.ParseInt "-" = inr strconv.ErrSyntax.
Proof. split_and!; reflexivity. Qed.

Example ParseInt_range :
  strconv.ParseInt "9223372036854775807" = inl maxInt64 /\
  strconv.ParseInt "9223372036854775808" = inr strconv.ErrRange /\
  strconv.ParseInt "-9223372036854775808" = inl (- 2 ^ 63).
Proof. vm_compute. split_and!; reflexivity. Qed.

Example FormatInt_samples :
  strconv.FormatInt (-120) = "-120" /\ strconv.FormatInt 0 = "0" /\
  strconv.FormatInt 42 = "42".
Proof. split_and!; reflexivity. Qed.

Example pathParts_samples :
  pathParts "/actions/links/" "/actions/links/12/update/" = ["12"; "update"] /\
  pathParts "/actions/links/" "/actions/links/" = [""] /\
  pathParts "/actions/links/" "/actions/links/3//delete" = ["3"; ""; "delete"].
Proof. split_and!; reflexivity. Qed.

Example TrimSpace_sample : TrimSpace (GoEnv := goASCII) "  a b  " = "a b".
Proof. reflexivity. Qed.

Example ToLower_sample : ToLower (GoEnv := goASCII) "Dev Ops-9" = "dev ops-9".
Proof. reflexivity. Qed.

Example unique_message_found :
  strings.Contains (ToLower (GoEnv := goASCII) (Error ErrUnique)) "unique" = true.
Proof. reflexivity. Qed.

Example sortSlice_sample :
  sortSlice (fun a b => String.ltb a b) ["b"; "a"; "c"; "A"] = ["A"; "a"; "b"; "c"].
Proof. reflexivity. Qed.

(** ** Go's [<] on strings is a total preorder *)

Section StringOrder.

Implicit Types a b c : string.

Lemma ascii_compare_refl (x : ascii) : Ascii.compare x x = Eq.
Proof. unfold Ascii.compare. apply N.compare_refl. Qed.

Lemma ascii_compare_lt_trans (x y z : ascii) :
  Ascii.compare x y = Lt -> Ascii.compare y z = Lt -> Ascii.compare x z = Lt.
Proof.
  unfold Ascii.compare. rewrite !N.compare_lt_iff. apply N.lt_trans.
Qed.

Lemma string_compare_lt_trans a : forall b c,
  String.compare a b = Lt -> String.compare b c = Lt -> String.compare a c = Lt.
Proof.
  induction a as [|x a IH]; intros [|y b] [|z c]; simpl; try congruence.
  destruct (Ascii.compare x y) eqn:Hxy; try discriminate.
  - apply Ascii.compare_eq_iff in Hxy as ->.
    destruct (Ascii.compare y z); try congruence. apply IH.
  - intros _. destruct (Ascii.compare y z) eqn:Hyz; try discriminate.
    + apply Ascii.compare_eq_iff in Hyz as <-. now rewrite Hxy.
    + now rewrite (ascii_compare_lt_trans _ _ _ Hxy Hyz).
Qed.

Lemma string_compare_refl a : String.compare a a = Eq.
Proof. induction a; simpl; [easy|]. now rewrite ascii_compare_refl. Qed.

Lemma ltb_false_leb a b : String.ltb b a = false <-> String.leb a b = true.
Proof.
  unfold String.ltb, String.leb. rewrite (String.compare_antisym a b).
  destruct (String.compare b a); simpl; intuition congruence.
Qed.

Lemma ltb_asym a b : String.ltb a b = true -> String.ltb b a = false.
Proof.
  unfold String.ltb. rewrite (String.compare_antisym b a).
  destruct (String.compare a b); simpl; congruence.
Qed.

(** [a <= b] and [b <= c] give [a <= c], with [x <= y] read as "not [y < x]". *)
Lemma ltb_negtrans a b c :
  String.ltb b a = false -> String.ltb c b = false -> String.ltb c a = false.
Proof.
  unfold String.ltb. intros Hba Hcb.
  destruct (String.compare c a) eqn:Hca; try reflexivity.
  destruct (String.compare b a) eqn:E1; try discriminate;
    destruct (String.compare c b) eqn:E2; try discriminate.
  - apply String.compare_eq_iff in E1, E2. subst.
    rewrite string_compare_refl in Hca. discriminate.
  - apply String.compare_eq_iff in E1. subst. congruence.
  - apply String.compare_eq_iff in E2. subst. congruence.
  - rewrite String.compare_antisym in E1, E2.
    destruct (String.compare a b) eqn:F1; try discriminate.
    destruct (String.compare b c) eqn:F2; try discriminate.
    pose proof (string_compare_lt_trans _ _ _ F1 F2) as F3.
    rewrite String.compare_antisym, F3 in Hca. discriminate.
Qed.

End StringOrder.

(** ** [sortSlice] returns an ordered permutation *)

Section Sorting.

Context {A : Type} (less : A -> A -> bool).

Hypothesis less_asym : forall a b, less a b = true -> less b a = false.
Hypothesis less_negtrans :
  forall a b c, less b a = false -> less c b = false -> less c a = false.

Lemma insertBack_perm x rp : insertBack less x rp ≡ₚ x :: rp.
Proof.
  induction rp as [|y rp IH]; simpl; [done|].
  destruct (less x y); [|done].
  rewrite IH. apply Permutation_swap.
Qed.

Lemma foldl_insertBack_perm l : forall rp,
  foldl (fun rp x => insertBack less x rp) rp l ≡ₚ l ++ rp.
Proof.
  induction l as [|x l IH]; intros rp; simpl; [done|].
  rewrite IH, insertBack_perm. by rewrite Permutation_middle.
Qed.

Lemma sortSlice_perm l : sortSlice less l ≡ₚ l.
Proof.
  unfold sortSlice. rewrite <- Permutation_rev, foldl_insertBack_perm.
  by rewrite app_nil_r.
Qed.

Lemma insertBack_sorted x rp :
  StronglySorted (flip (notAfter less)) rp ->
  StronglySorted (flip (notAfter less)) (insertBack less x rp).
Proof.
  induction rp as [|y rp IH]; simpl; intros Hs.
  - repeat constructor.
  - apply StronglySorted_cons in Hs as [Hy Hs].
    destruct (less x y) eqn:Hxy.
    + apply StronglySorted_cons. split; [|by apply IH].
      rewrite insertBack_perm. constructor; [|done].
      unfold flip, notAfter. by apply less_asym.
    + apply StronglySorted_cons. split; [|by apply StronglySorted_cons].
      constructor; [exact Hxy|].
      eapply Forall_impl; [exact Hy|]. unfold flip, notAfter. intros z Hz.
      by apply (less_negtrans z y x).
Qed.

Lemma foldl_insertBack_sorted l : forall rp,
  StronglySorted (flip (notAfter less)) rp ->
  StronglySorted (flip (notAfter less)) (foldl (fun rp x => insertBack less x rp) rp l).
Proof.
  induction l as [|x l IH]; intros rp Hs; simpl; [done|].
  by apply IH, insertBack_sorted.
Qed.

Lemma StronglySorted_rev (R : relation A) l :
  StronglySorted (flip R) l -> StronglySorted R (rev l).
Proof.
  induction l as [|x l IH]; simpl; intros Hs; [constructor|].
  apply StronglySorted_cons in Hs as [Hx Hs].
  apply StronglySorted_app. split_and!.
  - intros a b Ha Hb. apply list_elem_of_In, in_rev, list_elem_of_In in Ha.
    apply list_elem_of_singleton in Hb as ->.
    by eapply Forall_forall in Hx.
  - by apply IH.
  - repeat constructor.
Qed.

Lemma sortSlice_sorted l : StronglySorted (notAfter less) (sortSlice less l).
Proof.
  unfold sortSlice. apply StronglySorted_rev, foldl_insertBack_sorted. constructor.
Qed.

End Sorting.

Lemma StronglySorted_weaken {A} (R1 R2 : relation A) l :
  (forall a b, R1 a b -> R2 a b) -> StronglySorted R1 l -> StronglySorted R2 l.
Proof.
  intros HR. induction 1 as [|x l _ IH Hx]; constructor; [done|].
  eapply Forall_impl; [exact Hx|]. apply HR.
Qed.

(** ** [FormatInt] is injective *)

Lemma to_int_proper (z : Z) : Z.to_int z <> Decimal.Pos Decimal.Nil /\ Z.to_int z <> Decimal.Neg Decimal.Nil.
Proof.
  destruct z as [|p|p]; simpl; split; try discriminate;
    intros [= Hp]; by apply DecimalPos.Unsigned.to_uint_nonnil in Hp.
Qed.

Lemma FormatInt_inj (a b : Z) : strconv.FormatInt a = strconv.FormatInt b -> a = b.
Proof.
  unfold strconv.FormatInt. intros Hab.
  apply DecimalZ.to_int_inj.
  destruct (to_int_proper a) as [Ha1 Ha2], (to_int_proper b) as [Hb1 Hb2].
  pose proof (NilZero.isi _ Ha1 Ha2) as Ea.
  pose proof (NilZero.isi _ Hb1 Hb2) as Eb.
  rewrite Hab in Ea. congruence.
Qed.

(** ** Slices and pointers while [categories] grows *)

Section Heap.

Context `{GoEnv}.

Lemma deref_Some h p e :
  deref h p = Some e <-> exists a, h !! p.1 = Some a /\ a !! p.2 = Some e.
Proof.
  unfold deref. destruct (h !! p.1) as [a|]; simpl.
  - split; [eauto|]. intros (a' & Heq & ?). by simplify_eq.
  - split; [discriminate|]. by intros (a' & Heq & _).
Qed.

Lemma all_cells_deref P h p e : all_cells P h -> deref h p = Some e -> P e.
Proof.
  intros Hall (a & Ha & He)%deref_Some.
  eapply Forall_lookup_1 in Hall; [|exact Ha].
  by eapply Forall_lookup_1 in Hall.
Qed.

Lemma append_len h s x : s_len (append h s x).2 = S (s_len s).
Proof. unfold append. by destruct (s_len s <? s_cap s)%nat. Qed.

Lemma append_ok h s x : slice_ok h s -> slice_ok (append h s x).1 (append h s x).2.
Proof.
  intros (a & Ha & Hlen & Hle). unfold append, slice_ok.
  destruct (s_len s <? s_cap s)%nat eqn:Hlt; simpl.
  - apply Nat.ltb_lt in Hlt. exists (<[s_len s := x]> a). split_and!.
    + by rewrite list_lookup_alter_eq, Ha.
    + by rewrite length_insert.
    + lia.
  - rewrite (list_lookup_total_correct _ _ _ Ha). eexists. split_and!.
    + by rewrite lookup_app_r, Nat.sub_diag by lia.
    + rewrite length_app, length_take. simpl. rewrite length_replicate. lia.
    + lia.
Qed.

(** The new element is at index [len] of the slice that [append] returns. *)
Lemma deref_append_new h s x :
  slice_ok h s -> deref (append h s x).1 (s_arr (append h s x).2, s_len s) = Some x.
Proof.
  intros (a & Ha & Hlen & Hle). apply deref_Some. unfold append.
  destruct (s_len s <? s_cap s)%nat eqn:Hlt; simpl.
  - apply Nat.ltb_lt in Hlt. exists (<[s_len s := x]> a). split.
    + by rewrite list_lookup_alter_eq, Ha.
    + apply list_lookup_insert_eq. lia.
  - rewrite (list_lookup_total_correct _ _ _ Ha). eexists. split.
    + by rewrite lookup_app_r, Nat.sub_diag by lia.
    + apply list_lookup_middle. rewrite length_take. lia.
Qed.

(** Cells that existed before keep their content, wherever they are;
    only the slot that receives the new element changes. *)
Lemma deref_append_old h s x p e :
  deref h p = Some e -> (p.1 = s_arr s -> p.2 <> s_len s) ->
  deref (append h s x).1 p = Some e.
Proof.
  intros (a & Ha & He)%deref_Some Hp. apply deref_Some. unfold append.
  destruct (s_len s <? s_cap s)%nat; simpl.
  - destruct (decide (p.1 = s_arr s)) as [Heq|Hne].
    + exists (<[s_len s := x]> a). split.
      * by rewrite <- Heq, list_lookup_alter_eq, Ha.
      * rewrite list_lookup_insert_ne; [done|]. intros E. by apply Hp.
    + exists a. split; [|done]. by rewrite list_lookup_alter_ne.
  - exists a. split; [|done]. by apply lookup_app_l_Some.
Qed.

Lemma elems_append h s x :
  slice_ok h s -> elems (append h s x).1 (append h s x).2 = elems h s ++ [x].
Proof.
  intros (a & Ha & Hlen & Hle). unfold elems, append.
  rewrite (list_lookup_total_correct _ _ _ Ha).
  destruct (s_len s <? s_cap s)%nat eqn:Hlt; simpl.
  - apply Nat.ltb_lt in Hlt.
    erewrite list_lookup_total_correct; [|by rewrite list_lookup_alter_eq, Ha].
    erewrite take_S_r; [|apply list_lookup_insert_eq; lia].
    by rewrite take_insert_ge by lia.
  - erewrite list_lookup_total_correct; [|by rewrite lookup_app_r, Nat.sub_diag by lia].
    rewrite take_app_ge; rewrite length_take; [|lia].
    replace (S (s_len s) - s_len s `min` length a)%nat with 1%nat by lia.
    done.
Qed.

Lemma append_all_cells P h s x :
  all_cells P h -> P x -> P zeroCategory -> all_cells P (append h s x).1.
Proof.
  intros Hall Hx Hz. unfold append, all_cells.
  destruct (s_len s <? s_cap s)%nat; simpl.
  - apply Forall_alter; [done|]. intros a _ Ha. by apply Forall_insert.
  - apply Forall_app. split; [done|]. constructor; [|constructor].
    apply Forall_app. split.
    + apply Forall_take.
      destruct (h !! s_arr s) as [a|] eqn:Ha.
      * rewrite (list_lookup_total_correct _ _ _ Ha).
        by eapply Forall_lookup_1 in Hall.
      * rewrite list_lookup_total_alt, Ha. constructor.
    + constructor; [done|]. by apply Forall_replicate.
Qed.

(** *** The loop over the category rows *)

Lemma loadCategories_spec rows : forall h s m h' s' m',
  slice_ok h s ->
  loadCategories rows h s m = (h', s', m') ->
  slice_ok h' s' /\
  elems h' s' = elems h s ++ (newCategory <$> rows) /\
  (forall p e, deref h p = Some e -> (p.1 = s_arr s -> (p.2 < s_len s)%nat) ->
               deref h' p = Some e) /\
  (forall id p, m' !! id = Some p ->
     m !! id = Some p \/
     exists r, r ∈ rows /\ cr_id r = id /\ deref h' p = Some (newCategory r)).
Proof.
  induction rows as [|r rows IH]; intros h s m h' s' m' Hok Hrun; simpl in Hrun.
  - injection Hrun as <- <- <-. rewrite app_nil_r. naive_solver.
  - destruct (append h s (newCategory r)) as [h1 s1] eqn:Happ.
    pose proof (append_ok h s (newCategory r) Hok) as Hok1.
    pose proof (append_len h s (newCategory r)) as Hlen1.
    pose proof (deref_append_new h s (newCategory r) Hok) as Hnew.
    pose proof (elems_append h s (newCategory r) Hok) as Hel.
    pose proof (fun p e => deref_append_old h s (newCategory r) p e) as Hold.
    rewrite Happ in Hok1, Hlen1, Hnew, Hel, Hold. simpl in *.
    destruct (IH _ _ _ _ _ _ Hok1 Hrun) as (Hok' & Hel' & Hkeep & Hmap).
    split_and!.
    + done.
    + rewrite Hel', Hel, <- app_assoc. done.
    + intros p e Hp Hin. apply Hkeep.
      * apply Hold; [done|]. intros E. specialize (Hin E). lia.
      * intros E. rewrite Hlen1.
        destruct (decide (p.1 = s_arr s)) as [E'|E']; [specialize (Hin E'); lia|].
        (* the cell lives in an array that existed before the append *)
        apply deref_Some in Hp as (a & Ha & _).
        apply lookup_lt_Some in Ha.
        exfalso. revert Happ. unfold append.
        destruct (s_len s <? s_cap s)%nat; intros [= <- <-]; simpl in *; [done|lia].
    + intros id p Hp. apply Hmap in Hp as [Hp|(r' & Hr' & Hid & Hd)].
      * destruct (decide (cr_id r = id)) as [<-|Hne].
        -- rewrite lookup_insert_eq in Hp. injection Hp as <-.
           right. exists r. split_and!; [apply list_elem_of_here|done|].
           apply Hkeep; simpl.
           ++ rewrite Hlen1. by replace (S (s_len s) - 1)%nat with (s_len s) by lia.
           ++ intros _. lia.
        -- rewrite lookup_insert_ne in Hp by done. by left.
      * right. exists r'. split_and!; [by apply list_elem_of_further|done|done].
Qed.

Lemma loadCategories_all_cells P rows : forall h s m,
  all_cells P h -> P zeroCategory -> (forall r, P (newCategory r)) ->
  all_cells P (loadCategories rows h s m).1.1.
Proof.
  induction rows as [|r rows IH]; intros h s m Hall Hz Hnew; simpl; [done|].
  destruct (append h s (newCategory r)) as [h1 s1] eqn:Happ.
  apply IH; [|done|done].
  pose proof (append_all_cells P h s (newCategory r) Hall (Hnew r) Hz) as Hc.
  by rewrite Happ in Hc.
Qed.

End Heap.

(** ** The loop over the link rows *)

Section Join.

Context `{GoEnv}.
Variable cats : list category_row.
Variable lks : list link_row.

Lemma grown_refl e : grown e e.
Proof. by unfold grown. Qed.

Lemma grown_trans e1 e2 e3 : grown e1 e2 -> grown e2 e3 -> grown e1 e3.
Proof. unfold grown. intros (-> & -> & ?) (-> & -> & ?). auto. Qed.

Lemma grown_appendLink l e : grown e (appendLink l e).
Proof. unfold grown, appendLink. simpl. eauto. Qed.

Lemma storeLink_all_cells P h p l :
  all_cells P h ->
  (forall e, deref h p = Some e -> P e -> P (appendLink l e)) ->
  all_cells P (storeLink h p l).
Proof.
  intros Hall Hstep. unfold storeLink, all_cells.
  apply Forall_alter; [done|]. intros a Ha Hcells.
  apply Forall_alter; [done|]. intros e He. apply Hstep.
  apply deref_Some. eauto.
Qed.

Lemma deref_storeLink h p l q e :
  deref h q = Some e -> exists e', deref (storeLink h p l) q = Some e' /\ grown e e'.
Proof.
  intros (a & Ha & He)%deref_Some. unfold storeLink.
  destruct (decide (p.1 = q.1)) as [E1|E1].
  - destruct (decide (p.2 = q.2)) as [E2|E2].
    + exists (appendLink l e). split; [|apply grown_appendLink].
      apply deref_Some. exists (alter (appendLink l) p.2 a). split.
      * by rewrite E1, list_lookup_alter_eq, Ha.
      * by rewrite E2, list_lookup_alter_eq, He.
    + exists e. split; [|apply grown_refl].
      apply deref_Some. exists (alter (appendLink l) p.2 a). split.
      * by rewrite E1, list_lookup_alter_eq, Ha.
      * by rewrite list_lookup_alter_ne.
  - exists e. split; [|apply grown_refl].
    apply deref_Some. exists a. split; [|done]. by rewrite list_lookup_alter_ne.
Qed.

Lemma storeLink_elems h p l s : Forall2 grown (elems h s) (elems (storeLink h p l) s).
Proof.
  unfold elems, storeLink. apply Forall2_take.
  rewrite !list_lookup_total_alt, list_lookup_alter.
  destruct (decide (p.1 = s_arr s)) as [->|_].
  - destruct (h !! s_arr s) as [a|]; simpl; [|constructor].
    apply Forall2_alter_r.
    + apply Forall_Forall2_diag, Forall_forall. intros. apply grown_refl.
    + intros x y _ _ Hxy. eapply grown_trans; [exact Hxy|apply grown_appendLink].
  - apply Forall_Forall2_diag, Forall_forall. intros. apply grown_refl.
Qed.

Lemma storeLink_ptrs_ok m h p l : ptrs_ok cats m h -> ptrs_ok cats m (storeLink h p l).
Proof.
  intros Hm id q Hq. destruct (Hm id q Hq) as (e & k & He & Hk & Hid & HID).
  destruct (deref_storeLink h p l q e He) as (e' & He' & Hg).
  exists e', k. split_and!; try done. destruct Hg as (-> & _). done.
Qed.

Lemma loadLinks_all_cells m rows : forall h,
  (forall r, r ∈ rows -> r ∈ lks) ->
  ptrs_ok cats m h -> all_cells (linksOK cats lks) h ->
  all_cells (linksOK cats lks) (loadLinks rows m h).
Proof.
  induction rows as [|r rows IH]; intros h Hsub Hm Hall; simpl; [done|].
  assert (forall r', r' ∈ rows -> r' ∈ lks) as Hsub'
    by (intros; by apply Hsub, list_elem_of_further).
  destruct (m !! lr_category_id r) as [p|] eqn:Hp; [|by apply IH].
  apply IH; [done|by apply storeLink_ptrs_ok|].
  apply storeLink_all_cells; [done|].
  intros e He Hok l. unfold appendLink. simpl.
  rewrite elem_of_app, list_elem_of_singleton. intros [Hl| ->]; [by apply Hok|].
  destruct (Hm _ _ Hp) as (e' & k & He' & Hk & Hid & HID).
  rewrite He in He'. injection He' as <-.
  exists r, k. split_and!; try done.
  - apply Hsub, list_elem_of_here.
  - by rewrite Hid.
Qed.

Lemma loadLinks_elems m s rows : forall h,
  Forall2 grown (elems h s) (elems (loadLinks rows m h) s).
Proof.
  induction rows as [|r rows IH]; intros h; simpl.
  - apply Forall_Forall2_diag, Forall_forall. intros. apply grown_refl.
  - destruct (m !! lr_category_id r) as [p|]; [|apply IH].
    eapply Forall2_trans; [|apply storeLink_elems|apply IH].
    apply grown_trans.
Qed.

Lemma all_cells_elems P h s : all_cells P h -> Forall P (elems h s).
Proof.
  intros Hall. unfold elems. apply Forall_take.
  rewrite list_lookup_total_alt.
  destruct (h !! s_arr s) as [a|] eqn:Ha; simpl; [|constructor].
  by eapply Forall_lookup_1 in Hall.
Qed.

(** The view is the ordered copy of the cells of [categories]: one cell
    per category row, in the order read, each holding only links that
    belong to it. *)
Lemma aggregate_cells :
  exists es,
    Categories (aggregate cats lks) = sortLinks <$> sortSlice lessCategory es /\
    Forall2 grown (newCategory <$> cats) es /\
    Forall (linksOK cats lks) es.
Proof.
  unfold aggregate. simpl.
  set (s0 := {| s_arr := 0; s_len := 0; s_cap := 0 |}).
  destruct (loadCategories cats [[]] s0 ∅) as [[h1 s1] m] eqn:Hload.
  assert (slice_ok [[]] s0) as Hok0 by (exists []; simpl; split_and!; done || lia).
  destruct (loadCategories_spec cats _ _ _ _ _ _ Hok0 Hload) as (Hok1 & Hel & _ & Hm).
  assert (elems [[]] s0 = []) as Hel0 by done. rewrite Hel0 in Hel. simpl in Hel.
  assert (all_cells (linksOK cats lks) h1) as Hall1.
  { pose proof (loadCategories_all_cells (linksOK cats lks) cats [[]] s0 ∅) as Hc.
    rewrite Hload in Hc. apply Hc.
    - repeat constructor.
    - intros l Hl. simpl in Hl. by apply elem_of_nil in Hl.
    - intros r l Hl. simpl in Hl. by apply elem_of_nil in Hl. }
  assert (ptrs_ok cats m h1) as Hptr.
  { intros id p Hp. apply Hm in Hp as [Hp|(r & Hr & Hid & Hd)].
    - by rewrite lookup_empty in Hp.
    - exists (newCategory r), r. split_and!; try done. simpl. by rewrite Hid. }
  exists (elems (loadLinks lks m h1) s1). split_and!.
  - done.
  - rewrite <- Hel. apply loadLinks_elems.
  - apply all_cells_elems. by apply loadLinks_all_cells.
Qed.

End Join.

(** ** The view that [getDashboardData] returns *)

Section View.

Context `{GoEnv}.

Lemma getDashboardData_inv w v w' :
  getDashboardData w = (inl v, w') ->
  v = aggregate (categories (db w)) (links (db w)) /\ db w' = db w.
Proof.
  unfold getDashboardData, QueryCategories, QueryLinks, bind, ret, fault.
  destruct w as [st t fs]. simpl.
  destruct fs as [|[msg|] fs]; simpl; try discriminate;
    try (destruct fs as [|[msg'|] fs]; simpl; try discriminate);
    intros [= <- <-]; done.
Qed.

(** Without a failing query the view is there, and the store is left alone. *)
Lemma getDashboardData_ok st t fs :
  getDashboardData {| db := st; txn := t; faults := None :: None :: fs |}
  = (inl (aggregate (categories st) (links st)), {| db := st; txn := t; faults := fs |}).
Proof. reflexivity. Qed.

Lemma getDashboardData_ok_nil st t :
  getDashboardData {| db := st; txn := t; faults := [] |}
  = (inl (aggregate (categories st) (links st)), {| db := st; txn := t; faults := [] |}).
Proof. reflexivity. Qed.

Lemma lessCategory_sorted es :
  StronglySorted (fun a b => ciLe (dc_Name a) (dc_Name b)) (sortSlice lessCategory es).
Proof.
  eapply StronglySorted_weaken; [|apply sortSlice_sorted].
  - intros a b Hab. by apply ltb_false_leb.
  - intros a b. apply ltb_asym.
  - intros a b c. apply ltb_negtrans.
Qed.

Lemma lessLink_sorted ls :
  StronglySorted (fun a b => ciLe (dl_Name a) (dl_Name b)) (sortSlice lessLink ls).
Proof.
  eapply StronglySorted_weaken; [|apply sortSlice_sorted].
  - intros a b Hab. by apply ltb_false_leb.
  - intros a b. apply ltb_asym.
  - intros a b c. apply ltb_negtrans.
Qed.

Lemma links_of_sortLinks c : links_of (sortLinks c) ≡ₚ links_of c.
Proof.
  unfold links_of, sortLinks. simpl.
  destruct (dc_Links c) as [ls|]; simpl; [apply sortSlice_perm|done].
Qed.

Lemma header_sortLinks c : header (sortLinks c) = header c.
Proof. done. Qed.

Lemma grown_headers cs es :
  Forall2 grown (newCategory <$> cs) es ->
  header <$> es = (fun k => (strconv.FormatInt (cr_id k), cr_name k)) <$> cs.
Proof.
  revert es. induction cs as [|k cs IH]; intros es Hg; simpl in *.
  - by apply Forall2_nil_inv_l in Hg as ->.
  - apply Forall2_cons_inv_l in Hg as (e & es' & (HID & HName & _) & Hrest & ->).
    simpl. f_equal; [|by apply IH].
    unfold header. by rewrite HID, HName.
Qed.

Lemma grown_links_Some cs es :
  Forall2 grown (newCategory <$> cs) es -> Forall (fun e => is_Some (dc_Links e)) es.
Proof.
  intros Hg. eapply Forall2_Forall_r; [exact Hg|].
  apply Forall_fmap, Forall_forall. intros k _ e (_ & _ & Hs). apply Hs. simpl. eauto.
Qed.

Lemma newLink_inj r r' : newLink r = newLink r' -> r = r'.
Proof.
  destruct r, r'. unfold newLink. simpl. intros [= E1 E2 -> ->].
  apply FormatInt_inj in E1, E2. by subst.
Qed.

End View.

(** * The view: order, links, categories *)

Lemma demoView_computed : getDashboardData (H := goASCII) demoWorld = (inl demoView, demoWorld).
Proof. vm_compute. reflexivity. Qed.

(** C4. In every view that [getDashboardData] returns, the categories
    are in ascending order of their lower-cased names, and so are the
    links listed under each category, whatever the order of the rows in
    the store. *)
Theorem C4_view_sorted `{GoEnv} (w w' : world) (v : dashboardData) :
  getDashboardData w = (inl v, w') ->
  StronglySorted (fun a b => ciLe (dc_Name a) (dc_Name b)) (Categories v) /\
  Forall (fun c => StronglySorted (fun a b => ciLe (dl_Name a) (dl_Name b)) (links_of c))
         (Categories v).
Proof.
  intros [-> _]%getDashboardData_inv.
  destruct (aggregate_cells (categories (db w)) (links (db w))) as (es & -> & _ & _).
  split.
  - apply StronglySorted_fmap with (R1 := fun a b => ciLe (dc_Name a) (dc_Name b)).
    + done.
    + apply lessCategory_sorted.
  - apply Forall_fmap, Forall_forall. intros c _. unfold links_of, sortLinks. simpl.
    destruct (dc_Links c) as [ls|]; simpl; [apply lessLink_sorted|constructor].
Qed.

Lemma C4_view_sorted_witness :
  StronglySorted (fun a b => ciLe (H := goASCII) (dc_Name a) (dc_Name b)) (Categories demoView) /\
  Forall (fun c => StronglySorted (fun a b => ciLe (H := goASCII) (dl_Name a) (dl_Name b))
                     (links_of c))
         (Categories demoView).
Proof. apply (C4_view_sorted (H := goASCII) demoWorld demoWorld demoView). vm_compute. reflexivity. Defined.

(** C5. Every link in a view that [getDashboardData] returns was read
    from a link row whose category id is the id of a category row that
    was read, and it is listed under that category; a link row whose
    category id matches no category row is nowhere in the view. *)
Theorem C5_view_links_resolved `{GoEnv} (w w' : world) (v : dashboardData) :
  getDashboardData w = (inl v, w') ->
  Forall (fun c =>
    Forall (fun l => exists r k,
              r ∈ links (db w) /\ k ∈ categories (db w) /\ l = newLink r /\
              lr_category_id r = cr_id k /\ dc_ID c = strconv.FormatInt (cr_id k))
           (links_of c))
    (Categories v) /\
  Forall (fun r =>
    hasCategory (db w) (lr_category_id r) = false ->
    Forall (fun c => newLink r ∉ links_of c) (Categories v))
    (links (db w)).
Proof.
  intros [-> _]%getDashboardData_inv.
  destruct (aggregate_cells (categories (db w)) (links (db w))) as (es & -> & _ & Hok).
  assert (Forall (fun c =>
    Forall (fun l => exists r k,
              r ∈ links (db w) /\ k ∈ categories (db w) /\ l = newLink r /\
              lr_category_id r = cr_id k /\ dc_ID c = strconv.FormatInt (cr_id k))
           (links_of c))
    (sortLinks <$> sortSlice lessCategory es)) as Hpos.
  { apply Forall_fmap, Forall_forall. intros c Hc. simpl.
    rewrite sortSlice_perm in Hc. eapply Forall_forall in Hok; [|exact Hc].
    apply Forall_forall. intros l Hl. rewrite links_of_sortLinks in Hl.
    by apply Hok. }
  split; [exact Hpos|].
  apply Forall_forall. intros r Hr Hdangling.
  apply Forall_forall. intros c Hc Hin.
  eapply Forall_forall in Hpos; [|exact Hc].
  eapply Forall_forall in Hpos; [|exact Hin].
  destruct Hpos as (r' & k & _ & Hk & ->%newLink_inj & Hid & _).
  unfold hasCategory in Hdangling.
  apply not_true_iff_false in Hdangling. apply Hdangling.
  apply existsb_exists. exists k. split; [by apply list_elem_of_In|].
  apply Z.eqb_eq. done.
Qed.

Lemma C5_view_links_resolved_witness :
  Forall (fun c =>
    Forall (fun l => exists r k,
              r ∈ links demoStore /\ k ∈ categories demoStore /\ l = newLink r /\
              lr_category_id r = cr_id k /\ dc_ID c = strconv.FormatInt (cr_id k))
           (links_of c))
    (Categories demoView) /\
  Forall (fun r =>
    hasCategory demoStore (lr_category_id r) = false ->
    Forall (fun c => newLink r ∉ links_of c) (Categories demoView))
    (links demoStore).
Proof. apply (C5_view_links_resolved (H := goASCII) demoWorld demoWorld demoView). vm_compute. reflexivity. Defined.

(** C6. A view that [getDashboardData] returns shows exactly the stored
    categories, each with its id and name; the link list of every entry
    is a non-nil slice, and it is the empty slice for a category that no
    link row refers to. *)
Theorem C6_view_all_categories `{GoEnv} (w w' : world) (v : dashboardData) :
  getDashboardData w = (inl v, w') ->
  header <$> Categories v
    ≡ₚ (fun k => (strconv.FormatInt (cr_id k), cr_name k)) <$> categories (db w) /\
  Forall (fun c => is_Some (dc_Links c)) (Categories v) /\
  Forall (fun c =>
    Forall (fun k =>
      dc_ID c = strconv.FormatInt (cr_id k) ->
      Forall (fun r => lr_category_id r <> cr_id k) (links (db w)) ->
      dc_Links c = Some [])
      (categories (db w)))
    (Categories v).
Proof.
  intros [-> _]%getDashboardData_inv.
  destruct (aggregate_cells (categories (db w)) (links (db w))) as (es & -> & Hg & Hok).
  assert (Forall (fun c => is_Some (dc_Links c)) (sortLinks <$> sortSlice lessCategory es))
    as Hsome.
  { apply Forall_fmap, Forall_forall. intros c Hc. simpl.
    rewrite sortSlice_perm in Hc.
    pose proof (grown_links_Some _ _ Hg) as Hs.
    eapply Forall_forall in Hs; [|exact Hc]. destruct Hs as [ls ->]. simpl. eauto. }
  split_and!.
  - rewrite <- list_fmap_compose.
    rewrite (list_fmap_ext (header ∘ sortLinks) header (sortSlice lessCategory es))
      by (intros; apply header_sortLinks).
    rewrite sortSlice_perm. by rewrite (grown_headers _ _ Hg).
  - exact Hsome.
  - apply Forall_forall. intros c Hc.
    apply Forall_forall. intros k Hk HID Hnone.
    pose proof Hc as Hc'. eapply Forall_forall in Hsome; [|exact Hc'].
    destruct Hsome as [ls Hls]. rewrite Hls. f_equal.
    destruct ls as [|l ls]; [done|exfalso].
    apply list_elem_of_fmap in Hc as (e & -> & He).
    rewrite sortSlice_perm in He. eapply Forall_forall in Hok; [|exact He].
    assert (l ∈ links_of (sortLinks e)) as Hl
      by (unfold links_of; rewrite Hls; apply list_elem_of_here).
    rewrite links_of_sortLinks in Hl.
    destruct (Hok l Hl) as (r & k' & Hr & _ & _ & Hid & HID').
    simpl in HID. rewrite HID' in HID. apply FormatInt_inj in HID.
    eapply Forall_forall in Hnone; [|exact Hr]. congruence.
Qed.

Lemma C6_view_all_categories_witness :
  header <$> Categories demoView
    ≡ₚ (fun k => (strconv.FormatInt (cr_id k), cr_name k)) <$> categories demoStore /\
  Forall (fun c => is_Some (dc_Links c)) (Categories demoView) /\
  Forall (fun c =>
    Forall (fun k =>
      dc_ID c = strconv.FormatInt (cr_id k) ->
      Forall (fun r => lr_category_id r <> cr_id k) (links demoStore) ->
      dc_Links c = Some [])
      (categories demoStore))
    (Categories demoView).
Proof. apply (C6_view_all_categories (H := goASCII) demoWorld demoWorld demoView). vm_compute. reflexivity. Defined.

(** * The handlers *)

(** ** One statement, then the dashboard *)

Section HandlerFacts.

Context `{GoEnv}.
Variable s : server.

Lemma nextFails_cases w :
  (exists msg fs, faults w = Some msg :: fs) \/ nextFails w = false.
Proof.
  unfold nextFails. destruct (faults w) as [|[msg|] fs]; eauto.
Qed.

Lemma ExecContext_fault q w msg fs :
  faults w = Some msg :: fs -> ExecContext q w = (Some (ErrOther msg), popFault w).
Proof.
  unfold ExecContext, bind, fault, ret, popFault. destruct w as [st t fs']. simpl.
  by intros ->.
Qed.

Lemma ExecContext_pass q w :
  nextFails w = false ->
  ExecContext q w =
  match exec q (db w) with
  | inl st' => (None, setDb (popFault w) st')
  | inr e => (Some e, popFault w)
  end.
Proof.
  unfold ExecContext, bind, fault, ret, nextFails, popFault, setDb.
  destruct w as [st t [|[msg|] fs]]; simpl; try done; by destruct (exec q st).
Qed.

Lemma renderDashboard_db w : db (renderDashboard s w).2 = db w /\ txn (renderDashboard s w).2 = txn w.
Proof.
  unfold renderDashboard, bind.
  destruct (getDashboardData w) as [[v|e] w1] eqn:Hget.
  - apply getDashboardData_inv in Hget as Hinv. destruct Hinv as [_ Hdb].
    assert (txn w1 = txn w) as Htx.
    { revert Hget. unfold getDashboardData, QueryCategories, QueryLinks, bind, ret, fault.
      destruct w as [st t [|[?|] [|[?|] ?]]]; simpl; intros [= <-]; try done;
        by subst. }
    destruct (templates s v) as [out [|]]; [done|].
    by destruct (String.eqb out "").
  - revert Hget. unfold getDashboardData, QueryCategories, QueryLinks, bind, ret, fault.
    destruct w as [st t [|[?|] [|[?|] ?]]]; simpl; intros [= <-]; try done;
      by subst.
Qed.

Lemma renderDashboard_status w :
  Status (renderDashboard s w).1 = StatusOK \/
  Status (renderDashboard s w).1 = StatusInternalServerError.
Proof.
  unfold renderDashboard, bind.
  destruct (getDashboardData w) as [[v|e] w1]; [|by right].
  destruct (templates s v) as [out [|]]; [by left|].
  destruct (String.eqb out ""); [by right|by left].
Qed.

(** With nothing failing, the response is the template's output on the
    view of the store. *)
Lemma renderDashboard_ok w :
  faults w = [] ->
  let out := templates s (aggregate (categories (db w)) (links (db w))) in
  (renderDashboard s w).2 = w /\
  (out.2 = true ->
   (renderDashboard s w).1 =
     {| Status := StatusOK; ContentType := "text/html; charset=utf-8"; Body := out.1 |}).
Proof.
  destruct w as [st t fs]. simpl. intros ->.
  unfold renderDashboard, bind. rewrite getDashboardData_ok_nil. simpl.
  destruct (templates s (aggregate (categories st) (links st))) as [out [|]]; simpl.
  - done.
  - split; [|done]. by destruct (String.eqb out "").
Qed.

End HandlerFacts.

(** ** Requests that are turned down before any statement *)

(** C7. A POST that reaches [handleCreateCategory] with a [name] field
    that is empty once trimmed is answered with 400, and nothing is
    written: the store, and the whole state of the handle, is what it
    was. *)
Theorem C7_blank_name_rejected `{GoEnv} (s : server) (r : Request) (w : world)
    (form : list (string * string)) :
  Method r = MethodPost ->
  Form r = Some form ->
  TrimSpace (FormValue form "name") = "" ->
  handleCreateCategory s r w = (httpError "category name is required" StatusBadRequest, w).
Proof.
  intros Hm Hf Hname. unfold handleCreateCategory. rewrite Hm, Hf, Hname. reflexivity.
Qed.

Lemma C7_blank_name_rejected_witness :
  handleCreateCategory (H := goASCII) plainServer
    (post "/actions/categories/create" [("name", "   ")]) startWorld
  = (httpError "category name is required" StatusBadRequest, startWorld).
Proof.
  apply (C7_blank_name_rejected (H := goASCII) plainServer _ startWorld [("name", "   ")]);
    reflexivity.
Defined.

(** C9, as the code has it. On every route but /health a request with
    another method than the route's is answered with 405 and changes
    nothing. *)
Theorem C9_wrong_method `{GoEnv} (s : server) (r : Request) (w : world) (rt : route) :
  rt <> RouteHealth ->
  Method r <> route_method rt ->
  handler s rt r w = (httpError "method not allowed" StatusMethodNotAllowed, w).
Proof.
  intros Hh Hm.
  apply String.eqb_neq in Hm.
  destruct rt; try done; simpl in *;
    unfold handleDashboard, handleCreateCategory, handleCategoryActions,
      handleCreateLink, handleLinkActions;
    by rewrite Hm.
Qed.

Lemma C9_wrong_method_witness :
  handler (H := goASCII) plainServer RouteLinkActions
    {| Method := "GET"; Path := "/actions/links/3/delete"; Form := Some [] |} startWorld
  = (httpError "method not allowed" StatusMethodNotAllowed, startWorld).
Proof.
  apply (C9_wrong_method (H := goASCII) plainServer _ startWorld RouteLinkActions);
    discriminate.
Defined.

(** C9, as the claim has it, fails on /health: [handleHealth] does not
    look at the request, so a POST gets 200 and "ok". *)
Lemma C9_health_any_method :
  MethodPost <> route_method RouteHealth /\
  handler (H := goASCII) plainServer RouteHealth (post "/health" []) startWorld
  = ({| Status := StatusOK; ContentType := "text/plain; charset=utf-8"; Body := "ok" |},
     startWorld) /\
  StatusOK <> StatusMethodNotAllowed.
Proof. split_and!; [discriminate|reflexivity|discriminate]. Qed.

(** ** Creating a category *)

Lemma devWorld_reached :
  (handleCreateCategory (H := goASCII) plainServer
     (post "/actions/categories/create" [("name", "Dev")]) startWorld).2 = devWorld.
Proof. vm_compute. reflexivity. Qed.

(** C1, as the code has it. A POST that reaches [handleCreateCategory]
    with a name whose trimmed bytes are those of a stored category name
    is answered with 409 "category already exists", and the tables are
    what they were, provided the insert itself is not cut short and row
    ids are not used up. *)
Theorem C1_same_name_conflict `{GoEnv} (s : server) (r : Request) (w : world)
    (form : list (string * string)) (k : category_row) :
  Method r = MethodPost ->
  Form r = Some form ->
  TrimSpace (FormValue form "name") <> "" ->
  k ∈ categories (db w) ->
  cr_name k = TrimSpace (FormValue form "name") ->
  nextFails w = false ->
  Z.max (seq_categories (db w)) (maxRowid (cr_id <$> categories (db w))) < maxInt64 ->
  strings.Contains (ToLower (Error ErrUnique)) "unique" = true ->
  handleCreateCategory s r w
  = (httpError "category already exists" StatusConflict, popFault w).
Proof.
  intros Hm Hf Hne Hk Hname Hnf Hids Hmsg.
  unfold handleCreateCategory. rewrite Hm, Hf. simpl.
  apply String.eqb_neq in Hne. rewrite Hne.
  unfold bind. rewrite ExecContext_pass by done. simpl.
  unfold newRowid. apply Z.ltb_lt in Hids. rewrite Hids.
  assert (nameTaken (db w) (TrimSpace (FormValue form "name")) = true) as ->.
  { unfold nameTaken. apply existsb_exists. exists k.
    split; [by apply list_elem_of_In|]. rewrite Hname. apply String.eqb_refl. }
  by rewrite Hmsg.
Qed.

Lemma C1_same_name_conflict_witness :
  handleCreateCategory (H := goASCII) plainServer
    (post "/actions/categories/create" [("name", " Dev ")]) devWorld
  = (httpError "category already exists" StatusConflict, popFault devWorld).
Proof.
  apply (C1_same_name_conflict (H := goASCII) plainServer _ devWorld [("name", " Dev ")]
           {| cr_id := 1; cr_name := "Dev" |});
    try reflexivity.
  - discriminate.
  - apply list_elem_of_here.
Defined.

(** C1, as the claim has it, fails: with "Dev" stored, the name "dev"
    differs from it only by case, and the insert goes through with 200
    and a second row. *)
Lemma C1_case_variant_accepted :
  let r := post "/actions/categories/create" [("name", "dev")] in
  let out := handleCreateCategory (H := goASCII) plainServer r devWorld in
  strings.lowerASCII (strings.trimSpaceASCII "dev") = strings.lowerASCII "Dev" /\
  Status out.1 = StatusOK /\
  Status out.1 <> StatusConflict /\
  categories (db out.2) = [{| cr_id := 1; cr_name := "Dev" |}; {| cr_id := 2; cr_name := "dev" |}].
Proof. vm_compute. split_and!; [reflexivity|reflexivity|discriminate|reflexivity]. Qed.

(** ** Writing a link *)

(** On the connection that [main] opens, a link row may name any
    category id. *)
Lemma exec_InsertLink_unchecked st name url c id :
  foreign_keys st = false ->
  newRowid (seq_links st) (lr_id <$> links st) = Some id ->
  exec (InsertLink name url c) st
  = inl (setLinks st (links st ++ [{| lr_id := id; lr_name := name; lr_url := url;
                                      lr_category_id := c |}]) id).
Proof. intros Hfk Hid. simpl. by rewrite Hid, Hfk. Qed.

(** With the foreign keys of the connection on, the clause in the schema
    would turn the same insert down. *)
Lemma exec_InsertLink_checked st name url c id :
  foreign_keys st = true ->
  hasCategory st c = false ->
  newRowid (seq_links st) (lr_id <$> links st) = Some id ->
  exec (InsertLink name url c) st = inr ErrForeignKey.
Proof. intros Hfk Hc Hid. simpl. by rewrite Hid, Hfk, Hc. Qed.

Lemma repoWorld_reached :
  (handleCreateLink (H := goASCII) plainServer
     (post "/actions/links/create"
        [("name", "Repo"); ("url", "https://x"); ("category_id", "1")]) devWorld).2
  = repoWorld.
Proof. vm_compute. reflexivity. Qed.

(** C2 fails on the code. A link is created under category id 7 in a
    store without categories, and the link of "Dev" is moved to category
    id 7 that no row has: both requests are answered with 200 and both
    rows are stored. *)
Lemma C2_dangling_category_stored :
  let create := handleCreateLink (H := goASCII) plainServer
      (post "/actions/links/create"
         [("name", "Repo"); ("url", "https://x"); ("category_id", "7")]) startWorld in
  let update := handleLinkActions (H := goASCII) plainServer
      (post "/actions/links/1/update"
         [("name", "Repo"); ("url", "https://x"); ("category_id", "7")]) repoWorld in
  (Status create.1 = StatusOK /\
   links (db create.2) = [{| lr_id := 1; lr_name := "Repo"; lr_url := "https://x";
                             lr_category_id := 7 |}] /\
   hasCategory (db create.2) 7 = false) /\
  (Status update.1 = StatusOK /\
   links (db update.2) = [{| lr_id := 1; lr_name := "Repo"; lr_url := "https://x";
                             lr_category_id := 7 |}] /\
   hasCategory (db update.2) 7 = false).
Proof. vm_compute. split_and!; reflexivity. Qed.

Section LinkWrites.

Context `{GoEnv}.
Variable s : server.

Lemma linkFields_inl form name url c :
  linkFields form = inl (name, url, c) ->
  name = TrimSpace (FormValue form "name") /\
  url = TrimSpace (FormValue form "url") /\
  strconv.ParseInt (TrimSpace (FormValue form "category_id")) = inl c.
Proof.
  unfold linkFields.
  destruct (_ || _); [discriminate|].
  destruct (strconv.ParseInt _) as [c'|e]; [|discriminate].
  by intros [= <- <- <-].
Qed.

Lemma handleCreateLink_stored r w form name url c :
  Method r = MethodPost ->
  Form r = Some form ->
  linkFields form = inl (name, url, c) ->
  Status (handleCreateLink s r w).1 = StatusOK ->
  exists id, links (db (handleCreateLink s r w).2)
             = links (db w) ++ [{| lr_id := id; lr_name := name; lr_url := url;
                                   lr_category_id := c |}].
Proof.
  intros Hm Hf Hflds. unfold handleCreateLink. rewrite Hm, Hf, Hflds. simpl.
  unfold bind.
  destruct (nextFails_cases w) as [(msg & fs & Hfault)|Hpass].
  { by rewrite (ExecContext_fault _ _ _ _ Hfault). }
  rewrite ExecContext_pass by done.
  simpl. destruct (newRowid _ _) as [id|]; [|discriminate].
  destruct (_ && _); [discriminate|].
  intros _. exists id.
  destruct (renderDashboard_db s
    (setDb (popFault w) (setLinks (db w)
       (links (db w) ++ [{| lr_id := id; lr_name := name; lr_url := url;
                            lr_category_id := c |}]) id))) as [-> _].
  done.
Qed.

Lemma handleUpdateLink_stored r id w form name url c :
  Form r = Some form ->
  linkFields form = inl (name, url, c) ->
  Status (handleUpdateLink s r id w).1 = StatusOK ->
  links (db (handleUpdateLink s r id w).2) = updateRow name url c id <$> links (db w).
Proof.
  intros Hf Hflds. unfold handleUpdateLink. rewrite Hf, Hflds. simpl.
  unfold bind.
  destruct (nextFails_cases w) as [(msg & fs & Hfault)|Hpass].
  { by rewrite (ExecContext_fault _ _ _ _ Hfault). }
  rewrite ExecContext_pass by done.
  simpl. destruct (_ && _); [discriminate|].
  intros _.
  destruct (renderDashboard_db s
    (setDb (popFault w) (setLinks (db w) (updateRow name url c id <$> links (db w))
                           (seq_links (db w))))) as [-> _].
  done.
Qed.

End LinkWrites.

(** C8, as the code has it. When a link is created or updated with
    status 200, the url in the stored row is the submitted [url] field
    with the surrounding white space trimmed off, and nothing else is
    done to it.  The create adds one row with that url at the end of
    the links.  The update leaves the number and the ids of the rows
    as they were; every row with the id has the trimmed url (and the
    name and category of the form) afterwards, every other row is the
    row it was. *)
Theorem C8_url_stored_trimmed `{GoEnv} (s : server) (r : Request) (w : world)
    (form : list (string * string)) (name url : string) (c : Z) :
  Form r = Some form ->
  linkFields form = inl (name, url, c) ->
  url = TrimSpace (FormValue form "url") /\
  (Method r = MethodPost ->
   Status (handleCreateLink s r w).1 = StatusOK ->
   exists id, links (db (handleCreateLink s r w).2)
              = links (db w) ++ [{| lr_id := id; lr_name := name; lr_url := url;
                                    lr_category_id := c |}]) /\
  (forall id,
   Status (handleUpdateLink s r id w).1 = StatusOK ->
   length (links (db (handleUpdateLink s r id w).2)) = length (links (db w)) /\
   forall i row, links (db w) !! i = Some row ->
     exists row', links (db (handleUpdateLink s r id w).2) !! i = Some row' /\
       lr_id row' = lr_id row /\
       (lr_id row = id ->
        lr_url row' = TrimSpace (FormValue form "url") /\
        lr_name row' = name /\ lr_category_id row' = c) /\
       (lr_id row <> id -> row' = row)).
Proof.
  intros Hf Hflds.
  assert (url = TrimSpace (FormValue form "url")) as Hurl
    by (by apply linkFields_inl in Hflds as (_ & -> & _)).
  split_and!.
  - exact Hurl.
  - intros Hm. by apply handleCreateLink_stored with (form := form).
  - intros id Hok.
    rewrite (handleUpdateLink_stored s r id w form name url c Hf Hflds Hok).
    split; [apply length_fmap|].
    intros i row Hrow. rewrite list_lookup_fmap, Hrow. simpl.
    eexists. split; [reflexivity|]. unfold updateRow.
    destruct (lr_id row =? id) eqn:Hid; simpl.
    + apply Z.eqb_eq in Hid. split_and!; [done|by rewrite <- Hurl|done].
    + apply Z.eqb_neq in Hid. split_and!; done.
Qed.

Lemma C8_url_stored_trimmed_witness :
  let form := [("name", "Repo2"); ("url", " https://y "); ("category_id", "1")] in
  let r := post "/actions/links/1/update" form in
  "https://y" = TrimSpace (GoEnv := goASCII) (FormValue form "url") /\
  (Method r = MethodPost ->
   Status (handleCreateLink (H := goASCII) plainServer r repoWorld).1 = StatusOK ->
   exists id, links (db (handleCreateLink (H := goASCII) plainServer r repoWorld).2)
              = links (db repoWorld) ++ [{| lr_id := id; lr_name := "Repo2";
                                            lr_url := "https://y"; lr_category_id := 1 |}]) /\
  (forall id,
   Status (handleUpdateLink (H := goASCII) plainServer r id repoWorld).1 = StatusOK ->
   length (links (db (handleUpdateLink (H := goASCII) plainServer r id repoWorld).2))
   = length (links (db repoWorld)) /\
   forall i row, links (db repoWorld) !! i = Some row ->
     exists row',
       links (db (handleUpdateLink (H := goASCII) plainServer r id repoWorld).2) !! i
       = Some row' /\
       lr_id row' = lr_id row /\
       (lr_id row = id ->
        lr_url row' = TrimSpace (GoEnv := goASCII) (FormValue form "url") /\
        lr_name row' = "Repo2" /\ lr_category_id row' = 1) /\
       (lr_id row <> id -> row' = row)).
Proof.
  intros form r.
  apply (C8_url_stored_trimmed (H := goASCII) plainServer r repoWorld form
           "Repo2" "https://y" 1); reflexivity.
Defined.

(** The update of link 1 on the tables with that link: the row has the
    url without the blanks. *)
Example update_link_url_trimmed :
  let out := handleUpdateLink (H := goASCII) plainServer
               (post "/actions/links/1/update"
                  [("name", "Repo2"); ("url", " https://y "); ("category_id", "1")])
               1 repoWorld in
  Status out.1 = StatusOK /\
  links (db out.2) = [{| lr_id := 1; lr_name := "Repo2"; lr_url := "https://y";
                         lr_category_id := 1 |}].
Proof. vm_compute. split; reflexivity. Qed.

(** C8, as the claim has it, fails: a url submitted with blanks around
    it is stored without them. *)
Lemma C8_url_not_verbatim :
  let form := [("name", "Repo"); ("url", " https://x "); ("category_id", "1")] in
  let out := handleCreateLink (H := goASCII) plainServer
               (post "/actions/links/create" form) devWorld in
  Status out.1 = StatusOK /\
  lr_url <$> links (db out.2) = ["https://x"] /\
  "https://x" <> FormValue form "url".
Proof. vm_compute. split_and!; [reflexivity|reflexivity|discriminate]. Qed.

(** ** Deleting a category *)

Lemma filter_twice {A} (P : A -> Prop) `{forall x, Decision (P x)} (l : list A) :
  filter P (filter P l) = filter P l.
Proof.
  induction l as [|x l IH]; [done|].
  rewrite (filter_cons P x l). destruct (decide (P x)) as [Hx|Hx]; [|done].
  rewrite (filter_cons P x (filter P l)). destruct (decide (P x)); [|done].
  by rewrite IH.
Qed.

(** The two deletes of the transaction, run on a copy of the tables. *)
Lemma exec_delete_both c st :
  exists t1, exec (DeleteLinksOfCategory c) st = inl t1 /\
             exec (DeleteCategory c) t1 = inl (deleteCascade c st).
Proof.
  eexists. split; [reflexivity|]. simpl. unfold deleteCascade, setCategories, setLinks.
  simpl. destruct (foreign_keys st); simpl; [|done]. by rewrite filter_twice.
Qed.

(** C3. A POST that reaches [handleCategoryActions] for
    /actions/categories/{c}/delete, with no transaction open, ends with
    none open.  When
    none of begin, the two deletes and commit fails, the tables lose
    the category row [c] and the link rows under [c] and nothing else;
    when one of them fails, the tables are what they were and the
    answer is 500.  So a 200 means both deletions happened. *)
Theorem C3_delete_category_atomic `{GoEnv} (s : server) (r : Request) (w : world)
    (p0 : string) (c : Z) :
  Method r = MethodPost ->
  pathParts "/actions/categories/" (Path r) = [p0; "delete"] ->
  strconv.ParseInt p0 = inl c ->
  txn w = None ->
  txn (handleCategoryActions s r w).2 = None /\
  (failsWithin 4 w = false ->
   db (handleCategoryActions s r w).2 = deleteCascade c (db w)) /\
  (failsWithin 4 w = true ->
   db (handleCategoryActions s r w).2 = db w /\
   Status (handleCategoryActions s r w).1 = StatusInternalServerError) /\
  (Status (handleCategoryActions s r w).1 = StatusOK ->
   db (handleCategoryActions s r w).2 = deleteCascade c (db w)).
Proof.
  intros Hm Hparts Hid Htxn.
  assert (txn (handleCategoryActions s r w).2 = None /\
    (failsWithin 4 w = false ->
     db (handleCategoryActions s r w).2 = deleteCascade c (db w)) /\
    (failsWithin 4 w = true ->
     db (handleCategoryActions s r w).2 = db w /\
     Status (handleCategoryActions s r w).1 = StatusInternalServerError)) as Hmain.
  { unfold handleCategoryActions. rewrite Hm. simpl negb. cbv iota.
    unfold pathParts in Hparts. rewrite Hparts, Hid. simpl negb. cbv iota.
    destruct w as [st t fs]. cbn [db]. simpl in Htxn. subst t.
    destruct (exec_delete_both c st) as (t1 & Ht1 & Ht2).
    remember (renderDashboard s) as render eqn:Hrender.
    assert (forall w0, db (render w0).2 = db w0) as Hrdb
      by (intros; subst render; apply renderDashboard_db).
    unfold failsWithin, defer, BeginTx, TxExecContext, Commit, Rollback, bind, fault, ret.
    remember (exec (DeleteLinksOfCategory c)) as e1 eqn:He1.
    remember (exec (DeleteCategory c)) as e2 eqn:He2.
    assert (forall fs', let W := {| db := deleteCascade c st; txn := None; faults := fs' |} in
              txn (let '(a, w') := render W in (a, setTxn w' None)).2 = None /\
              db (let '(a, w') := render W in (a, setTxn w' None)).2 = deleteCascade c st)
      as Hcommit.
    { intros fs' W. pose proof (Hrdb W) as Hd.
      destruct (render W) as [resp w1]. simpl in *. done. }
    destruct fs as [|[m1|] fs]; simpl.
    - rewrite Ht1. simpl. rewrite Ht2. simpl.
      destruct (Hcommit []) as [Hc1 Hc2]. split_and!; [exact Hc1|intros _; exact Hc2|discriminate].
    - split_and!; [done|discriminate|done].
    - destruct fs as [|[m2|] fs]; simpl; rewrite ?Ht1; simpl.
      + rewrite Ht2. simpl.
        destruct (Hcommit []) as [Hc1 Hc2]. split_and!; [exact Hc1|intros _; exact Hc2|discriminate].
      + split_and!; [done|discriminate|done].
      + destruct fs as [|[m3|] fs]; simpl; rewrite ?Ht2; simpl.
        * destruct (Hcommit []) as [Hc1 Hc2]. split_and!; [exact Hc1|intros _; exact Hc2|discriminate].
        * split_and!; [done|discriminate|done].
        * destruct fs as [|[m4|] fs]; simpl.
          -- destruct (Hcommit []) as [Hc1 Hc2]. split_and!; [exact Hc1|intros _; exact Hc2|discriminate].
          -- split_and!; [done|discriminate|done].
          -- destruct (Hcommit fs) as [Hc1 Hc2]. split_and!; [exact Hc1|intros _; exact Hc2|discriminate]. }
  destruct Hmain as (Htx & Hgood & Hbad). split_and!; try done.
  intros Hok. destruct (failsWithin 4 w) eqn:Hf; [|by apply Hgood].
  destruct (Hbad eq_refl) as [_ H500]. rewrite H500 in Hok. discriminate.
Qed.

Lemma C3_delete_category_atomic_witness :
  let r := post "/actions/categories/1/delete" [] in
  txn (handleCategoryActions (H := goASCII) plainServer r repoWorld).2 = None /\
  (failsWithin 4 repoWorld = false ->
   db (handleCategoryActions (H := goASCII) plainServer r repoWorld).2
   = deleteCascade 1 (db repoWorld)) /\
  (failsWithin 4 repoWorld = true ->
   db (handleCategoryActions (H := goASCII) plainServer r repoWorld).2 = db repoWorld /\
   Status (handleCategoryActions (H := goASCII) plainServer r repoWorld).1
   = StatusInternalServerError) /\
  (Status (handleCategoryActions (H := goASCII) plainServer r repoWorld).1 = StatusOK ->
   db (handleCategoryActions (H := goASCII) plainServer r repoWorld).2
   = deleteCascade 1 (db repoWorld)).
Proof.
  intros r.
  apply (C3_delete_category_atomic (H := goASCII) plainServer r repoWorld "1" 1);
    reflexivity.
Defined.

(** The second delete of the transaction times out: the link rows that
    the first delete removed from the copy are still in the tables. *)
Example delete_category_rolled_back :
  let w := {| db := db repoWorld; txn := None;
              faults := [None; None; Some "context deadline exceeded"] |} in
  let out := handleCategoryActions (H := goASCII) plainServer
               (post "/actions/categories/1/delete" []) w in
  out.1 = httpError "failed to delete category" StatusInternalServerError /\
  db out.2 = db repoWorld /\ txn out.2 = None.
Proof. vm_compute. split_and!; reflexivity. Qed.

(** ** Deleting and updating a link that is not there *)

Section MissingLink.

Context `{GoEnv}.
Variable s : server.

Lemma setLinks_same st : setLinks st (links st) (seq_links st) = st.
Proof. by destruct st. Qed.

Lemma hasLink_false st id :
  hasLink st id = false -> Forall (fun r => lr_id r <> id) (links st).
Proof.
  unfold hasLink. intros Hno. apply Forall_forall. intros r Hr Heq.
  apply not_true_iff_false in Hno. apply Hno.
  apply existsb_exists. exists r. split; [by apply list_elem_of_In|]. by apply Z.eqb_eq.
Qed.

Lemma filter_all {A} (P : A -> Prop) `{forall x, Decision (P x)} (l : list A) :
  Forall P l -> filter P l = l.
Proof.
  induction 1 as [|x l Hx _ IH]; [done|].
  rewrite filter_cons. destruct (decide (P x)); [|done]. by rewrite IH.
Qed.

Lemma fmap_fixed {A} (f : A -> A) (l : list A) :
  Forall (fun x => f x = x) l -> f <$> l = l.
Proof. induction 1 as [|x l Hx _ IH]; [done|]. by rewrite fmap_cons, Hx, IH. Qed.

Lemma exec_DeleteLink_missing st id :
  hasLink st id = false -> exec (DeleteLink id) st = inl st.
Proof.
  intros Hno%hasLink_false. simpl. rewrite filter_all by done.
  by rewrite setLinks_same.
Qed.

Lemma exec_UpdateLink_missing st name url c id :
  hasLink st id = false -> exec (UpdateLink name url c id) st = inl st.
Proof.
  intros Hno. simpl. rewrite Hno, andb_false_r. simpl.
  apply hasLink_false in Hno.
  rewrite fmap_fixed; [by rewrite setLinks_same|].
  eapply Forall_impl; [exact Hno|]. intros r Hr. unfold updateRow.
  apply Z.eqb_neq in Hr. by rewrite Hr.
Qed.

Lemma setDb_popFault w : setDb (popFault w) (db w) = popFault w.
Proof. by destruct w. Qed.

(** A statement on a link id that no row has: the tables stay, and the
    answer is the dashboard or a 500. *)
Lemma missing_link_response q w fail_msg :
  exec q (db w) = inl (db w) ->
  let out := (err <- ExecContext q ;;
              match err with
              | Some _ => ret (httpError fail_msg StatusInternalServerError)
              | None => renderDashboard s
              end) w in
  db out.2 = db w /\
  Status out.1 <> StatusNotFound /\
  (faults w = [] -> out = renderDashboard s w).
Proof.
  intros Hexec. unfold bind.
  destruct (nextFails_cases w) as [(msg & fs & Hfault)|Hpass].
  - rewrite (ExecContext_fault _ _ _ _ Hfault). simpl. split_and!; [done|done|].
    intros Hnil. rewrite Hnil in Hfault. discriminate.
  - rewrite ExecContext_pass, Hexec by done. rewrite setDb_popFault.
    destruct (renderDashboard_db s (popFault w)) as [Hdb _].
    destruct (renderDashboard_status s (popFault w)) as [Hst|Hst].
    + split_and!; [done|by rewrite Hst|].
      intros Hnil. f_equal. unfold popFault. destruct w. simpl in *. by subst.
    + split_and!; [done|by rewrite Hst|].
      intros Hnil. f_equal. unfold popFault. destruct w. simpl in *. by subst.
Qed.

End MissingLink.

(** C10. A POST that reaches [handleLinkActions] for
    /actions/links/{id}/delete, or for /actions/links/{id}/update with
    valid fields, where no stored link has that id: the tables are what
    they were and the answer is never 404.  With no failing call the
    answer is that of the dashboard read, which is 200 with the
    fragment when the template renders. *)
Theorem C10_missing_link_no_error `{GoEnv} (s : server) (r : Request) (w : world)
    (p0 action : string) (id : Z) :
  Method r = MethodPost ->
  pathParts "/actions/links/" (Path r) = [p0; action] ->
  strconv.ParseInt p0 = inl id ->
  hasLink (db w) id = false ->
  action = "delete" \/
  (action = "update" /\ exists form flds, Form r = Some form /\ linkFields form = inl flds) ->
  db (handleLinkActions s r w).2 = db w /\
  Status (handleLinkActions s r w).1 <> StatusNotFound /\
  (faults w = [] ->
   handleLinkActions s r w = renderDashboard s w /\
   let out := templates s (aggregate (categories (db w)) (links (db w))) in
   (out.2 = true ->
    handleLinkActions s r w =
      ({| Status := StatusOK; ContentType := "text/html; charset=utf-8"; Body := out.1 |}, w))).
Proof.
  intros Hm Hparts Hid Hno Haction.
  assert (db (handleLinkActions s r w).2 = db w /\
          Status (handleLinkActions s r w).1 <> StatusNotFound /\
          (faults w = [] -> handleLinkActions s r w = renderDashboard s w)) as Hmain.
  { unfold handleLinkActions. rewrite Hm. simpl negb. cbv iota.
    unfold pathParts in Hparts. rewrite Hparts, Hid.
    destruct Haction as [->|(-> & form & [[name url] c] & Hf & Hflds)].
    - simpl String.eqb. cbv iota. unfold handleDeleteLink.
      apply missing_link_response. by apply exec_DeleteLink_missing.
    - simpl String.eqb. cbv iota. unfold handleUpdateLink. rewrite Hf, Hflds.
      apply missing_link_response. by apply exec_UpdateLink_missing. }
  destruct Hmain as (Hdb & Hst & Hrender). split_and!; [done|done|].
  intros Hnil. split; [by apply Hrender|].
  intros out Hout. rewrite (Hrender Hnil).
  destruct (renderDashboard_ok s w Hnil) as [Hw Hresp].
  specialize (Hresp Hout).
  destruct (renderDashboard s w) as [resp w1]. simpl in *. by subst.
Qed.

Lemma C10_missing_link_no_error_witness :
  let r := post "/actions/links/99/delete" [] in
  db (handleLinkActions (H := goASCII) plainServer r repoWorld).2 = db repoWorld /\
  Status (handleLinkActions (H := goASCII) plainServer r repoWorld).1 <> StatusNotFound /\
  (faults repoWorld = [] ->
   handleLinkActions (H := goASCII) plainServer r repoWorld
   = renderDashboard (H := goASCII) plainServer repoWorld /\
   let out := templates plainServer
                (aggregate (H := goASCII) (categories (db repoWorld)) (links (db repoWorld))) in
   (out.2 = true ->
    handleLinkActions (H := goASCII) plainServer r repoWorld =
      ({| Status := StatusOK; ContentType := "text/html; charset=utf-8"; Body := out.1 |},
       repoWorld))).
Proof.
  intros r.
  apply (C10_missing_link_no_error (H := goASCII) plainServer r repoWorld "99" "delete" 99);
    try reflexivity.
  by left.
Defined.

(** The same on the update of a link that is not there. *)
Example update_missing_link :
  handleLinkActions (H := goASCII) plainServer
    (post "/actions/links/99/update"
       [("name", "n"); ("url", "u"); ("category_id", "1")]) repoWorld
  = ({| Status := StatusOK; ContentType := "text/html; charset=utf-8";
        Body := "1:Dev[Repo=https://x]" |}, repoWorld).
Proof. vm_compute. reflexivity. Qed.

(** ** What the schema's foreign key would keep, and what is lost without it *)

Section References.

Lemma hasCategory_true st id :
  hasCategory st id = true <-> exists k, k ∈ categories st /\ cr_id k = id.
Proof.
  unfold hasCategory. rewrite existsb_exists. split.
  - intros (k & Hk & Heq). exists k. split; [by apply list_elem_of_In|by apply Z.eqb_eq].
  - intros (k & Hk & Heq). exists k. split; [by apply list_elem_of_In|by apply Z.eqb_eq].
Qed.

Lemma hasLink_true st id :
  hasLink st id = true <-> exists r, r ∈ links st /\ lr_id r = id.
Proof.
  unfold hasLink. rewrite existsb_exists. split.
  - intros (k & Hk & Heq). exists k. split; [by apply list_elem_of_In|by apply Z.eqb_eq].
  - intros (k & Hk & Heq). exists k. split; [by apply list_elem_of_In|by apply Z.eqb_eq].
Qed.

(** On a connection with foreign keys on, no statement of the handlers
    can leave a link row without its category row. *)
Lemma exec_keeps_references q st st' :
  foreign_keys st = true -> refs_ok st -> exec q st = inl st' ->
  refs_ok st' /\ foreign_keys st' = true.
Proof.
  unfold refs_ok. intros Hfk Hrefs.
  destruct q as [name|name url c|name url c id|id|c|id]; simpl; rewrite ?Hfk; simpl.
  - destruct (newRowid _ _) as [id|]; [|discriminate].
    destruct (nameTaken st name); [discriminate|]. intros [= <-]. simpl. split; [|done].
    eapply Forall_impl; [exact Hrefs|]. intros r.
    rewrite !hasCategory_true. simpl. intros (k & Hk & Heq). exists k.
    split; [|done]. apply elem_of_app. by left.
  - destruct (newRowid _ _) as [id|]; [|discriminate].
    destruct (hasCategory st c) eqn:Hc; simpl; [|discriminate].
    intros [= <-]. simpl. split; [|done].
    apply Forall_app. split; [exact Hrefs|]. constructor; [|constructor]. exact Hc.
  - destruct (hasLink st id && negb (hasCategory st c)) eqn:Hcheck; [discriminate|].
    intros [= <-]. simpl. split; [|done].
    apply Forall_fmap, Forall_forall. intros r Hr. simpl.
    eapply Forall_forall in Hrefs; [|exact Hr].
    unfold updateRow. destruct (lr_id r =? id) eqn:Hid; [|exact Hrefs]. simpl.
    apply andb_false_iff in Hcheck as [Hno|Hcat].
    + apply not_true_iff_false in Hno. exfalso. apply Hno.
      apply hasLink_true. exists r. split; [done|by apply Z.eqb_eq].
    + by apply negb_false_iff in Hcat.
  - intros [= <-]. simpl. split; [|done].
    apply Forall_forall. intros r Hr.
    apply list_elem_of_filter in Hr as [_ Hr]. by eapply Forall_forall in Hrefs.
  - intros [= <-]. simpl. split; [|done].
    apply Forall_forall. intros r Hr.
    apply list_elem_of_filter in Hr as [_ Hr]. by eapply Forall_forall in Hrefs.
  - intros [= <-]. simpl. split; [|done].
    apply Forall_forall. intros r Hr.
    apply list_elem_of_filter in Hr as [Hne Hr].
    eapply Forall_forall in Hrefs; [|exact Hr].
    apply hasCategory_true in Hrefs as (k & Hk & Heq).
    apply hasCategory_true. simpl. exists k. split; [|done].
    apply list_elem_of_filter. split; [congruence|done].
Qed.

(** Without them the rows of C2 break it: the store after the create
    has a link row under category id 7 and no category row. *)
Example references_lost :
  refs_ok sqlOpen /\
  ~ refs_ok (db (handleCreateLink (H := goASCII) plainServer
                   (post "/actions/links/create"
                      [("name", "Repo"); ("url", "https://x"); ("category_id", "7")])
                   startWorld).2).
Proof.
  split; [constructor|].
  intros Hrefs. vm_compute in Hrefs. apply Forall_cons in Hrefs as [Hr _]. discriminate.
Qed.

End References.

(** ** Links that the view loses

    With two categories the second [append] moves the slice to a new
    array, and the address kept for the first category still points
    into the old one: its link is appended there and the view shows the
    category with an empty list. *)
Example first_category_loses_links :
  aggregate (H := goASCII) (categories twoStore) (links twoStore)
  = {| Categories := [{| dc_ID := "1"; dc_Name := "Dev"; dc_Links := Some [] |};
                      {| dc_ID := "2"; dc_Name := "Ops"; dc_Links := Some [] |}] |}.
Proof. vm_compute. reflexivity. Qed.

(** With one category the address is that of the only array. *)
Example single_category_keeps_links :
  aggregate (H := goASCII) (categories (db repoWorld)) (links (db repoWorld))
  = {| Categories :=
         [{| dc_ID := "1"; dc_Name := "Dev";
             dc_Links := Some [{| dl_ID := "1"; dl_CategoryID := "1"; dl_Name := "Repo";
                                  dl_URL := "https://x" |}] |}] |}.
Proof. vm_compute. reflexivity. Qed.

(** ** The path of an action parses back to its id *)

Section ActionPaths.

Lemma digits_acc (d : Decimal.uint) : forall acc : positive,
  strconv.digits (NilEmpty.string_of_uint d) (Z.pos acc)
  = Some (Z.pos (Pos.of_uint_acc d acc)).
Proof.
  induction d as [|d IH|d IH|d IH|d IH|d IH|d IH|d IH|d IH|d IH|d IH];
    intros acc; simpl; [done|..];
    unfold strconv.digit; simpl;
    match goal with
    | |- strconv.digits _ ?z = Some (Z.pos (Pos.of_uint_acc _ ?q)) =>
        replace z with (Z.pos q) by lia; apply IH
    end.
Qed.

Lemma digits_zero (d : Decimal.uint) :
  strconv.digits (NilEmpty.string_of_uint d) 0 = Some (Z.of_N (Pos.of_uint d)).
Proof.
  induction d as [|d IH|d IH|d IH|d IH|d IH|d IH|d IH|d IH|d IH|d IH];
    simpl; [done|exact IH|..];
    unfold strconv.digit; simpl; apply (digits_acc d).
Qed.

Lemma string_of_uint_head (d : Decimal.uint) :
  d <> Decimal.Nil ->
  exists a rest, NilEmpty.string_of_uint d = String a rest /\
                 a <> "-"%char /\ a <> "+"%char /\ a <> "/"%char.
Proof.
  destruct d; [done|..]; intros _; simpl; eexists _, _; (split; [reflexivity|]);
    split_and!; discriminate.
Qed.

Lemma string_of_uint_no_slash (d : Decimal.uint) :
  Forall (fun a => a <> "/"%char) (list_ascii_of_string (NilEmpty.string_of_uint d)).
Proof. induction d; simpl; constructor; (discriminate || done). Qed.

Lemma ParseInt_FormatInt (c : Z) :
  - 2 ^ 63 <= c <= maxInt64 -> strconv.ParseInt (strconv.FormatInt c) = inl c.
Proof.
  unfold maxInt64. intros Hc. destruct c as [|p|p]; [reflexivity|..].
  - unfold strconv.FormatInt. simpl.
    pose proof (DecimalPos.Unsigned.to_uint_nonnil p) as Hnil.
    destruct (string_of_uint_head _ Hnil) as (a & rest & Hs & Hm & Hp & _).
    unfold NilZero.string_of_uint.
    destruct (Pos.to_uint p) eqn:Hd; [done|..]; rewrite <- Hd in *;
      unfold strconv.ParseInt; rewrite Hs;
      apply Ascii.eqb_neq in Hm, Hp; rewrite Hm, Hp; simpl negb; simpl orb; cbv iota;
      rewrite <- Hs; unfold strconv.ParseUint; rewrite Hs at 1; rewrite digits_zero;
      rewrite DecimalPos.Unsigned.of_to; simpl Z.of_N;
      destruct (Z.pos p <? 2 ^ 64) eqn:E1; try lia;
      destruct (2 ^ 63 <=? Z.pos p) eqn:E2; try lia; reflexivity.
  - unfold strconv.FormatInt. simpl.
    pose proof (DecimalPos.Unsigned.to_uint_nonnil p) as Hnil.
    destruct (string_of_uint_head _ Hnil) as (a & rest & Hs & _).
    unfold NilZero.string_of_uint.
    destruct (Pos.to_uint p) eqn:Hd; [done|..]; rewrite <- Hd in *;
      unfold strconv.ParseInt; simpl Ascii.eqb; simpl orb; simpl negb; cbv iota;
      unfold strconv.ParseUint; rewrite Hs at 1; rewrite digits_zero;
      rewrite DecimalPos.Unsigned.of_to; simpl Z.of_N;
      destruct (Z.pos p <? 2 ^ 64) eqn:E1; try lia;
      destruct (2 ^ 63 <? Z.pos p) eqn:E2; try lia; reflexivity.
Qed.

Implicit Types s t : string.

Lemma append_snoc s c t : ((s ++ String c "") ++ t)%string = (s ++ String c t)%string.
Proof.
  induction s as [|a s IH]; [reflexivity|].
  change (String a ((s ++ String c "") ++ t) = String a (s ++ String c t))%string.
  by rewrite IH.
Qed.

Lemma TrimPrefix_app p s : strings.TrimPrefix (p ++ s)%string p = s.
Proof.
  unfold strings.TrimPrefix.
  assert (strings.HasPrefix (p ++ s)%string p = true) as ->.
  { induction p as [|a p IH]; simpl; [by destruct s|]. by rewrite Ascii.eqb_refl, IH. }
  induction p as [|a p IH]; simpl; [by destruct s|done].
Qed.

Lemma trimRightByte_keep c t :
  t <> "" -> Forall (fun a => a <> c) (list_ascii_of_string t) ->
  strings.trimRightByte t c = t.
Proof.
  induction t as [|a t IH]; [done|]. intros _ Hall. simpl in *.
  apply Forall_cons in Hall as [Ha Hall].
  destruct t as [|b t].
  - simpl. apply Ascii.eqb_neq in Ha. by rewrite Ha.
  - rewrite IH by done. done.
Qed.

Lemma trimRightByte_app c s t :
  t <> "" -> Forall (fun a => a <> c) (list_ascii_of_string t) ->
  strings.trimRightByte (s ++ t)%string c = (s ++ t)%string.
Proof.
  intros Ht Hall. induction s as [|a s IH]; simpl.
  - by apply trimRightByte_keep.
  - rewrite IH. change (String a s ++ t)%string with (String a (s ++ t)).
    destruct (s ++ t)%string eqn:E; [|done].
    destruct s; simpl in E; [done|discriminate].
Qed.

Lemma Split_none c t :
  Forall (fun a => a <> c) (list_ascii_of_string t) -> strings.Split t c = [t].
Proof.
  induction t as [|a t IH]; [done|]. simpl. intros [Ha Hall]%Forall_cons.
  apply Ascii.eqb_neq in Ha. rewrite Ha, IH by done. done.
Qed.

Lemma Split_app c s t :
  Forall (fun a => a <> c) (list_ascii_of_string s) ->
  strings.Split (s ++ String c t)%string c = s :: strings.Split t c.
Proof.
  induction s as [|a s IH]; simpl.
  - intros _. by rewrite Ascii.eqb_refl.
  - intros [Ha Hall]%Forall_cons. apply Ascii.eqb_neq in Ha. rewrite Ha, IH by done. done.
Qed.

Lemma FormatInt_chars (c : Z) :
  (exists a rest, strconv.FormatInt c = String a rest /\ a <> "/"%char) /\
  Forall (fun a => a <> "/"%char) (list_ascii_of_string (strconv.FormatInt c)).
Proof.
  unfold strconv.FormatInt. destruct c as [|p|p]; simpl.
  - split; [eexists _, _; split; [reflexivity|discriminate]|].
    repeat constructor. discriminate.
  - pose proof (DecimalPos.Unsigned.to_uint_nonnil p) as Hnil.
    destruct (string_of_uint_head _ Hnil) as (a & rest & Hs & _ & _ & Ha).
    unfold NilZero.string_of_uint.
    destruct (Pos.to_uint p) eqn:Hd; [done|..]; rewrite <- Hd in *;
      (split; [by exists a, rest|apply string_of_uint_no_slash]).
  - split; [eexists _, _; split; [reflexivity|discriminate]|].
    constructor; [discriminate|].
    pose proof (DecimalPos.Unsigned.to_uint_nonnil p) as Hnil.
    unfold NilZero.string_of_uint.
    destruct (Pos.to_uint p) eqn:Hd; [done|..]; rewrite <- Hd;
      apply string_of_uint_no_slash.
Qed.

(** The path [prefix{id}/{action}] is cut into the id, as [FormatInt]
    writes it, and the action; the id parses back. *)
Lemma action_path_parts (prefix action : string) (id : Z) :
  action <> "" ->
  Forall (fun a => a <> "/"%char) (list_ascii_of_string action) ->
  pathParts prefix (prefix ++ strconv.FormatInt id ++ String "/" action)%string
  = [strconv.FormatInt id; action].
Proof.
  intros Hne Hall. unfold pathParts. rewrite TrimPrefix_app.
  destruct (FormatInt_chars id) as [(a & rest & Hs & Ha) Hchars].
  unfold strings.Trim.
  assert (strings.trimLeftByte (strconv.FormatInt id ++ String "/" action)%string "/"
          = (strconv.FormatInt id ++ String "/" action)%string) as ->.
  { rewrite Hs. simpl. apply Ascii.eqb_neq in Ha. by rewrite Ha. }
  rewrite <- append_snoc, trimRightByte_app, append_snoc by done.
  rewrite Split_app by done. by rewrite Split_none.
Qed.

Example delete_category_path (c : Z) :
  pathParts "/actions/categories/"
    ("/actions/categories/" ++ strconv.FormatInt c ++ "/delete")%string
  = [strconv.FormatInt c; "delete"].
Proof. apply action_path_parts; [discriminate|]. repeat constructor; discriminate. Qed.

End ActionPaths.

(** * More properties of the handlers *)

(** ** How a handler can end *)

Section Outcomes.

Context `{GoEnv}.
Variable s : server.

Lemma tablesKept_refl w : tablesKept w w.
Proof. split; [done|by left]. Qed.

Lemma tablesKept_popFault w : tablesKept w (popFault w).
Proof. split; [done|by left]. Qed.

Lemma outcome_client rt w msg code w' :
  code ∈ clientCodes -> tablesKept w w' -> outcome s rt w (httpError msg code, w').
Proof. intros Hc Hk. left. by exists msg, code. Qed.

Lemma outcome_failed rt w msg w' :
  tablesKept w w' -> outcome s rt w (httpError msg StatusInternalServerError, w').
Proof. intros Hk. right. left. by exists msg. Qed.

Lemma outcome_rendered rt w w1 qs :
  txn w1 = txn w -> runAll qs (db w) = Some (db w1) -> Forall checked qs ->
  outcome s rt w (renderDashboard s w1).
Proof.
  intros Htx Hrun Hch. right. right. right. exists w1, qs.
  destruct (renderDashboard_db s w1) as [Hdb Ht]. split_and!; [done|done| |done|done].
  left. by rewrite Ht.
Qed.

(** A handler's one statement: it fails and the answer is made from the
    error, or it goes through and the dashboard is rendered on its
    result. *)
Lemma stmt_then_render q w (k : dberror -> Response) :
  let out := (err <- ExecContext q ;;
              match err with
              | Some e => ret (k e)
              | None => renderDashboard s
              end) w in
  (exists e, out = (k e, popFault w)) \/
  (exists st', exec q (db w) = inl st' /\ nextFails w = false /\
               out = renderDashboard s (setDb (popFault w) st')).
Proof.
  unfold bind.
  destruct (nextFails_cases w) as [(msg & fs & Hfault)|Hpass].
  - rewrite (ExecContext_fault _ _ _ _ Hfault). left. by eexists.
  - rewrite ExecContext_pass by done.
    destruct (exec q (db w)) as [st'|e]; [right; by exists st'|left; by exists e].
Qed.

Lemma stmt_outcome rt q w (msg : string) :
  checked q ->
  outcome s rt w
    ((err <- ExecContext q ;;
      match err with
      | Some _ => ret (httpError msg StatusInternalServerError)
      | None => renderDashboard s
      end) w).
Proof.
  intros Hq.
  destruct (stmt_then_render q w (fun _ => httpError msg StatusInternalServerError))
    as [(e & ->)|(st' & Hexec & _ & ->)].
  - apply outcome_failed, tablesKept_popFault.
  - apply outcome_rendered with (qs := [q]); [done| |by constructor].
    simpl. by rewrite Hexec.
Qed.

(** The transaction of [handleCategoryActions] once the id is parsed:
    500 with the tables as they were, or the dashboard on the tables
    without the category and its links. *)
Lemma category_tx_outcome (c : Z) w :
  let out := (err <- BeginTx ;;
     match err with
     | Some _ => ret (httpError "failed to delete category" StatusInternalServerError)
     | None =>
         defer Rollback (
           err <- TxExecContext (DeleteLinksOfCategory c) ;;
           match err with
           | Some _ =>
               ret (httpError "failed to delete category links" StatusInternalServerError)
           | None =>
               err <- TxExecContext (DeleteCategory c) ;;
               match err with
               | Some _ =>
                   ret (httpError "failed to delete category" StatusInternalServerError)
               | None =>
                   err <- Commit ;;
                   match err with
                   | Some _ =>
                       ret (httpError "failed to delete category"
                              StatusInternalServerError)
                   | None => renderDashboard s
                   end
               end
           end)
     end) w in
  (exists msg, out.1 = httpError msg StatusInternalServerError /\ tablesKept w out.2) \/
  (exists w1, out.1 = (renderDashboard s w1).1 /\ db out.2 = db w1 /\ txn out.2 = None /\
              db w1 = deleteCascade c (db w)).
Proof.
  destruct w as [st t fs]. cbn [db].
  destruct (exec_delete_both c st) as (t1 & Ht1 & Ht2).
  remember (renderDashboard s) as render eqn:Hrender.
  assert (forall w0, db (render w0).2 = db w0) as Hrdb
    by (intros; subst render; apply renderDashboard_db).
  unfold defer, BeginTx, TxExecContext, Commit, Rollback, bind, fault, ret, tablesKept.
  remember (exec (DeleteLinksOfCategory c)) as e1 eqn:He1.
  remember (exec (DeleteCategory c)) as e2 eqn:He2.
  assert (forall fs', let W := {| db := deleteCascade c st; txn := None; faults := fs' |} in
     let out := (let '(a, w') := render W in (a, setTxn w' None)) in
     exists w1, out.1 = (render w1).1 /\ db out.2 = db w1 /\ txn out.2 = None /\
                db w1 = deleteCascade c st) as Hcommit.
  { intros fs' W. exists W. pose proof (Hrdb W) as Hd.
    destruct (render W) as [resp w1]. simpl in *. done. }
  destruct fs as [|[m1|] fs]; simpl.
  - rewrite Ht1. simpl. rewrite Ht2. simpl. right. apply (Hcommit []).
  - left. eexists. split; [reflexivity|]. simpl. split; [done|by left].
  - destruct fs as [|[m2|] fs]; simpl; rewrite ?Ht1; simpl.
    + rewrite Ht2. simpl. right. apply (Hcommit []).
    + left. eexists. split; [reflexivity|]. simpl. split; [done|by right].
    + destruct fs as [|[m3|] fs]; simpl; rewrite ?Ht2; simpl.
      * right. apply (Hcommit []).
      * left. eexists. split; [reflexivity|]. simpl. split; [done|by right].
      * destruct fs as [|[m4|] fs]; simpl.
        -- right. apply (Hcommit []).
        -- left. eexists. split; [reflexivity|]. simpl. split; [done|by right].
        -- right. apply (Hcommit fs).
Qed.

Lemma NotFound_outcome rt w : outcome s rt w (NotFound, w).
Proof.
  apply outcome_client; [|apply tablesKept_refl].
  unfold clientCodes. apply list_elem_of_further, list_elem_of_here.
Qed.

Lemma BadRequest_outcome rt w msg : outcome s rt w (httpError msg StatusBadRequest, w).
Proof.
  apply outcome_client; [|apply tablesKept_refl]. apply list_elem_of_here.
Qed.

Lemma MethodNotAllowed_outcome rt w msg :
  outcome s rt w (httpError msg StatusMethodNotAllowed, w).
Proof.
  apply outcome_client; [|apply tablesKept_refl].
  unfold clientCodes. do 2 apply list_elem_of_further. apply list_elem_of_here.
Qed.

Lemma linkFields_refused form resp :
  linkFields form = inr resp -> exists msg, resp = httpError msg StatusBadRequest.
Proof.
  unfold linkFields. destruct (_ || _); [intros [= <-]; by eexists|].
  destruct (strconv.ParseInt _); [discriminate|]. intros [= <-]. by eexists.
Qed.

Lemma linkFields_checked form name url c :
  linkFields form = inl (name, url, c) -> name <> "" /\ url <> "".
Proof.
  unfold linkFields. cbv zeta.
  destruct (String.eqb (TrimSpace (FormValue form "name")) "") eqn:Hn; simpl; [done|].
  destruct (String.eqb (TrimSpace (FormValue form "url")) "") eqn:Hu; simpl; [done|].
  destruct (String.eqb (TrimSpace (FormValue form "category_id")) ""); [done|].
  destruct (strconv.ParseInt _); [|done]. intros [= <- <- _].
  split; by apply String.eqb_neq.
Qed.

Lemma handler_outcome rt r w : outcome s rt w (handler s rt r w).
Proof.
  destruct rt; simpl.
  - right. right. left. done.
  - unfold handleDashboard. destruct (negb _); [apply MethodNotAllowed_outcome|].
    apply outcome_rendered with (qs := []); [done|done|constructor].
  - unfold handleCreateCategory. destruct (negb _); [apply MethodNotAllowed_outcome|].
    destruct (Form r) as [form|]; [|apply BadRequest_outcome].
    destruct (String.eqb _ "") eqn:Hname; [apply BadRequest_outcome|].
    apply String.eqb_neq in Hname.
    match goal with |- outcome _ _ _ (bind _ ?f w) =>
      destruct (stmt_then_render (InsertCategory (TrimSpace (FormValue form "name"))) w
        (fun e => if strings.Contains (ToLower (Error e)) "unique"
                  then httpError "category already exists" StatusConflict
                  else httpError "failed to create category" StatusInternalServerError))
        as [(e & He)|(st' & Hexec & _ & He)]
    end.
    + unfold bind in *.
      destruct (ExecContext _ w) as [[e'|] w']; simpl in *.
      * destruct (strings.Contains (ToLower (Error e')) "unique");
          rewrite He; destruct (strings.Contains (ToLower (Error e)) "unique");
          first [ apply outcome_client;
                  [unfold clientCodes; do 3 apply list_elem_of_further; apply list_elem_of_here
                  |apply tablesKept_popFault]
                | apply outcome_failed, tablesKept_popFault ].
      * rewrite He. destruct (strings.Contains (ToLower (Error e)) "unique");
          first [ apply outcome_client;
                  [unfold clientCodes; do 3 apply list_elem_of_further; apply list_elem_of_here
                  |apply tablesKept_popFault]
                | apply outcome_failed, tablesKept_popFault ].
    + unfold bind in *.
      destruct (ExecContext _ w) as [[e'|] w']; simpl in *;
        try (destruct (strings.Contains (ToLower (Error e')) "unique"));
        rewrite He;
        (apply outcome_rendered
           with (qs := [InsertCategory (TrimSpace (FormValue form "name"))]);
         [done| |by constructor]);
        simpl; by rewrite Hexec.
  - unfold handleCategoryActions. destruct (negb _); [apply MethodNotAllowed_outcome|].
    destruct (strings.Split _ _) as [|p0 [|p1 [|p2 ps]]]; try apply NotFound_outcome.
    destruct (negb _); [apply NotFound_outcome|].
    destruct (strconv.ParseInt p0) as [c|e]; [|apply BadRequest_outcome].
    destruct (category_tx_outcome c w) as [(msg & Hresp & Hk)|(w1 & Hresp & Hdb & Htx & Hw1)].
    + right. left. by exists msg.
    + right. right. right. exists w1, [DeleteLinksOfCategory c; DeleteCategory c].
      split_and!; [done|done|by right| |by repeat constructor].
      destruct (exec_delete_both c (db w)) as (t1 & Ht1 & Ht2).
      cbn [runAll]. by rewrite Ht1, Ht2, Hw1.
  - unfold handleCreateLink. destruct (negb _); [apply MethodNotAllowed_outcome|].
    destruct (Form r) as [form|]; [|apply BadRequest_outcome].
    destruct (linkFields form) as [[[name url] c]|resp] eqn:Hflds.
    + apply stmt_outcome. by apply linkFields_checked in Hflds.
    + apply linkFields_refused in Hflds as [msg ->]. apply BadRequest_outcome.
  - unfold handleLinkActions. destruct (negb _); [apply MethodNotAllowed_outcome|].
    destruct (strings.Split _ _) as [|p0 [|p1 [|p2 ps]]]; try apply NotFound_outcome.
    destruct (strconv.ParseInt p0) as [id|e]; [|apply BadRequest_outcome].
    destruct (String.eqb p1 "delete"); [by apply stmt_outcome|].
    destruct (String.eqb p1 "update"); [|apply NotFound_outcome].
    unfold handleUpdateLink.
    destruct (Form r) as [form|]; [|apply BadRequest_outcome].
    destruct (linkFields form) as [[[name url] c]|resp] eqn:Hflds.
    + apply stmt_outcome. by apply linkFields_checked in Hflds.
    + apply linkFields_refused in Hflds as [msg ->]. apply BadRequest_outcome.
Qed.

End Outcomes.

(** ** What every route has in common *)

Lemma renderDashboard_codes `{GoEnv} (s : server) (w : world) :
  Status (renderDashboard s w).1 ∈
    [StatusOK; StatusBadRequest; StatusNotFound; StatusMethodNotAllowed; StatusConflict;
     StatusInternalServerError].
Proof.
  destruct (renderDashboard_status s w) as [-> | ->].
  - apply list_elem_of_here.
  - do 5 apply list_elem_of_further. apply list_elem_of_here.
Qed.

Lemma clientCodes_not_ok code : code ∈ clientCodes -> code <> StatusOK.
Proof.
  unfold clientCodes. intros Hc ->.
  repeat (apply elem_of_cons in Hc as [Hc|Hc]; [discriminate|]).
  by apply elem_of_nil in Hc.
Qed.

Lemma clientCodes_not_500 code : code ∈ clientCodes -> code <> StatusInternalServerError.
Proof.
  unfold clientCodes. intros Hc ->.
  repeat (apply elem_of_cons in Hc as [Hc|Hc]; [discriminate|]).
  by apply elem_of_nil in Hc.
Qed.

(** X1. Whatever the route, the request and the failures of the store,
    the status of the answer is one of 200, 400, 404, 405, 409, 500. *)
Theorem X1_status_codes `{GoEnv} (s : server) (rt : route) (r : Request) (w : world) :
  Status (handler s rt r w).1 ∈
    [StatusOK; StatusBadRequest; StatusNotFound; StatusMethodNotAllowed; StatusConflict;
     StatusInternalServerError].
Proof.
  destruct (handler_outcome s rt r w)
    as [(msg & code & -> & Hc & _)|[(msg & -> & _)|[[_ ->]|(w1 & qs & -> & _)]]].
  - simpl. apply list_elem_of_further.
    change (code ∈ clientCodes ++ [StatusInternalServerError]).
    apply elem_of_app. by left.
  - simpl. do 5 apply list_elem_of_further. apply list_elem_of_here.
  - apply list_elem_of_here.
  - apply renderDashboard_codes.
Qed.

(** X2. A request that is answered with 400, 404, 405 or 409 has
    written nothing: the tables are what they were. *)
Theorem X2_client_error_writes_nothing `{GoEnv} (s : server) (rt : route) (r : Request)
    (w : world) :
  Status (handler s rt r w).1 ∈ clientCodes ->
  db (handler s rt r w).2 = db w.
Proof.
  intros Hst.
  destruct (handler_outcome s rt r w)
    as [(msg & code & _ & _ & [Hdb _])|[(msg & Hresp & _)|[[_ Hout]|(w1 & qs & Hresp & _)]]].
  - exact Hdb.
  - rewrite Hresp in Hst. simpl in Hst. by apply clientCodes_not_500 in Hst.
  - rewrite Hout in Hst. simpl in Hst. by apply clientCodes_not_ok in Hst.
  - rewrite Hresp in Hst.
    destruct (renderDashboard_status s w1) as [Hs|Hs]; rewrite Hs in Hst.
    + by apply clientCodes_not_ok in Hst.
    + by apply clientCodes_not_500 in Hst.
Qed.

Lemma X2_client_error_writes_nothing_witness :
  db (handler (H := goASCII) plainServer RouteCreateCategory
        (post "/actions/categories/create" [("name", "Dev")]) devWorld).2 = db devWorld.
Proof.
  apply (X2_client_error_writes_nothing (H := goASCII) plainServer RouteCreateCategory
           (post "/actions/categories/create" [("name", "Dev")]) devWorld).
  vm_compute. do 3 apply list_elem_of_further. apply list_elem_of_here.
Defined.

(** X3. No handler leaves a transaction open: entered without one, it
    ends without one, on every path and under every failure. *)
Theorem X3_no_transaction_left_open `{GoEnv} (s : server) (rt : route) (r : Request)
    (w : world) :
  txn w = None -> txn (handler s rt r w).2 = None.
Proof.
  intros Htx.
  destruct (handler_outcome s rt r w)
    as [(msg & code & _ & _ & [_ Ht])|[(msg & _ & [_ Ht])|[[_ ->]|(w1 & qs & _ & _ & Ht & _)]]];
    try done; destruct Ht as [Ht|Ht]; congruence.
Qed.

Lemma X3_no_transaction_left_open_witness :
  txn (handler (H := goASCII) plainServer RouteCategoryActions
         (post "/actions/categories/1/delete" [])
         {| db := db repoWorld; txn := None;
            faults := [None; None; Some "context deadline exceeded"] |}).2 = None.
Proof.
  apply (X3_no_transaction_left_open (H := goASCII) plainServer RouteCategoryActions).
  reflexivity.
Defined.

(** X4. On every route but /health an answer with status 200 is the
    dashboard, rendered on the tables that the request left behind. *)
Theorem X4_ok_is_the_dashboard `{GoEnv} (s : server) (rt : route) (r : Request) (w : world) :
  rt <> RouteHealth ->
  Status (handler s rt r w).1 = StatusOK ->
  exists w1, (handler s rt r w).1 = (renderDashboard s w1).1 /\
             db w1 = db (handler s rt r w).2.
Proof.
  intros Hrt Hok.
  destruct (handler_outcome s rt r w)
    as [(msg & code & Hresp & Hc & _)|[(msg & Hresp & _)|[[Hh _]|(w1 & qs & Hresp & Hdb & _)]]].
  - rewrite Hresp in Hok. simpl in Hok. by apply clientCodes_not_ok in Hc.
  - rewrite Hresp in Hok. discriminate.
  - done.
  - exists w1. by split.
Qed.

Lemma X4_ok_is_the_dashboard_witness :
  exists w1,
    (handler (H := goASCII) plainServer RouteCreateLink
       (post "/actions/links/create"
          [("name", "Repo"); ("url", "https://x"); ("category_id", "1")]) devWorld).1
    = (renderDashboard (H := goASCII) plainServer w1).1 /\
    db w1 = db (handler (H := goASCII) plainServer RouteCreateLink
                  (post "/actions/links/create"
                     [("name", "Repo"); ("url", "https://x"); ("category_id", "1")])
                  devWorld).2.
Proof.
  apply (X4_ok_is_the_dashboard (H := goASCII) plainServer RouteCreateLink);
    [discriminate|reflexivity].
Defined.

(** ** Paths, ids and form fields at the edge *)

(** X5. The ids that [getDashboardData] writes with [FormatInt] come
    back as the same [int64]: a POST for /actions/links/{id}/delete
    runs the delete of exactly [id], one for /actions/links/{id}/update
    the update of exactly [id], and one for
    /actions/categories/{id}/delete is not turned down as a client
    error. *)
Theorem X5_view_ids_reach_their_rows `{GoEnv} (s : server) (r : Request) (w : world) (id : Z) :
  Method r = MethodPost ->
  - 2 ^ 63 <= id <= maxInt64 ->
  (Path r = ("/actions/links/" ++ strconv.FormatInt id ++ "/delete")%string ->
   handleLinkActions s r w = handleDeleteLink s r id w) /\
  (Path r = ("/actions/links/" ++ strconv.FormatInt id ++ "/update")%string ->
   handleLinkActions s r w = handleUpdateLink s r id w) /\
  (Path r = ("/actions/categories/" ++ strconv.FormatInt id ++ "/delete")%string ->
   Status (handleCategoryActions s r w).1 = StatusOK \/
   Status (handleCategoryActions s r w).1 = StatusInternalServerError).
Proof.
  intros Hm Hid. split_and!; intros Hp.
  - unfold handleLinkActions. rewrite Hm, Hp. simpl negb. cbv iota.
    pose proof (action_path_parts "/actions/links/" "delete" id) as Hparts.
    unfold pathParts in Hparts. rewrite Hparts, ParseInt_FormatInt; try done.
    repeat constructor; discriminate.
  - unfold handleLinkActions. rewrite Hm, Hp. simpl negb. cbv iota.
    pose proof (action_path_parts "/actions/links/" "update" id) as Hparts.
    unfold pathParts in Hparts. rewrite Hparts, ParseInt_FormatInt; try done.
    repeat constructor; discriminate.
  - unfold handleCategoryActions. rewrite Hm, Hp. simpl negb. cbv iota.
    pose proof (action_path_parts "/actions/categories/" "delete" id) as Hparts.
    unfold pathParts in Hparts. rewrite Hparts, ParseInt_FormatInt; try done.
    2:{ repeat constructor; discriminate. }
    destruct (category_tx_outcome s id w) as [(msg & Hresp & _)|(w1 & Hresp & _)].
    + right. exact (f_equal Status Hresp).
    + destruct (renderDashboard_status s w1) as [Hs|Hs].
      * left. exact (eq_trans (f_equal Status Hresp) Hs).
      * right. exact (eq_trans (f_equal Status Hresp) Hs).
Qed.

Lemma X5_view_ids_reach_their_rows_witness :
  let r := post "/actions/links/-42/delete" [] in
  (Path r = ("/actions/links/" ++ strconv.FormatInt (-42) ++ "/delete")%string ->
   handleLinkActions (H := goASCII) plainServer r repoWorld
   = handleDeleteLink (H := goASCII) plainServer r (-42) repoWorld) /\
  (Path r = ("/actions/links/" ++ strconv.FormatInt (-42) ++ "/update")%string ->
   handleLinkActions (H := goASCII) plainServer r repoWorld
   = handleUpdateLink (H := goASCII) plainServer r (-42) repoWorld) /\
  (Path r = ("/actions/categories/" ++ strconv.FormatInt (-42) ++ "/delete")%string ->
   Status (handleCategoryActions (H := goASCII) plainServer r repoWorld).1 = StatusOK \/
   Status (handleCategoryActions (H := goASCII) plainServer r repoWorld).1
   = StatusInternalServerError).
Proof.
  intros r.
  apply (X5_view_ids_reach_their_rows (H := goASCII) plainServer r repoWorld (-42)).
  - reflexivity.
  - unfold maxInt64. lia.
Defined.

(** X6. A POST that the mux hands to [handleCategoryActions], so one
    below /actions/categories/ other than /actions/categories/create,
    is answered with 404 when what follows the prefix is not of the
    shape {id}/delete.  A POST that the mux hands to
    [handleLinkActions], so one below /actions/links/ other than
    /actions/links/create, is answered with 404 when what follows the
    prefix has not two pieces, or has a numeric id and another action
    than delete or update.  Nothing is touched. *)
Theorem X6_unmatched_path_not_found `{GoEnv} (s : server) (rc rl : Request) (w : world) :
  Method rc = MethodPost ->
  Method rl = MethodPost ->
  reaches RouteCategoryActions (Path rc) ->
  reaches RouteLinkActions (Path rl) ->
  (forall p0, pathParts "/actions/categories/" (Path rc) <> [p0; "delete"]) ->
  (forall p0 p1, pathParts "/actions/links/" (Path rl) = [p0; p1] ->
     (exists id, strconv.ParseInt p0 = inl id) /\ p1 <> "delete" /\ p1 <> "update") ->
  handler s RouteCategoryActions rc w = (NotFound, w) /\
  handler s RouteLinkActions rl w = (NotFound, w).
Proof.
  intros Hmc Hml _ _ Hshape Hlinks. unfold pathParts in *. simpl. split.
  - clear Hlinks. unfold handleCategoryActions. rewrite Hmc. simpl negb. cbv iota.
    destruct (strings.Split _ _) as [|p0 [|p1 [|p2 ps]]]; try done.
    destruct (String.eqb p1 "delete") eqn:Hp1; [|done].
    apply String.eqb_eq in Hp1 as ->. by destruct (Hshape p0).
  - clear Hshape. unfold handleLinkActions. rewrite Hml. simpl negb. cbv iota.
    destruct (strings.Split _ _) as [|p0 [|p1 [|p2 ps]]]; try done.
    destruct (Hlinks p0 p1 eq_refl) as ((id & ->) & Hd & Hu).
    apply String.eqb_neq in Hd, Hu. by rewrite Hd, Hu.
Qed.

Lemma X6_unmatched_path_not_found_witness :
  let rc := post "/actions/categories/create/" [("name", "Dev")] in
  let rl := post "/actions/links/1/open" [] in
  (reaches RouteCategoryActions (Path rc) /\ reaches RouteLinkActions (Path rl)) /\
  handler (H := goASCII) plainServer RouteCategoryActions rc startWorld
  = (NotFound, startWorld) /\
  handler (H := goASCII) plainServer RouteLinkActions rl startWorld
  = (NotFound, startWorld).
Proof.
  intros rc rl.
  assert (reaches RouteCategoryActions (Path rc)) as Hc
    by (split_and!; [reflexivity|by apply String.eqb_neq..]).
  assert (reaches RouteLinkActions (Path rl)) as Hl
    by (split_and!; [reflexivity|by apply String.eqb_neq..]).
  split; [by split|].
  apply (X6_unmatched_path_not_found (H := goASCII) plainServer rc rl startWorld);
    [reflexivity|reflexivity|exact Hc|exact Hl|..].
  - intros p0.
    assert (pathParts "/actions/categories/" (Path rc) = ["create"]) as -> by reflexivity.
    discriminate.
  - intros p0 p1.
    assert (pathParts "/actions/links/" (Path rl) = ["1"; "open"]) as -> by reflexivity.
    intros [= <- <-]. split_and!; [by exists 1|by apply String.eqb_neq..].
Defined.

(** The paths of the two create routes do not reach the action
    handlers: the mux hands them to the create handlers. *)
Example create_paths_elsewhere :
  ~ reaches RouteCategoryActions "/actions/categories/create" /\
  ~ reaches RouteLinkActions "/actions/links/create" /\
  reaches RouteCreateCategory "/actions/categories/create" /\
  reaches RouteCreateLink "/actions/links/create".
Proof. split_and!; [by intros (_ & ? & _)|by intros (_ & _ & ?)|reflexivity|reflexivity]. Qed.

(** X7. An id that is not an [int64] is a 400.  Below /actions/links/
    the id is read before the action, so the 400 comes even for an
    action that does not exist; below /actions/categories/ the action is
    looked at first.  Nothing is touched. *)
Theorem X7_bad_id_rejected `{GoEnv} (s : server) (r : Request) (w : world)
    (p0 : string) (e : strconv.NumError) :
  Method r = MethodPost ->
  strconv.ParseInt p0 = inr e ->
  (forall p1, pathParts "/actions/links/" (Path r) = [p0; p1] ->
   handleLinkActions s r w = (httpError "invalid link id" StatusBadRequest, w)) /\
  (pathParts "/actions/categories/" (Path r) = [p0; "delete"] ->
   handleCategoryActions s r w = (httpError "invalid category id" StatusBadRequest, w)) /\
  (forall p1, p1 <> "delete" ->
   pathParts "/actions/categories/" (Path r) = [p0; p1] ->
   handleCategoryActions s r w = (NotFound, w)).
Proof.
  intros Hm Hid. unfold pathParts. split_and!.
  - intros p1 Hparts. unfold handleLinkActions. by rewrite Hm, Hparts, Hid.
  - intros Hparts. unfold handleCategoryActions. by rewrite Hm, Hparts, Hid.
  - intros p1 Hp1 Hparts. unfold handleCategoryActions. rewrite Hm, Hparts.
    apply String.eqb_neq in Hp1. by rewrite Hp1.
Qed.

Lemma X7_bad_id_rejected_witness :
  let r := post "/actions/links/12x/frobnicate" [] in
  (forall p1, pathParts "/actions/links/" (Path r) = ["12x"; p1] ->
   handleLinkActions (H := goASCII) plainServer r startWorld
   = (httpError "invalid link id" StatusBadRequest, startWorld)) /\
  (pathParts "/actions/categories/" (Path r) = ["12x"; "delete"] ->
   handleCategoryActions (H := goASCII) plainServer r startWorld
   = (httpError "invalid category id" StatusBadRequest, startWorld)) /\
  (forall p1, p1 <> "delete" ->
   pathParts "/actions/categories/" (Path r) = ["12x"; p1] ->
   handleCategoryActions (H := goASCII) plainServer r startWorld = (NotFound, startWorld)).
Proof.
  intros r.
  apply (X7_bad_id_rejected (H := goASCII) plainServer r startWorld "12x" strconv.ErrSyntax);
    reflexivity.
Defined.

(** X8. A link form in which [name], [url] or [category_id] is empty
    once trimmed is a 400 that names the three fields, for the create
    and for the update; the check comes before the number is read, and
    nothing is written. *)
Theorem X8_link_fields_required `{GoEnv} (s : server) (r : Request) (w : world)
    (form : list (string * string)) :
  Form r = Some form ->
  TrimSpace (FormValue form "name") = "" \/
  TrimSpace (FormValue form "url") = "" \/
  TrimSpace (FormValue form "category_id") = "" ->
  (Method r = MethodPost ->
   handleCreateLink s r w
   = (httpError "name, url, and category are required" StatusBadRequest, w)) /\
  (forall id, handleUpdateLink s r id w
              = (httpError "name, url, and category are required" StatusBadRequest, w)).
Proof.
  intros Hf Hblank.
  assert (linkFields form
          = inr (httpError "name, url, and category are required" StatusBadRequest)) as Hflds.
  { unfold linkFields.
    destruct Hblank as [-> |[-> | ->]]; simpl; rewrite ?orb_true_r; reflexivity. }
  split.
  - intros Hm. unfold handleCreateLink. by rewrite Hm, Hf, Hflds.
  - intros id. unfold handleUpdateLink. by rewrite Hf, Hflds.
Qed.

Lemma X8_link_fields_required_witness :
  let r := post "/actions/links/create" [("name", "Repo"); ("url", "  "); ("category_id", "x")] in
  (Method r = MethodPost ->
   handleCreateLink (H := goASCII) plainServer r devWorld
   = (httpError "name, url, and category are required" StatusBadRequest, devWorld)) /\
  (forall id, handleUpdateLink (H := goASCII) plainServer r id devWorld
              = (httpError "name, url, and category are required" StatusBadRequest, devWorld)).
Proof.
  intros r.
  apply (X8_link_fields_required (H := goASCII) plainServer r devWorld
           [("name", "Repo"); ("url", "  "); ("category_id", "x")]).
  - reflexivity.
  - right. left. reflexivity.
Defined.

(** X9. A link form whose three fields are filled but whose
    [category_id] is not an [int64] is a 400 "invalid category id", for
    the create and for the update, and no row is written. *)
Theorem X9_category_id_not_a_number `{GoEnv} (s : server) (r : Request) (w : world)
    (form : list (string * string)) (e : strconv.NumError) :
  Form r = Some form ->
  TrimSpace (FormValue form "name") <> "" ->
  TrimSpace (FormValue form "url") <> "" ->
  TrimSpace (FormValue form "category_id") <> "" ->
  strconv.ParseInt (TrimSpace (FormValue form "category_id")) = inr e ->
  (Method r = MethodPost ->
   handleCreateLink s r w = (httpError "invalid category id" StatusBadRequest, w)) /\
  (forall id, handleUpdateLink s r id w
              = (httpError "invalid category id" StatusBadRequest, w)).
Proof.
  intros Hf Hn Hu Hc Hparse.
  assert (linkFields form = inr (httpError "invalid category id" StatusBadRequest)) as Hflds.
  { unfold linkFields. apply String.eqb_neq in Hn, Hu, Hc. by rewrite Hn, Hu, Hc, Hparse. }
  split.
  - intros Hm. unfold handleCreateLink. by rewrite Hm, Hf, Hflds.
  - intros id. unfold handleUpdateLink. by rewrite Hf, Hflds.
Qed.

Lemma X9_category_id_not_a_number_witness :
  let r := post "/actions/links/create"
             [("name", "Repo"); ("url", "https://x"); ("category_id", "9223372036854775808")] in
  (Method r = MethodPost ->
   handleCreateLink (H := goASCII) plainServer r devWorld
   = (httpError "invalid category id" StatusBadRequest, devWorld)) /\
  (forall id, handleUpdateLink (H := goASCII) plainServer r id devWorld
              = (httpError "invalid category id" StatusBadRequest, devWorld)).
Proof.
  intros r.
  apply (X9_category_id_not_a_number (H := goASCII) plainServer r devWorld
           [("name", "Repo"); ("url", "https://x"); ("category_id", "9223372036854775808")]
           strconv.ErrRange); try discriminate; reflexivity.
Defined.

(** ** What the statements keep *)

Section StoreInvariants.

Lemma maxRowid_ge (ids : list Z) i : i ∈ ids -> i <= maxRowid ids.
Proof.
  induction ids as [|j ids IH]; simpl; [by intros ?%elem_of_nil|].
  intros [-> |Hi]%elem_of_cons; [lia|]. specialize (IH Hi). lia.
Qed.

Lemma newRowid_fresh seq ids id :
  newRowid seq ids = Some id -> seq < id /\ id ∉ ids.
Proof.
  unfold newRowid. destruct (_ <? _); [|discriminate]. intros [= <-]. split; [lia|].
  intros Hin%maxRowid_ge. lia.
Qed.

Lemma nameTaken_false st name :
  nameTaken st name = false -> name ∉ (cr_name <$> categories st).
Proof.
  unfold nameTaken. intros Hno (k & -> & Hk)%list_elem_of_fmap.
  apply not_true_iff_false in Hno. apply Hno.
  apply existsb_exists. exists k. split; [by apply list_elem_of_In|apply String.eqb_refl].
Qed.

Lemma NoDup_snoc_fresh {A} (l : list A) x : NoDup l -> x ∉ l -> NoDup (l ++ [x]).
Proof.
  intros Hl Hx. apply NoDup_app. split_and!; [done| |apply NoDup_singleton].
  intros y Hy ->%list_elem_of_singleton. done.
Qed.

Lemma NoDup_fmap_filter {A B} (f : A -> B) (P : A -> Prop) `{forall x, Decision (P x)}
    (l : list A) :
  NoDup (f <$> l) -> NoDup (f <$> filter P l).
Proof.
  intros Hl. eapply sublist_NoDup; [exact Hl|]. apply fmap_sublist, sublist_filter.
Qed.

Lemma updateRow_ids name url c id (l : list link_row) :
  lr_id <$> (updateRow name url c id <$> l) = lr_id <$> l.
Proof.
  rewrite <- list_fmap_compose. apply list_fmap_ext. intros i r _. simpl.
  unfold updateRow. by destruct (lr_id r =? id).
Qed.

Lemma updateRow_others name url c id (l : list link_row) :
  filter (fun r => lr_id r <> id) (updateRow name url c id <$> l)
  = filter (fun r => lr_id r <> id) l.
Proof.
  induction l as [|r l IH]; [done|]. rewrite fmap_cons.
  destruct (decide (lr_id r <> id)) as [Hne|Heq].
  - assert (updateRow name url c id r = r) as ->.
    { unfold updateRow. apply Z.eqb_neq in Hne. by rewrite Hne. }
    rewrite !filter_cons_True by done. by rewrite IH.
  - assert (lr_id (updateRow name url c id r) = lr_id r) as Hid.
    { unfold updateRow. by destruct (lr_id r =? id). }
    rewrite !filter_cons_False by (rewrite ?Hid; done). exact IH.
Qed.

(** The keys of the schema stay keys under every statement. *)
Lemma exec_keys_unique q st st' :
  exec q st = inl st' -> keys_unique st -> keys_unique st'.
Proof.
  unfold keys_unique. intros Hexec (Hc & Hn & Hl).
  destruct q as [name|name url c|name url c id|id|c|id]; simpl in Hexec.
  - destruct (newRowid _ _) as [id|] eqn:Hid; [|discriminate].
    destruct (nameTaken st name) eqn:Ht; [discriminate|]. injection Hexec as <-. simpl.
    apply newRowid_fresh in Hid as [_ Hid]. apply nameTaken_false in Ht.
    rewrite !fmap_app. simpl. split_and!; [by apply NoDup_snoc_fresh..|done].
  - destruct (newRowid _ _) as [id|] eqn:Hid; [|discriminate].
    destruct (_ && _); [discriminate|]. injection Hexec as <-. simpl.
    apply newRowid_fresh in Hid as [_ Hid].
    rewrite fmap_app. simpl. split_and!; [done|done|by apply NoDup_snoc_fresh].
  - destruct (_ && _); [discriminate|]. injection Hexec as <-. simpl.
    by rewrite updateRow_ids.
  - injection Hexec as <-. simpl. split_and!; [done|done|by apply NoDup_fmap_filter].
  - injection Hexec as <-. simpl. split_and!; [done|done|by apply NoDup_fmap_filter].
  - injection Hexec as <-. destruct (foreign_keys st); simpl;
      split_and!; first [done | by apply NoDup_fmap_filter].
Qed.

Lemma Forall_old_ids {A} (f : A -> Z) (l : list A) seq :
  Forall (fun i => i ∈ (f <$> l) \/ seq < i) (f <$> l).
Proof. apply Forall_forall. intros i Hi. by left. Qed.

Lemma Forall_filter_ids {A} (f : A -> Z) (P : A -> Prop) `{forall x, Decision (P x)}
    (l : list A) seq :
  Forall (fun i => i ∈ (f <$> l) \/ seq < i) (f <$> filter P l).
Proof.
  apply Forall_forall. intros i (x & -> & Hx)%list_elem_of_fmap.
  apply list_elem_of_filter in Hx as [_ Hx]. left. by apply list_elem_of_fmap_2.
Qed.

Lemma Forall_filter_keep {A} (Q : A -> Prop) (P : A -> Prop) `{forall x, Decision (P x)}
    (l : list A) :
  Forall Q l -> Forall Q (filter P l).
Proof.
  intros Hl. apply Forall_forall. intros x [_ Hx]%list_elem_of_filter.
  by eapply Forall_forall in Hl.
Qed.

(** A statement never hands out an id again and never lets a row get
    ahead of the counter. *)
Lemma exec_ids q st st' :
  exec q st = inl st' -> ids_bounded st -> ids_bounded st' /\ issued_after st st'.
Proof.
  unfold ids_bounded, issued_after. intros Hexec (Hc & Hl).
  destruct q as [name|name url c|name url c id|id|c|id]; simpl in Hexec.
  - destruct (newRowid _ _) as [id|] eqn:Hid; [|discriminate].
    destruct (nameTaken st name); [discriminate|]. injection Hexec as <-. simpl.
    apply newRowid_fresh in Hid as [Hid _]. split_and!; try done; try lia.
    + apply Forall_app. split; [|repeat constructor; simpl; lia].
      eapply Forall_impl; [exact Hc|]. simpl. intros. lia.
    + rewrite fmap_app. apply Forall_app. split.
      * apply Forall_forall. intros i Hi. by left.
      * constructor; [by right|constructor].
    + apply Forall_old_ids.
  - destruct (newRowid _ _) as [id|] eqn:Hid; [|discriminate].
    destruct (_ && _); [discriminate|]. injection Hexec as <-. simpl.
    apply newRowid_fresh in Hid as [Hid _]. split_and!; try done; try lia.
    + apply Forall_app. split; [|repeat constructor; simpl; lia].
      eapply Forall_impl; [exact Hl|]. simpl. intros. lia.
    + apply Forall_old_ids.
    + rewrite fmap_app. apply Forall_app. split.
      * apply Forall_forall. intros i Hi. by left.
      * constructor; [by right|constructor].
  - destruct (_ && _); [discriminate|]. injection Hexec as <-. simpl.
    split_and!; try done; try lia.
    + apply Forall_fmap, Forall_forall. intros r Hr. simpl.
      eapply Forall_forall in Hl; [|exact Hr].
      unfold updateRow. by destruct (lr_id r =? id).
    + apply Forall_old_ids.
    + rewrite updateRow_ids. apply Forall_old_ids.
  - injection Hexec as <-. simpl. split_and!; try done; try lia.
    + by apply Forall_filter_keep.
    + apply Forall_old_ids.
    + apply Forall_filter_ids.
  - injection Hexec as <-. simpl. split_and!; try done; try lia.
    + by apply Forall_filter_keep.
    + apply Forall_old_ids.
    + apply Forall_filter_ids.
  - injection Hexec as <-. destruct (foreign_keys st); simpl;
      split_and!; try done; try lia;
      first [ by apply Forall_filter_keep | apply Forall_filter_ids | apply Forall_old_ids ].
Qed.

Lemma issued_after_refl st : issued_after st st.
Proof.
  unfold issued_after. split_and!; try lia; apply Forall_old_ids.
Qed.

Lemma issued_after_trans st1 st2 st3 :
  issued_after st1 st2 -> issued_after st2 st3 -> issued_after st1 st3.
Proof.
  unfold issued_after. intros (Hc12 & Hl12 & Hci12 & Hli12) (Hc23 & Hl23 & Hci23 & Hli23).
  split_and!; try lia.
  - apply Forall_forall. intros i Hi. eapply Forall_forall in Hci23; [|exact Hi].
    destruct Hci23 as [Hin|Hgt]; [|right; lia].
    eapply Forall_forall in Hci12; [|exact Hin]. done.
  - apply Forall_forall. intros i Hi. eapply Forall_forall in Hli23; [|exact Hi].
    destruct Hli23 as [Hin|Hgt]; [|right; lia].
    eapply Forall_forall in Hli12; [|exact Hin]. done.
Qed.

Lemma runAll_keys_unique qs : forall st st',
  runAll qs st = Some st' -> keys_unique st -> keys_unique st'.
Proof.
  induction qs as [|q qs IH]; simpl; intros st st' Hrun Hk; [by injection Hrun as <-|].
  destruct (exec q st) as [st1|e] eqn:Hexec; [|discriminate].
  eapply IH; [exact Hrun|]. by eapply exec_keys_unique.
Qed.

Lemma runAll_ids qs : forall st st',
  runAll qs st = Some st' -> ids_bounded st -> ids_bounded st' /\ issued_after st st'.
Proof.
  induction qs as [|q qs IH]; simpl; intros st st' Hrun Hb.
  - injection Hrun as <-. split; [done|apply issued_after_refl].
  - destruct (exec q st) as [st1|e] eqn:Hexec; [|discriminate].
    destruct (exec_ids _ _ _ Hexec Hb) as [Hb1 Hi1].
    destruct (IH _ _ Hrun Hb1) as [Hb' Hi']. split; [done|].
    by eapply issued_after_trans.
Qed.

End StoreInvariants.

(** The tables a handler leaves are those it found, changed by the
    statements that went through. *)
Lemma handler_runs `{GoEnv} (s : server) (rt : route) (r : Request) (w : world) :
  exists qs, runAll qs (db w) = Some (db (handler s rt r w).2).
Proof.
  destruct (handler_outcome s rt r w)
    as [(msg & code & _ & _ & [Hdb _])|[(msg & _ & [Hdb _])|[[_ Hout]
        |(w1 & qs & _ & Hdb & _ & Hrun & _)]]].
  - exists []. simpl. by rewrite Hdb.
  - exists []. simpl. by rewrite Hdb.
  - exists []. by rewrite Hout.
  - exists qs. by rewrite Hdb.
Qed.

(** X10. No request can break the keys of the schema: when the ids of
    both tables and the names of the categories are free of duplicates
    before a request, they are after it, whatever the route, the form
    and the failures. *)
Theorem X10_keys_stay_unique `{GoEnv} (s : server) (rt : route) (r : Request) (w : world) :
  keys_unique (db w) -> keys_unique (db (handler s rt r w).2).
Proof.
  intros Hk. destruct (handler_runs s rt r w) as [qs Hrun].
  by eapply runAll_keys_unique.
Qed.

Lemma X10_keys_stay_unique_witness :
  keys_unique (db (handler (H := goASCII) plainServer RouteCreateCategory
                     (post "/actions/categories/create" [("name", "dev")]) devWorld).2).
Proof.
  apply (X10_keys_stay_unique (H := goASCII) plainServer RouteCreateCategory).
  unfold keys_unique. simpl. split_and!; repeat constructor; by intros ?%elem_of_nil.
Defined.

(** X11. No request hands out an id twice: when no row is ahead of the
    AUTOINCREMENT counter of its table before a request, none is after
    it, the counters have not gone back, and every id in the tables
    afterwards is an id that was there or lies above the old counter,
    so above every id ever given, deleted rows included. *)
Theorem X11_ids_never_reused `{GoEnv} (s : server) (rt : route) (r : Request) (w : world) :
  ids_bounded (db w) ->
  ids_bounded (db (handler s rt r w).2) /\ issued_after (db w) (db (handler s rt r w).2).
Proof.
  intros Hb. destruct (handler_runs s rt r w) as [qs Hrun].
  by eapply runAll_ids.
Qed.

Lemma X11_ids_never_reused_witness :
  ids_bounded (db (handler (H := goASCII) plainServer RouteCategoryActions
                     (post "/actions/categories/1/delete" []) repoWorld).2) /\
  issued_after (db repoWorld)
    (db (handler (H := goASCII) plainServer RouteCategoryActions
           (post "/actions/categories/1/delete" []) repoWorld).2).
Proof.
  apply (X11_ids_never_reused (H := goASCII) plainServer RouteCategoryActions).
  unfold ids_bounded. simpl. split; repeat constructor; simpl; lia.
Defined.

(** After "Dev" (id 1) is deleted, the next category gets id 2. *)
Example id_not_given_again :
  let w1 := (handleCategoryActions (H := goASCII) plainServer
               (post "/actions/categories/1/delete" []) devWorld).2 in
  let w2 := (handleCreateCategory (H := goASCII) plainServer
               (post "/actions/categories/create" [("name", "Ops")]) w1).2 in
  categories (db w1) = [] /\ categories (db w2) = [{| cr_id := 2; cr_name := "Ops" |}].
Proof. vm_compute. split; reflexivity. Qed.

(** ** What each write does to the rows *)

Section Writes.

Context `{GoEnv}.
Variable s : server.

Lemma hasLink_filtered st id rows seq :
  hasLink (setLinks st (filter (fun r => lr_id r <> id) rows) seq) id = false.
Proof.
  unfold hasLink. simpl. apply not_true_iff_false. intros (r & Hr & Heq)%existsb_exists.
  apply list_elem_of_In, list_elem_of_filter in Hr as [Hne _]. by apply Z.eqb_eq in Heq.
Qed.

Lemma handleDeleteLink_rows r id w :
  let out := handleDeleteLink s r id w in
  (out.1 = httpError "failed to delete link" StatusInternalServerError /\ db out.2 = db w) \/
  db out.2 = setLinks (db w) (filter (fun x => lr_id x <> id) (links (db w))) (seq_links (db w)) /\
  (Status out.1 = StatusOK \/ Status out.1 = StatusInternalServerError).
Proof.
  unfold handleDeleteLink.
  destruct (stmt_then_render s (DeleteLink id) w
              (fun _ => httpError "failed to delete link" StatusInternalServerError))
    as [(e & ->)|(st' & Hexec & _ & ->)].
  - left. done.
  - right. simpl in Hexec. injection Hexec as <-.
    destruct (renderDashboard_db s (setDb (popFault w)
      (setLinks (db w) (filter (fun x => lr_id x <> id) (links (db w))) (seq_links (db w)))))
      as [-> _].
    split; [done|apply renderDashboard_status].
Qed.

Lemma handleUpdateLink_rows r id w :
  let out := handleUpdateLink s r id w in
  db out.2 = db w \/
  exists name url c,
    db out.2 = setLinks (db w) (updateRow name url c id <$> links (db w)) (seq_links (db w)).
Proof.
  unfold handleUpdateLink.
  destruct (Form r) as [form|]; [|by left].
  destruct (linkFields form) as [[[name url] c]|resp]; [|by left].
  destruct (stmt_then_render s (UpdateLink name url c id) w
              (fun _ => httpError "failed to update link" StatusInternalServerError))
    as [(e & ->)|(st' & Hexec & _ & ->)].
  - by left.
  - right. exists name, url, c. simpl in Hexec.
    destruct (_ && _); [discriminate|]. injection Hexec as <-.
    by destruct (renderDashboard_db s (setDb (popFault w)
      (setLinks (db w) (updateRow name url c id <$> links (db w)) (seq_links (db w)))))
      as [-> _].
Qed.

Lemma handleCreateLink_rows r w :
  let out := handleCreateLink s r w in
  db out.2 = db w \/
  exists row, db out.2 = setLinks (db w) (links (db w) ++ [row]) (lr_id row).
Proof.
  unfold handleCreateLink.
  destruct (negb _); [by left|].
  destruct (Form r) as [form|]; [|by left].
  destruct (linkFields form) as [[[name url] c]|resp]; [|by left].
  destruct (stmt_then_render s (InsertLink name url c) w
              (fun _ => httpError "failed to create link" StatusInternalServerError))
    as [(e & ->)|(st' & Hexec & _ & ->)].
  - by left.
  - right. simpl in Hexec.
    destruct (newRowid _ _) as [id|]; [|discriminate].
    destruct (_ && _); [discriminate|]. injection Hexec as <-.
    eexists {| lr_id := id |}.
    by destruct (renderDashboard_db s (setDb (popFault w)
      (setLinks (db w) (links (db w) ++ [{| lr_id := id; lr_name := name; lr_url := url;
                                            lr_category_id := c |}]) id))) as [-> _].
Qed.

Lemma handleCreateCategory_rows r w :
  let out := handleCreateCategory s r w in
  db out.2 = db w \/
  exists row, db out.2 = setCategories (db w) (categories (db w) ++ [row]) (cr_id row).
Proof.
  unfold handleCreateCategory.
  destruct (negb _); [by left|].
  destruct (Form r) as [form|]; [|by left].
  destruct (String.eqb _ ""); [by left|].
  destruct (stmt_then_render s (InsertCategory (TrimSpace (FormValue form "name"))) w
              (fun e => if strings.Contains (ToLower (Error e)) "unique"
                        then httpError "category already exists" StatusConflict
                        else httpError "failed to create category" StatusInternalServerError))
    as [(e & He)|(st' & Hexec & _ & He)].
  - left. unfold bind in *.
    destruct (ExecContext _ w) as [[e'|] w']; simpl in *;
      try destruct (strings.Contains (ToLower (Error e')) "unique"); by rewrite He.
  - right. simpl in Hexec.
    destruct (newRowid _ _) as [id|]; [|discriminate].
    destruct (nameTaken _ _); [discriminate|]. injection Hexec as <-.
    eexists {| cr_id := id |}.
    unfold bind in *.
    destruct (ExecContext _ w) as [[e'|] w']; simpl in *;
      try destruct (strings.Contains (ToLower (Error e')) "unique");
      rewrite He;
      by destruct (renderDashboard_db s (setDb (popFault w)
        (setCategories (db w)
           (categories (db w) ++ [{| cr_id := id;
                                     cr_name := TrimSpace (FormValue form "name") |}]) id)))
        as [-> _].
Qed.

End Writes.

(** X12. The delete of a link removes the rows with that id and no
    other row: the categories stay, the links are those that were there
    or those without the id, and after a 200 no link has the id. *)
Theorem X12_delete_link_exact `{GoEnv} (s : server) (r : Request) (id : Z) (w : world) :
  categories (db (handleDeleteLink s r id w).2) = categories (db w) /\
  (links (db (handleDeleteLink s r id w).2) = links (db w) \/
   links (db (handleDeleteLink s r id w).2)
   = filter (fun x => lr_id x <> id) (links (db w))) /\
  (Status (handleDeleteLink s r id w).1 = StatusOK ->
   links (db (handleDeleteLink s r id w).2)
   = filter (fun x => lr_id x <> id) (links (db w)) /\
   hasLink (db (handleDeleteLink s r id w).2) id = false).
Proof.
  destruct (handleDeleteLink_rows s r id w) as [[Hresp Hdb]|(Hdb & _)]; rewrite Hdb.
  - split_and!; [done|by left|]. rewrite Hresp. discriminate.
  - simpl. split_and!; [done|by right|]. intros _. split; [done|apply hasLink_filtered].
Qed.

(** X13. The update of a link never changes an id, the number or the
    order of the links, a link with another id, or a category. *)
Theorem X13_update_link_keeps_rest `{GoEnv} (s : server) (r : Request) (id : Z) (w : world) :
  categories (db (handleUpdateLink s r id w).2) = categories (db w) /\
  lr_id <$> links (db (handleUpdateLink s r id w).2) = lr_id <$> links (db w) /\
  filter (fun x => lr_id x <> id) (links (db (handleUpdateLink s r id w).2))
  = filter (fun x => lr_id x <> id) (links (db w)).
Proof.
  destruct (handleUpdateLink_rows s r id w) as [Hdb|(name & url & c & Hdb)]; rewrite Hdb.
  - done.
  - simpl. split_and!; [done|apply updateRow_ids|apply updateRow_others].
Qed.

(** X14. A create adds at most one row at the end of its table and
    leaves every row that was there as it was: the create of a category
    does not touch the links, the create of a link does not touch the
    categories. *)
Theorem X14_creates_only_append `{GoEnv} (s : server) (r : Request) (w : world) :
  (links (db (handleCreateCategory s r w).2) = links (db w) /\
   exists new, categories (db (handleCreateCategory s r w).2) = categories (db w) ++ new /\
               (length new <= 1)%nat) /\
  (categories (db (handleCreateLink s r w).2) = categories (db w) /\
   exists new, links (db (handleCreateLink s r w).2) = links (db w) ++ new /\
               (length new <= 1)%nat).
Proof.
  split.
  - destruct (handleCreateCategory_rows s r w) as [Hdb|(row & Hdb)]; rewrite Hdb.
    + split; [done|]. exists []. rewrite app_nil_r. split; [done|simpl; lia].
    + simpl. split; [done|]. exists [row]. split; [done|simpl; lia].
  - destruct (handleCreateLink_rows s r w) as [Hdb|(row & Hdb)]; rewrite Hdb.
    + split; [done|]. exists []. rewrite app_nil_r. split; [done|simpl; lia].
    + simpl. split; [done|]. exists [row]. split; [done|simpl; lia].
Qed.

(** ** Reading the dashboard *)

Section Reads.

Context `{GoEnv}.
Variable s : server.

(** The names under which the view shows the categories are those of
    the rows, each once. *)
Lemma aggregate_headers cats lks :
  header <$> Categories (aggregate cats lks)
  ≡ₚ (fun k => (strconv.FormatInt (cr_id k), cr_name k)) <$> cats.
Proof.
  destruct (aggregate_cells cats lks) as (es & -> & Hg & _).
  rewrite <- list_fmap_compose.
  rewrite (list_fmap_ext (header ∘ sortLinks) header (sortSlice lessCategory es))
    by (intros; apply header_sortLinks).
  rewrite sortSlice_perm. by rewrite (grown_headers _ _ Hg).
Qed.

End Reads.

(** X15. A category that was created is on the dashboard: when the
    insert goes through and no query fails, the answer is the rendering
    of the new tables, which hold the new row at the end of the
    categories, and the view of these tables lists the category under
    its new id and trimmed name. *)
Theorem X15_created_category_listed `{GoEnv} (s : server) (r : Request) (w : world)
    (form : list (string * string)) (id : Z) :
  Method r = MethodPost ->
  Form r = Some form ->
  TrimSpace (FormValue form "name") <> "" ->
  faults w = [] ->
  nameTaken (db w) (TrimSpace (FormValue form "name")) = false ->
  newRowid (seq_categories (db w)) (cr_id <$> categories (db w)) = Some id ->
  categories (db (handleCreateCategory s r w).2)
  = categories (db w) ++ [{| cr_id := id; cr_name := TrimSpace (FormValue form "name") |}] /\
  handleCreateCategory s r w = renderDashboard s (handleCreateCategory s r w).2 /\
  exists e,
    e ∈ Categories (aggregate (categories (db (handleCreateCategory s r w).2))
                             (links (db (handleCreateCategory s r w).2))) /\
    header e = (strconv.FormatInt id, TrimSpace (FormValue form "name")).
Proof.
  intros Hm Hf Hne Hnil Hfree Hid.
  set (name := TrimSpace (FormValue form "name")) in *.
  set (st' := setCategories (db w) (categories (db w) ++ [{| cr_id := id; cr_name := name |}]) id).
  assert (handleCreateCategory s r w = renderDashboard s (setDb w st')) as Hrun.
  { unfold handleCreateCategory. rewrite Hm, Hf, String.eqb_refl.
    fold name. apply String.eqb_neq in Hne. rewrite Hne. unfold bind.
    change (negb true) with false. cbv beta iota.
    rewrite ExecContext_pass by (unfold nextFails; by rewrite Hnil).
    simpl. rewrite Hid, Hfree. fold st'.
    replace (popFault w) with w; [done|]. destruct w. simpl in *. by subst. }
  assert ((renderDashboard s (setDb w st')).2 = setDb w st') as Hw.
  { by apply (renderDashboard_ok s (setDb w st')). }
  rewrite Hrun, Hw. simpl. split_and!; [done|done|].
  assert ((strconv.FormatInt id, name) ∈ header <$> Categories
            (aggregate (categories (db w) ++ [{| cr_id := id; cr_name := name |}])
                       (links (db w)))) as Hin.
  { rewrite aggregate_headers, fmap_app. apply elem_of_app. right. simpl.
    apply list_elem_of_here. }
  apply list_elem_of_fmap in Hin as (e & He & Hin). by exists e.
Qed.

Lemma X15_created_category_listed_witness :
  let r := post "/actions/categories/create" [("name", " Ops ")] in
  categories (db (handleCreateCategory (H := goASCII) plainServer r devWorld).2)
  = categories (db devWorld) ++ [{| cr_id := 2; cr_name := "Ops" |}] /\
  handleCreateCategory (H := goASCII) plainServer r devWorld
  = renderDashboard (H := goASCII) plainServer
      (handleCreateCategory (H := goASCII) plainServer r devWorld).2 /\
  exists e,
    e ∈ Categories (aggregate (H := goASCII)
          (categories (db (handleCreateCategory (H := goASCII) plainServer r devWorld).2))
          (links (db (handleCreateCategory (H := goASCII) plainServer r devWorld).2))) /\
    header e = (strconv.FormatInt 2, "Ops").
Proof.
  intros r.
  apply (X15_created_category_listed (H := goASCII) plainServer r devWorld [("name", " Ops ")] 2);
    try reflexivity.
  discriminate.
Defined.

(** X16. The dashboard read changes neither the tables nor the
    transaction state.  When the categories query fails the links query
    is not issued; when either fails the answer is 500 "failed to load
    dashboard"; when the template fails before any output it is 500
    "failed to render template". *)
Theorem X16_dashboard_read `{GoEnv} (s : server) (r : Request) (w : world) :
  Method r = MethodGet ->
  db (handleDashboard s r w).2 = db w /\
  txn (handleDashboard s r w).2 = txn w /\
  (nextFails w = true -> faults (handleDashboard s r w).2 = tail (faults w)) /\
  (failsWithin 2 w = true ->
   (handleDashboard s r w).1
   = httpError "failed to load dashboard" StatusInternalServerError) /\
  (failsWithin 2 w = false ->
   templates s (aggregate (categories (db w)) (links (db w))) = ("", false) ->
   (handleDashboard s r w).1
   = httpError "failed to render template" StatusInternalServerError).
Proof.
  intros Hm. unfold handleDashboard. rewrite Hm. simpl negb. cbv iota.
  destruct (renderDashboard_db s w) as [Hdb Htx]. split_and!; [done|done|..].
  - unfold nextFails, renderDashboard, getDashboardData, QueryCategories, bind, fault, ret.
    destruct w as [st t [|[msg|] fs]]; simpl; done.
  - unfold failsWithin, renderDashboard, getDashboardData, QueryCategories, QueryLinks,
      bind, fault, ret.
    destruct w as [st t [|[msg|] [|[msg'|] fs]]]; simpl; try done.
  - unfold failsWithin, renderDashboard, getDashboardData, QueryCategories, QueryLinks,
      bind, fault, ret.
    destruct w as [st t [|[msg|] [|[msg'|] fs]]]; simpl; try done; by intros _ ->.
Qed.

Lemma X16_dashboard_read_witness :
  let r := {| Method := MethodGet; Path := "/partials/dashboard"; Form := Some [] |} in
  let w := {| db := db repoWorld; txn := None; faults := [Some "context deadline exceeded"] |} in
  db (handleDashboard (H := goASCII) plainServer r w).2 = db w /\
  txn (handleDashboard (H := goASCII) plainServer r w).2 = txn w /\
  (nextFails w = true ->
   faults (handleDashboard (H := goASCII) plainServer r w).2 = tail (faults w)) /\
  (failsWithin 2 w = true ->
   (handleDashboard (H := goASCII) plainServer r w).1
   = httpError "failed to load dashboard" StatusInternalServerError) /\
  (failsWithin 2 w = false ->
   templates plainServer (aggregate (H := goASCII) (categories (db w)) (links (db w)))
   = ("", false) ->
   (handleDashboard (H := goASCII) plainServer r w).1
   = httpError "failed to render template" StatusInternalServerError).
Proof.
  intros r w. apply (X16_dashboard_read (H := goASCII) plainServer r w). reflexivity.
Defined.

(** ** Which categories keep their links *)

Section Cells.

Context `{GoEnv}.

Lemma deref_storeLink_eq h p l e :
  deref h p = Some e -> deref (storeLink h p l) p = Some (appendLink l e).
Proof.
  intros (a & Ha & He)%deref_Some. apply deref_Some. unfold storeLink.
  exists (alter (appendLink l) p.2 a). split.
  - by rewrite list_lookup_alter_eq, Ha.
  - by rewrite list_lookup_alter_eq, He.
Qed.

Lemma deref_storeLink_ne h p q l : p <> q -> deref (storeLink h q l) p = deref h p.
Proof.
  intros Hne. unfold deref, storeLink.
  destruct (decide (q.1 = p.1)) as [E1|E1].
  - rewrite <- E1, list_lookup_alter_eq.
    destruct (h !! q.1) as [a|]; simpl; [|done].
    rewrite list_lookup_alter_ne; [done|].
    intros E2. apply Hne. destruct p, q; simpl in *; congruence.
  - by rewrite list_lookup_alter_ne.
Qed.

(** What the link loop leaves in the cell at [p]: the links it had,
    followed by the links whose category id is remembered at [p], in
    the order read. *)
Lemma loadLinks_cell m p rows : forall h e ls,
  deref h p = Some e -> dc_Links e = Some ls ->
  deref (loadLinks rows m h) p
  = Some {| dc_ID := dc_ID e; dc_Name := dc_Name e;
            dc_Links := Some (ls ++ linksThrough m p rows) |}.
Proof.
  unfold linksThrough.
  induction rows as [|r rows IH]; intros h e ls He Hls; simpl.
  - rewrite app_nil_r, He. f_equal. destruct e. simpl in *. by subst.
  - destruct (m !! lr_category_id r) as [q|] eqn:Hq.
    + destruct (decide (q = p)) as [->|Hne].
      * rewrite filter_cons_True by done. rewrite fmap_cons.
        erewrite IH; [|by apply deref_storeLink_eq|simpl; by rewrite Hls].
        simpl. by rewrite <- app_assoc.
      * rewrite filter_cons_False by congruence.
        apply IH; [|done]. by rewrite deref_storeLink_ne.
    + rewrite filter_cons_False by congruence. by apply IH.
Qed.

Lemma elems_lookup h s i :
  (i < s_len s)%nat -> elems h s !! i = deref h (s_arr s, i).
Proof.
  intros Hi. unfold elems, deref. simpl. rewrite lookup_take_lt by done.
  rewrite list_lookup_total_alt. destruct (h !! s_arr s); simpl; [done|].
  by rewrite lookup_nil.
Qed.

Lemma append_arr h s x :
  slice_ok h s ->
  (length h <= length (append h s x).1)%nat /\
  (s_arr (append h s x).2 = s_arr s \/ s_arr (append h s x).2 = length h) /\
  (s_arr s <= s_arr (append h s x).2)%nat.
Proof.
  intros (a & Ha & _). apply lookup_lt_Some in Ha. unfold append.
  destruct (s_len s <? s_cap s)%nat; simpl.
  - rewrite length_alter. split_and!; [lia|by left|lia].
  - rewrite length_app. simpl. split_and!; [lia|by right|lia].
Qed.

Lemma slice_ok_arr h s : slice_ok h s -> (s_arr s < length h)%nat.
Proof. intros (a & Ha & _). by apply lookup_lt_Some in Ha. Qed.

(** One more row: the address that is remembered for it is no address
    that was remembered before. *)
Lemma ptrs_behind_step h s m (c : category_row) :
  slice_ok h s -> ptrs_behind m h s ->
  let h' := (append h s (newCategory c)).1 in
  let s' := (append h s (newCategory c)).2 in
  ptrs_behind (<[cr_id c := (s_arr s', (s_len s' - 1)%nat)]> m) h' s' /\
  (forall id, m !! id <> Some (s_arr s', (s_len s' - 1)%nat)).
Proof.
  intros Hok Hm h' s'.
  pose proof (append_ok h s (newCategory c) Hok) as Hok'.
  pose proof (append_len h s (newCategory c)) as Hlen.
  destruct (append_arr h s (newCategory c) Hok) as (Hh & Harr & _).
  fold h' s' in Hok', Hlen, Hh, Harr.
  apply slice_ok_arr in Hok'.
  assert (forall id p, m !! id = Some p ->
            (p.1 < length h')%nat /\ (p.1 = s_arr s' -> (p.2 < s_len s)%nat)) as Hold.
  { intros id p Hp. destruct (Hm id p Hp) as [Hlt Hin]. split; [lia|].
    intros E. destruct Harr as [Harr|Harr]; [apply Hin; congruence|lia]. }
  split.
  - intros id p. destruct (decide (cr_id c = id)) as [<-|Hne].
    + rewrite lookup_insert_eq. intros [= <-]. simpl. split; [done|lia].
    + rewrite lookup_insert_ne by done. intros Hp.
      destruct (Hold id p Hp) as [Hlt Hin]. split; [done|]. intros E.
      specialize (Hin E). lia.
  - intros id Hp. destruct (Hold id _ Hp) as [_ Hin]. simpl in Hin.
    specialize (Hin eq_refl). lia.
Qed.

Lemma loadCategories_ptrs rows : forall h s m,
  slice_ok h s -> ptrs_behind m h s ->
  ptrs_behind (loadCategories rows h s m).2
    (loadCategories rows h s m).1.1 (loadCategories rows h s m).1.2 /\
  slice_ok (loadCategories rows h s m).1.1 (loadCategories rows h s m).1.2.
Proof.
  induction rows as [|c rows IH]; intros h s m Hok Hm; simpl; [done|].
  pose proof (append_ok h s (newCategory c) Hok) as Hok'.
  destruct (ptrs_behind_step h s m c Hok Hm) as [Hm' _].
  destruct (append h s (newCategory c)) as [h' s']. simpl in *. by apply IH.
Qed.

Lemma loadCategories_snoc rows c : forall h s m,
  loadCategories (rows ++ [c]) h s m
  = let '(h1, s1, m1) := loadCategories rows h s m in
    let '(h2, s2) := append h1 s1 (newCategory c) in
    (h2, s2, <[cr_id c := (s_arr s2, (s_len s2 - 1)%nat)]> m1).
Proof.
  induction rows as [|r rows IH]; intros h s m; simpl.
  - by destruct (append h s (newCategory c)).
  - destruct (append h s (newCategory r)) as [h' s']. apply IH.
Qed.

(** The category row read last: its cell is in the array the slice
    ends up in, and only its id is remembered at that cell. *)
Lemma loadCategories_last rows c h s m h' s' m' :
  slice_ok h s -> ptrs_behind m h s ->
  loadCategories (rows ++ [c]) h s m = (h', s', m') ->
  (1 <= s_len s')%nat /\
  deref h' (s_arr s', (s_len s' - 1)%nat) = Some (newCategory c) /\
  forall id, m' !! id = Some (s_arr s', (s_len s' - 1)%nat) <-> id = cr_id c.
Proof.
  intros Hok Hm. rewrite loadCategories_snoc.
  destruct (loadCategories_ptrs rows h s m Hok Hm) as [Hm1 Hok1].
  destruct (loadCategories rows h s m) as [[h1 s1] m1]. simpl in Hm1, Hok1.
  pose proof (deref_append_new h1 s1 (newCategory c) Hok1) as Hnew.
  pose proof (append_len h1 s1 (newCategory c)) as Hlen.
  destruct (ptrs_behind_step h1 s1 m1 c Hok1 Hm1) as [_ Hfresh].
  destruct (append h1 s1 (newCategory c)) as [h2 s2]. simpl in *.
  intros [= <- <- <-]. rewrite Hlen.
  replace (S (s_len s1) - 1)%nat with (s_len s1) in * by lia.
  split_and!; [lia|done|]. intros id. split.
  - destruct (decide (cr_id c = id)) as [<-|Hne]; [done|].
    rewrite lookup_insert_ne by done. intros Hp.
    destruct (Hfresh id). by rewrite Hlen in *; replace (S (s_len s1) - 1)%nat
      with (s_len s1) in * by lia.
  - intros ->. by rewrite lookup_insert_eq.
Qed.

(** The cells of [categories] after both loops, one per category row in
    the order read: the cell of row [i] holds the links whose category
    id is remembered at the address of cell [i] of the final array. *)
Lemma aggregate_rows cats lks :
  exists h s m,
    loadCategories cats [[]] {| s_arr := 0; s_len := 0; s_cap := 0 |} ∅ = (h, s, m) /\
    forall e,
      e ∈ Categories (aggregate cats lks) <->
      exists i c, cats !! i = Some c /\
        e = sortLinks {| dc_ID := strconv.FormatInt (cr_id c); dc_Name := cr_name c;
                         dc_Links := Some (linksThrough m (s_arr s, i) lks) |}.
Proof.
  unfold aggregate. simpl.
  set (s0 := {| s_arr := 0; s_len := 0; s_cap := 0 |}).
  destruct (loadCategories cats [[]] s0 ∅) as [[h s] m] eqn:Hload.
  assert (slice_ok [[]] s0) as Hok0 by (exists []; simpl; split_and!; done || lia).
  destruct (loadCategories_spec cats _ _ _ _ _ _ Hok0 Hload) as (Hok & Hel & _ & _).
  assert (elems [[]] s0 = []) as Hel0 by done. rewrite Hel0 in Hel. simpl in Hel.
  assert (s_len s = length cats) as Hlen.
  { rewrite <- (length_fmap newCategory), <- Hel. unfold elems.
    destruct Hok as (a & Ha & Hcap & Hle).
    rewrite (list_lookup_total_correct _ _ _ Ha), length_take. lia. }
  assert (forall i c, cats !! i = Some c ->
            elems (loadLinks lks m h) s !! i
            = Some {| dc_ID := strconv.FormatInt (cr_id c); dc_Name := cr_name c;
                      dc_Links := Some (linksThrough m (s_arr s, i) lks) |}) as Hcell.
  { intros i c Hc. pose proof (lookup_lt_Some _ _ _ Hc) as Hi.
    rewrite elems_lookup by lia.
    apply (loadLinks_cell m (s_arr s, i) lks h (newCategory c) []); [|done].
    rewrite <- elems_lookup by lia. by rewrite Hel, list_lookup_fmap, Hc. }
  assert (length (elems (loadLinks lks m h) s) = length cats) as Hlen'.
  { pose proof (loadLinks_elems m s lks h) as Hg. apply Forall2_length in Hg.
    by rewrite <- Hg, Hel, length_fmap. }
  exists h, s, m. split; [done|]. intros e. simpl.
  rewrite list_elem_of_fmap. split.
  - intros (e0 & -> & He0). rewrite sortSlice_perm in He0.
    apply list_elem_of_lookup in He0 as (i & Hi).
    pose proof (lookup_lt_Some _ _ _ Hi) as Hlt. rewrite Hlen' in Hlt.
    destruct (lookup_lt_is_Some_2 cats i Hlt) as (c & Hc).
    exists i, c. split; [done|]. rewrite (Hcell i c Hc) in Hi. by injection Hi as <-.
  - intros (i & c & Hc & ->). eexists. split; [done|].
    rewrite sortSlice_perm. eapply list_elem_of_lookup_2. by apply Hcell.
Qed.

(** With a first array of one cell the slice moves at the second row:
    from then on it is in an array allocated after the one of the first
    row, and every later row goes to a cell behind the first. *)
Lemma loadCategories_moved rows : forall h s m,
  slice_ok h s -> (2 <= s_arr s)%nat -> (1 <= s_len s)%nat ->
  (forall id p, m !! id = Some p -> p.1 = 1%nat \/ (1 <= p.2)%nat) ->
  (2 <= s_arr (loadCategories rows h s m).1.2)%nat /\
  (forall id p, (loadCategories rows h s m).2 !! id = Some p -> p.1 = 1%nat \/ (1 <= p.2)%nat).
Proof.
  induction rows as [|c rows IH]; intros h s m Hok Harr Hlen Hm; simpl; [done|].
  pose proof (append_ok h s (newCategory c) Hok) as Hok'.
  pose proof (append_len h s (newCategory c)) as Hlen'.
  destruct (append_arr h s (newCategory c) Hok) as (_ & _ & Hmono).
  destruct (append h s (newCategory c)) as [h' s']. simpl in *.
  apply IH; [done|lia|lia|].
  intros id p. destruct (decide (cr_id c = id)) as [<-|Hne].
  - rewrite lookup_insert_eq. intros [= <-]. simpl. right. lia.
  - rewrite lookup_insert_ne by done. apply Hm.
Qed.

Lemma loadCategories_two c1 c2 rest :
  (growCap 0 <= 1)%nat ->
  exists h2 s2,
    loadCategories (c1 :: c2 :: rest) [[]] {| s_arr := 0; s_len := 0; s_cap := 0 |} ∅
    = loadCategories rest h2 s2 (<[cr_id c2 := (2%nat, 1%nat)]> (<[cr_id c1 := (1%nat, 0%nat)]> ∅)) /\
    slice_ok h2 s2 /\ s_arr s2 = 2%nat /\ s_len s2 = 2%nat.
Proof.
  intros Hg. simpl.
  replace (Nat.max (growCap 0) 1) with 1%nat by lia. simpl.
  assert (slice_ok [[]; [newCategory c1]] {| s_arr := 1; s_len := 1; s_cap := 1 |}) as Hok1.
  { exists [newCategory c1]. simpl. split_and!; done || lia. }
  pose proof (append_ok _ _ (newCategory c2) Hok1) as Hok2.
  destruct (append [[]; [newCategory c1]] {| s_arr := 1; s_len := 1; s_cap := 1 |}
              (newCategory c2)) as [h2 s2] eqn:E2.
  exists h2, s2. unfold append in E2. simpl in E2. injection E2 as <- <-.
  simpl. split_and!; done.
Qed.

End Cells.

(** X17. The category that is read last keeps its links: the view has
    an entry with its id and name whose links are the link rows of that
    category id, each once. *)
Theorem X17_last_category_keeps_links `{GoEnv} (w w' : world) (v : dashboardData)
    (c : category_row) :
  getDashboardData w = (inl v, w') ->
  last (categories (db w)) = Some c ->
  exists e, e ∈ Categories v /\
    header e = (strconv.FormatInt (cr_id c), cr_name c) /\
    links_of e ≡ₚ linksUnder (cr_id c) (links (db w)).
Proof.
  intros [-> _]%getDashboardData_inv Hlast.
  apply last_Some in Hlast as (rows & Hcats).
  destruct (aggregate_rows (categories (db w)) (links (db w))) as (h & s & m & Hload & Hv).
  rewrite Hcats in Hload.
  assert (slice_ok [[]] {| s_arr := 0; s_len := 0; s_cap := 0 |}) as Hok0
    by (exists []; simpl; split_and!; done || lia).
  assert (ptrs_behind ∅ [[]] {| s_arr := 0; s_len := 0; s_cap := 0 |}) as Hm0
    by (intros id p Hp; by rewrite lookup_empty in Hp).
  pose proof (loadCategories_spec _ _ _ _ _ _ _ Hok0 Hload) as (Hok & Hel & _ & _).
  assert (s_len s = S (length rows)) as Hlen.
  { assert (length (elems h s) = s_len s) as <-.
    { unfold elems. destruct Hok as (a & Ha & Hcap & Hle).
      rewrite (list_lookup_total_correct _ _ _ Ha), length_take. lia. }
    rewrite Hel. simpl. rewrite length_fmap, length_app. simpl. lia. }
  destruct (loadCategories_last rows c _ _ _ _ _ _ Hok0 Hm0 Hload) as (_ & _ & Honly).
  rewrite Hlen in Honly. replace (S (length rows) - 1)%nat with (length rows) in Honly by lia.
  eexists. split; [|split].
  - apply Hv. exists (length rows), c. split; [|reflexivity].
    rewrite Hcats. by rewrite lookup_app_r, Nat.sub_diag by lia.
  - done.
  - rewrite links_of_sortLinks. unfold links_of, linksThrough, linksUnder. simpl.
    rewrite (list_filter_iff _ (fun r => lr_category_id r = cr_id c)); [done|].
    intros r. apply Honly.
Qed.

Lemma X17_last_category_keeps_links_witness :
  exists e, e ∈ Categories (aggregate (H := goASCII) (categories twoStore)
                             [{| lr_id := 1; lr_name := "Wiki"; lr_url := "https://w";
                                 lr_category_id := 2 |}]) /\
    header e = ("2", "Ops") /\
    links_of e ≡ₚ [{| dl_ID := "1"; dl_CategoryID := "2"; dl_Name := "Wiki";
                      dl_URL := "https://w" |}].
Proof.
  exact (X17_last_category_keeps_links (H := goASCII)
           {| db := setLinks twoStore [{| lr_id := 1; lr_name := "Wiki"; lr_url := "https://w";
                                          lr_category_id := 2 |}] 1;
              txn := None; faults := [] |} _ _ {| cr_id := 2; cr_name := "Ops" |}
           eq_refl eq_refl).
Defined.

(** X18. With two categories or more, the category that is read first
    is on the dashboard without its links, whatever link rows it has:
    when the first array of the slice has one cell, the entry with the
    id of the first category row has its name and an empty list. *)
Theorem X18_first_category_loses_links `{GoEnv} (w w' : world) (v : dashboardData)
    (c1 c2 : category_row) (rest : list category_row) :
  (growCap 0 <= 1)%nat ->
  getDashboardData w = (inl v, w') ->
  categories (db w) = c1 :: c2 :: rest ->
  NoDup (cr_id <$> categories (db w)) ->
  (exists e, e ∈ Categories v /\ dc_ID e = strconv.FormatInt (cr_id c1)) /\
  Forall (fun e => dc_ID e = strconv.FormatInt (cr_id c1) ->
                   dc_Name e = cr_name c1 /\ dc_Links e = Some [])
         (Categories v).
Proof.
  intros Hg [-> _]%getDashboardData_inv Hcats Hnd.
  destruct (aggregate_rows (categories (db w)) (links (db w))) as (h & s & m & Hload & Hv).
  rewrite Hcats in Hload.
  destruct (loadCategories_two c1 c2 rest Hg) as (h2 & s2 & Heq & Hok2 & Harr2 & Hlen2).
  rewrite Heq in Hload.
  destruct (loadCategories_moved rest h2 s2
              (<[cr_id c2 := (2%nat, 1%nat)]> (<[cr_id c1 := (1%nat, 0%nat)]> ∅)) Hok2)
    as [Harr Hm]; [lia|lia| |].
  { intros id p. destruct (decide (cr_id c2 = id)) as [<-|Hne2].
    - rewrite lookup_insert_eq. intros [= <-]. right. simpl. lia.
    - rewrite lookup_insert_ne by done.
      destruct (decide (cr_id c1 = id)) as [<-|Hne1].
      + rewrite lookup_insert_eq. intros [= <-]. by left.
      + rewrite lookup_insert_ne by done. by rewrite lookup_empty. }
  rewrite Hload in Harr, Hm. simpl in Harr, Hm.
  assert (linksThrough m (s_arr s, 0%nat) (links (db w)) = []) as Hnone.
  { unfold linksThrough. generalize (links (db w)). intros rows.
    induction rows as [|r rows IH]; [done|].
    rewrite filter_cons_False; [exact IH|].
    intros Hp. destruct (Hm _ _ Hp) as [E|E]; simpl in E; lia. }
  split.
  - eexists. split.
    + apply Hv. exists 0%nat, c1. split; [by rewrite Hcats|reflexivity].
    + reflexivity.
  - apply Forall_forall. intros e He Hid.
    apply Hv in He as (i & c & Hc & ->). simpl in Hid. apply FormatInt_inj in Hid.
    assert (i = 0%nat) as ->.
    { eapply (NoDup_lookup _ i 0%nat (cr_id c)); [exact Hnd|..].
      - by rewrite list_lookup_fmap, Hc.
      - rewrite Hcats. simpl. by rewrite Hid. }
    rewrite Hcats in Hc. injection Hc as <-. simpl. by rewrite Hnone.
Qed.

Lemma X18_first_category_loses_links_witness :
  (exists e, e ∈ Categories (aggregate (H := goASCII) (categories twoStore) (links twoStore)) /\
             dc_ID e = "1") /\
  Forall (fun e => dc_ID e = "1" -> dc_Name e = "Dev" /\ dc_Links e = Some [])
         (Categories (aggregate (H := goASCII) (categories twoStore) (links twoStore))).
Proof.
  refine (X18_first_category_loses_links (H := goASCII)
            {| db := twoStore; txn := None; faults := [] |} _ _
            {| cr_id := 1; cr_name := "Dev" |} {| cr_id := 2; cr_name := "Ops" |} []
            _ eq_refl eq_refl _).
  - vm_compute. lia.
  - simpl. apply NoDup_cons. split; [|apply NoDup_singleton].
    rewrite list_elem_of_singleton. discriminate.
Defined.

(** X19. The dashboard shows nothing twice: over tables whose ids are
    free of duplicates, no two entries of the view have the same
    category id, and no entry lists the same link id twice. *)
Theorem X19_view_shows_nothing_twice `{GoEnv} (w w' : world) (v : dashboardData) :
  getDashboardData w = (inl v, w') ->
  keys_unique (db w) ->
  NoDup (dc_ID <$> Categories v) /\
  Forall (fun e => NoDup (dl_ID <$> links_of e)) (Categories v).
Proof.
  intros [-> _]%getDashboardData_inv (Hcats & _ & Hlinks). split.
  - assert (dc_ID <$> Categories (aggregate (categories (db w)) (links (db w)))
            ≡ₚ strconv.FormatInt <$> (cr_id <$> categories (db w))) as ->.
    { rewrite (list_fmap_ext dc_ID (fst ∘ header) _) by done.
      rewrite list_fmap_compose, aggregate_headers, <- !list_fmap_compose. done. }
    apply NoDup_fmap_2; [|done]. intros a b. apply FormatInt_inj.
  - apply Forall_forall. intros e He.
    destruct (aggregate_rows (categories (db w)) (links (db w))) as (h & s & m & _ & Hv).
    apply Hv in He as (i & c & _ & ->).
    rewrite links_of_sortLinks. unfold links_of, linksThrough. simpl.
    rewrite <- list_fmap_compose.
    rewrite (list_fmap_ext (dl_ID ∘ newLink) (strconv.FormatInt ∘ lr_id) _) by done.
    rewrite list_fmap_compose.
    apply NoDup_fmap_2; [intros a b; apply FormatInt_inj|].
    by apply NoDup_fmap_filter.
Qed.

Lemma X19_view_shows_nothing_twice_witness :
  NoDup (dc_ID <$> Categories demoView) /\
  Forall (fun e => NoDup (dl_ID <$> links_of e)) (Categories demoView).
Proof.
  apply (X19_view_shows_nothing_twice (H := goASCII) demoWorld demoWorld demoView
           demoView_computed).
  unfold keys_unique. apply (bool_decide_unpack _). vm_compute. reflexivity.
Defined.

(** * Start-up: configuration and schema *)

Section Schema.

Lemma find_snoc {A} (f : A -> bool) (l : list A) (x : A) :
  List.find f (l ++ [x])
  = match List.find f l with
    | Some y => Some y
    | None => if f x then Some x else None
    end.
Proof.
  induction l as [|y l IH]; simpl; [done|]. by destruct (f y).
Qed.

Lemma find_app_Some {A} (f : A -> bool) (l l' : list A) (y : A) :
  List.find f l = Some y -> List.find f (l ++ l') = Some y.
Proof.
  induction l as [|x l IH]; simpl; [done|]. by destruct (f x).
Qed.

(** A statement leaves the catalog as it is or adds one object at the
    end. *)
Lemma execDDL_grows q cat cat' :
  execDDL q cat = inl cat' -> cat' = cat \/ exists o, cat' = cat ++ [o].
Proof.
  destruct q as [name columns|name table columns]; simpl; intros Hq.
  - destruct (FindTable name cat); [left; congruence|].
    destruct (FindIndex name cat); [done|]. right. eexists. by injection Hq as <-.
  - destruct (FindTable table cat) as [[]|]; try done.
    destruct (FindTable name cat); [done|].
    destruct (FindIndex name cat); [left; congruence|].
    destruct (List.find _ columns); [done|]. right. eexists. by injection Hq as <-.
Qed.

(** After a statement went through, it has nothing left to do. *)
Lemma execDDL_settled q cat cat' : execDDL q cat = inl cat' -> settled q cat'.
Proof.
  unfold settled.
  destruct q as [name columns|name table columns]; simpl; intros Hq.
  - destruct (FindTable name cat) eqn:Ht.
    + injection Hq as <-. by rewrite Ht.
    + destruct (FindIndex name cat); [done|]. injection Hq as <-.
      unfold FindTable in *. rewrite find_snoc, Ht. simpl.
      unfold sameName. by rewrite String.eqb_refl.
  - destruct (FindTable table cat) as [[tn tcolumns| |]|] eqn:Ht; try done.
    destruct (FindTable name cat) eqn:Hn; [done|].
    destruct (FindIndex name cat) eqn:Hi.
    + injection Hq as <-. by rewrite Ht, Hn, Hi.
    + destruct (List.find _ columns); [done|]. injection Hq as <-.
      unfold FindTable, FindIndex in *.
      rewrite (find_app_Some _ _ _ _ Ht), !find_snoc, Hn, Hi. simpl.
      unfold sameName. by rewrite String.eqb_refl.
Qed.

Lemma execDDL_adds q cat o : execDDL q cat = inl (cat ++ [o]) -> o = objectOf q.
Proof.
  assert (forall l : list sql_object, l <> l ++ [o]) as Hne.
  { intros l E. apply (f_equal length) in E. rewrite length_app in E. simpl in E. lia. }
  destruct q as [name columns|name table columns]; simpl; intros Hq.
  - destruct (FindTable name cat); [injection Hq as Hq; by apply Hne in Hq|].
    destruct (FindIndex name cat); [done|].
    injection Hq as Hq. apply app_inv_head in Hq. by injection Hq as <-.
  - destruct (FindTable table cat) as [[]|]; try done.
    destruct (FindTable name cat); [done|].
    destruct (FindIndex name cat); [injection Hq as Hq; by apply Hne in Hq|].
    destruct (List.find _ columns); [done|].
    injection Hq as Hq. apply app_inv_head in Hq. by injection Hq as <-.
Qed.

Lemma settled_table name columns cat :
  settled (CreateTable name columns) cat <-> is_Some (FindTable name cat).
Proof.
  unfold settled. simpl. split.
  - destruct (FindTable name cat); [eauto|].
    destruct (FindIndex name cat); [done|]. intros [= E].
    apply (f_equal length) in E. rewrite length_app in E. simpl in E. lia.
  - by intros [o ->].
Qed.

Lemma settled_index name table columns cat :
  settled (CreateIndex name table columns) cat <->
  (exists tn tcolumns, FindTable table cat = Some (Table tn tcolumns)) /\
  FindTable name cat = None /\ is_Some (FindIndex name cat).
Proof.
  unfold settled. simpl. split.
  - destruct (FindTable table cat) as [[tn tcolumns| |]|]; try done.
    destruct (FindTable name cat); [done|].
    destruct (FindIndex name cat); [eauto 6|].
    destruct (List.find _ columns); [done|]. intros [= E].
    apply (f_equal length) in E. rewrite length_app in E. simpl in E. lia.
  - intros ((tn & tcolumns & ->) & -> & [o ->]). done.
Qed.

(** A statement of [stmts] that has nothing left to do has nothing to
    do after another one of them went through. *)
Lemma settled_kept q q' cat cat' :
  q ∈ stmts -> q' ∈ stmts -> settled q cat -> execDDL q' cat = inl cat' -> settled q cat'.
Proof.
  intros Hq Hq' Hs Hrun.
  destruct (execDDL_grows _ _ _ Hrun) as [->|(o & ->)]; [done|].
  apply execDDL_adds in Hrun as ->.
  assert (isTable "idx_links_category" (objectOf q') = false /\
          isTable "idx_links_name_category" (objectOf q') = false) as [Hidx1 Hidx2].
  { unfold stmts in Hq'.
    repeat (apply elem_of_cons in Hq' as [->|Hq']); [| | | |by apply elem_of_nil in Hq'];
      split; reflexivity. }
  unfold stmts in Hq.
  repeat (apply elem_of_cons in Hq as [->|Hq]); [| | | |by apply elem_of_nil in Hq].
  - apply settled_table in Hs as [o Ho]. apply settled_table.
    exists o. by apply find_app_Some.
  - apply settled_table in Hs as [o Ho]. apply settled_table.
    exists o. by apply find_app_Some.
  - apply settled_index in Hs as ((tn & tcolumns & Ht) & Hn & [o Ho]). apply settled_index.
    split_and!.
    + exists tn, tcolumns. by apply find_app_Some.
    + unfold FindTable in *. by rewrite find_snoc, Hn, Hidx1.
    + exists o. by apply find_app_Some.
  - apply settled_index in Hs as ((tn & tcolumns & Ht) & Hn & [o Ho]). apply settled_index.
    split_and!.
    + exists tn, tcolumns. by apply find_app_Some.
    + unfold FindTable in *. by rewrite find_snoc, Hn, Hidx2.
    + exists o. by apply find_app_Some.
Qed.

(** A run of statements that have nothing left to do. *)
Lemma execAll_settled qs : forall cat,
  Forall (fun q => settled q cat) qs ->
  execAll qs {| catalog := cat; ddl_faults := [] |}
  = (None, {| catalog := cat; ddl_faults := [] |}).
Proof.
  induction qs as [|q qs IH]; intros cat Hall; simpl; [done|].
  apply Forall_cons in Hall as [Hq Hall]. unfold settled in Hq. rewrite Hq. by apply IH.
Qed.

(** After a run without an error, every statement that was run has
    nothing left to do. *)
Lemma execAll_all_settled qs : forall done_ sw sw',
  (forall q, q ∈ done_ ++ qs -> q ∈ stmts) ->
  Forall (fun q => settled q (catalog sw)) done_ ->
  execAll qs sw = (None, sw') ->
  Forall (fun q => settled q (catalog sw')) (done_ ++ qs).
Proof.
  induction qs as [|q qs IH]; intros done_ sw sw' Hin Hdone Hrun; simpl in Hrun.
  - injection Hrun as <-. by rewrite app_nil_r.
  - assert (exists cat' fs, execDDL q (catalog sw) = inl cat' /\
              execAll qs {| catalog := cat'; ddl_faults := fs |} = (None, sw'))
      as (cat' & fs & Hexec & Hrest).
    { destruct (ddl_faults sw) as [|[msg|] fs]; [|done|];
        destruct (execDDL q (catalog sw)) as [cat|e]; try done; eauto. }
    replace (done_ ++ q :: qs) with ((done_ ++ [q]) ++ qs) in * by by rewrite <- app_assoc.
    eapply IH; [done| |exact Hrest]. simpl.
    apply Forall_app. split.
    + apply Forall_forall. intros q0 Hq0.
      eapply (settled_kept q0 q); [| | |exact Hexec].
      * apply Hin. apply elem_of_app. left. apply elem_of_app. by left.
      * apply Hin. apply elem_of_app. left. apply elem_of_app. right. apply list_elem_of_here.
      * by eapply Forall_forall in Hdone.
    + constructor; [|constructor]. by eapply execDDL_settled.
Qed.

(** What a run adds, it adds at the end, in the order of the
    statements. *)
Lemma execAll_adds qs : forall sw,
  exists new, catalog (execAll qs sw).2 = catalog sw ++ new /\
              sublist new (objectOf <$> qs).
Proof.
  induction qs as [|q qs IH]; intros sw; simpl.
  - exists []. by rewrite app_nil_r.
  - assert (exists new, catalog sw = catalog sw ++ new /\
                        sublist new (objectOf q :: (objectOf <$> qs))) as Hsame.
    { exists []. rewrite app_nil_r. split; [done|apply sublist_nil_l]. }
    assert (forall fs cat, execDDL q (catalog sw) = inl cat ->
              exists new, catalog (execAll qs {| catalog := cat; ddl_faults := fs |}).2
                          = catalog sw ++ new /\
                          sublist new (objectOf q :: (objectOf <$> qs))) as Hstep.
    { intros fs cat Hq.
      destruct (IH {| catalog := cat; ddl_faults := fs |}) as (new & -> & Hsub). simpl.
      destruct (execDDL_grows _ _ _ Hq) as [->|(o & ->)].
      - exists new. split; [done|by apply sublist_cons].
      - apply execDDL_adds in Hq as ->. exists (objectOf q :: new).
        rewrite <- app_assoc. split; [done|by apply sublist_skip]. }
    destruct (ddl_faults sw) as [|[msg|] fs]; simpl; [|done|];
      (destruct (execDDL q (catalog sw)) as [cat|e] eqn:Hq; [by apply Hstep|done]).
Qed.

End Schema.

(** X20. [ensureSchema] takes nothing away, whether it fails or not:
    the objects of the database file stay as they are and in their
    order, and what is new comes after them, objects of the four
    statements in the order of the statements. *)
Theorem X20_schema_only_grows (sw : schema_world) :
  exists new, catalog (ensureSchema sw).2 = catalog sw ++ new /\
              sublist new schemaObjects.
Proof. apply execAll_adds. Qed.

(** X21. [ensureSchema] can be run at every start: after a run without
    an error both table names and both index names are found, and a
    further run returns no error and leaves the database file as it
    is. *)
Theorem X21_schema_run_again (sw sw' : schema_world) :
  ensureSchema sw = (None, sw') ->
  is_Some (FindTable "categories" (catalog sw')) /\
  is_Some (FindTable "links" (catalog sw')) /\
  is_Some (FindIndex "idx_links_category" (catalog sw')) /\
  is_Some (FindIndex "idx_links_name_category" (catalog sw')) /\
  ensureSchema {| catalog := catalog sw'; ddl_faults := [] |}
  = (None, {| catalog := catalog sw'; ddl_faults := [] |}).
Proof.
  intros Hrun.
  pose proof (execAll_all_settled stmts [] sw sw' (fun q Hq => Hq) (Forall_nil_2 _) Hrun) as Hall.
  assert (forall i q, stmts !! i = Some q -> settled q (catalog sw')) as Hs.
  { intros i q Hq. by eapply Forall_lookup_1 in Hall. }
  split_and!.
  - by apply (proj1 (settled_table _ _ _) (Hs 0%nat _ eq_refl)).
  - by apply (proj1 (settled_table _ _ _) (Hs 1%nat _ eq_refl)).
  - by apply (proj1 (settled_index _ _ _ _) (Hs 2%nat _ eq_refl)).
  - by apply (proj1 (settled_index _ _ _ _) (Hs 3%nat _ eq_refl)).
  - by apply execAll_settled.
Qed.

Lemma X21_schema_run_again_witness :
  let cat := [View "categories"] ++ [Table "links" ["id"; "name"; "url"; "category_id"];
                                      Index "idx_links_category" "links" ["category_id"];
                                      Index "idx_links_name_category" "links"
                                        ["name"; "category_id"]] in
  is_Some (FindTable "categories" cat) /\
  is_Some (FindTable "links" cat) /\
  is_Some (FindIndex "idx_links_category" cat) /\
  is_Some (FindIndex "idx_links_name_category" cat) /\
  ensureSchema {| catalog := cat; ddl_faults := [] |}
  = (None, {| catalog := cat; ddl_faults := [] |}).
Proof.
  exact (X21_schema_run_again {| catalog := [View "categories"]; ddl_faults := [None] |}
           _ eq_refl).
Defined.

(** X22. On a database file in which none of the four names is taken,
    and without a failing call, [ensureSchema] returns no error and
    adds the two tables and the two indexes, in this order. *)
Theorem X22_schema_made (sw : schema_world) :
  Forall (unknown (catalog sw))
    ["categories"; "links"; "idx_links_category"; "idx_links_name_category"] ->
  ddl_faults sw = [] ->
  ensureSchema sw = (None, {| catalog := catalog sw ++ schemaObjects; ddl_faults := [] |}).
Proof.
  intros Hall Hf.
  repeat (apply Forall_cons in Hall as [[? ?] Hall]).
  unfold ensureSchema, stmts, FindTable, FindIndex in *. destruct sw as [cat fs].
  simpl in *. subst fs. unfold FindTable, FindIndex. simpl.
  repeat (rewrite ?find_snoc; simpl;
          repeat match goal with H : List.find _ cat = None |- _ => rewrite H end; simpl).
  by rewrite <- !app_assoc.
Qed.

Lemma X22_schema_made_witness :
  ensureSchema {| catalog := [Table "notes" ["id"; "body"]]; ddl_faults := [] |}
  = (None, {| catalog := [Table "notes" ["id"; "body"]] ++ schemaObjects; ddl_faults := [] |}).
Proof.
  apply (X22_schema_made {| catalog := [Table "notes" ["id"; "body"]]; ddl_faults := [] |});
    [|reflexivity].
  repeat constructor.
Defined.

(** A failed run is not taken back: with a [links] table of another
    layout the third statement fails, and [categories] stays made. *)
Example schema_left_half_made :
  ensureSchema {| catalog := [Table "links" ["id"; "title"]]; ddl_faults := [] |}
  = (Some (ErrOther "no such column: category_id"),
     {| catalog := [Table "links" ["id"; "title"]; Table "categories" ["id"; "name"]];
        ddl_faults := [] |}).
Proof. reflexivity. Qed.

(** A [categories] table of another layout is not looked at. *)
Example schema_other_layout_accepted :
  ensureSchema {| catalog := [Table "Categories" ["id"]]; ddl_faults := [] |}
  = (None,
     {| catalog := Table "Categories" ["id"] :: tail schemaObjects; ddl_faults := [] |}).
Proof. reflexivity. Qed.

(** * Rows without a name *)

Section Blank.

Lemma Forall_filter_rows {A} (P : A -> Prop) (Q : A -> Prop) `{forall x, Decision (Q x)}
    (l : list A) :
  Forall P l -> Forall P (filter Q l).
Proof.
  rewrite !Forall_forall. intros Hl x Hx. apply Hl. by apply list_elem_of_filter in Hx as [_ Hx].
Qed.

Lemma exec_noBlank q st st' :
  checked q -> exec q st = inl st' -> noBlank st -> noBlank st'.
Proof.
  unfold noBlank. intros Hq Hexec [Hc Hl]. destruct q; simpl in *.
  - destruct (newRowid _ _) as [id|]; [|discriminate].
    destruct (nameTaken _ _); [discriminate|]. injection Hexec as <-. simpl.
    split; [|done]. apply Forall_app. split; [done|]. by constructor.
  - destruct (newRowid _ _) as [id|]; [|discriminate].
    destruct (_ && _); [discriminate|]. injection Hexec as <-. simpl.
    split; [done|]. apply Forall_app. split; [done|]. by constructor.
  - destruct (_ && _); [discriminate|]. injection Hexec as <-. simpl.
    split; [done|]. apply Forall_fmap. eapply Forall_impl; [exact Hl|].
    intros r Hr. unfold updateRow. simpl. by destruct (lr_id r =? id).
  - injection Hexec as <-. simpl. split; [done|]. by apply Forall_filter_rows.
  - injection Hexec as <-. simpl. split; [done|]. by apply Forall_filter_rows.
  - injection Hexec as <-. destruct (foreign_keys st); simpl;
      (split; [by apply Forall_filter_rows|]); [by apply Forall_filter_rows|done].
Qed.

Lemma runAll_noBlank qs : forall st st',
  Forall checked qs -> runAll qs st = Some st' -> noBlank st -> noBlank st'.
Proof.
  induction qs as [|q qs IH]; simpl; intros st st' Hch Hrun Hb; [by injection Hrun as <-|].
  apply Forall_cons in Hch as [Hq Hch].
  destruct (exec q st) as [st1|e] eqn:Hexec; [|discriminate].
  eapply IH; [done|exact Hrun|]. by eapply exec_noBlank.
Qed.

Lemma handler_runs_checked `{GoEnv} (s : server) (rt : route) (r : Request) (w : world) :
  exists qs, Forall checked qs /\ runAll qs (db w) = Some (db (handler s rt r w).2).
Proof.
  destruct (handler_outcome s rt r w)
    as [(msg & code & _ & _ & [Hdb _])|[(msg & _ & [Hdb _])|[[_ Hout]
        |(w1 & qs & _ & Hdb & _ & Hrun & Hch)]]].
  - exists []. simpl. by rewrite Hdb.
  - exists []. simpl. by rewrite Hdb.
  - exists []. by rewrite Hout.
  - exists qs. by rewrite Hdb.
Qed.

End Blank.

(** X23. No request stores a row without a name or a link without a
    url: when no category has an empty name and no link an empty name
    or url before a request, none has after it, whatever the route, the
    form and the failures. *)
Theorem X23_no_blank_stored `{GoEnv} (s : server) (rt : route) (r : Request) (w : world) :
  noBlank (db w) -> noBlank (db (handler s rt r w).2).
Proof.
  intros Hb. destruct (handler_runs_checked s rt r w) as (qs & Hch & Hrun).
  by eapply runAll_noBlank.
Qed.

Lemma X23_no_blank_stored_witness :
  noBlank (db (handler (H := goASCII) plainServer RouteLinkActions
                 (post "/actions/links/1/update"
                    [("name", "Repo2"); ("url", " https://y "); ("category_id", "1")])
                 repoWorld).2).
Proof.
  apply (X23_no_blank_stored (H := goASCII) plainServer RouteLinkActions).
  unfold noBlank. simpl. split; repeat constructor; discriminate.
Defined.

(** * A deleted category on the dashboard *)

Section Gone.

Context `{GoEnv}.
Variable s : server.

(** Every entry of the view is made from a category row, every link in
    it from a link row. *)
Lemma aggregate_from_rows cats lks e :
  e ∈ Categories (aggregate cats lks) ->
  (exists k, k ∈ cats /\ dc_ID e = strconv.FormatInt (cr_id k) /\ dc_Name e = cr_name k) /\
  forall l, l ∈ links_of e -> exists r, r ∈ lks /\ l = newLink r.
Proof.
  destruct (aggregate_rows cats lks) as (h & sl & m & _ & Hv).
  intros (i & k & Hk & ->)%Hv. split.
  - exists k. split; [by eapply list_elem_of_lookup_2|done].
  - intros l. rewrite links_of_sortLinks. unfold links_of, linksThrough. simpl.
    intros (r & -> & Hr)%list_elem_of_fmap. apply list_elem_of_filter in Hr as [_ Hr]. eauto.
Qed.

Lemma handleCategoryActions_rows r w p0 c :
  Method r = MethodPost ->
  pathParts "/actions/categories/" (Path r) = [p0; "delete"] ->
  strconv.ParseInt p0 = inl c ->
  let out := handleCategoryActions s r w in
  (exists msg, out.1 = httpError msg StatusInternalServerError /\ db out.2 = db w) \/
  (exists w1, out.1 = (renderDashboard s w1).1 /\ db w1 = db out.2 /\
              db out.2 = deleteCascade c (db w)).
Proof.
  intros Hm Hparts Hid. unfold handleCategoryActions. rewrite Hm. simpl negb. cbv iota.
  unfold pathParts in Hparts. rewrite Hparts, Hid. simpl negb. cbv iota.
  destruct (category_tx_outcome s c w) as [(msg & Hresp & [Hdb _])|(w1 & Hresp & Hdb & _ & Hw1)].
  - left. exists msg. split; [exact Hresp|exact Hdb].
  - right. exists w1.
    split_and!; [exact Hresp|exact (eq_sym Hdb)|exact (eq_trans Hdb Hw1)].
Qed.

End Gone.

(** X24. A deleted category is gone from the dashboard: when the delete
    of category [c] is answered with 200, the answer is the dashboard
    of the tables it left, and the view of these tables has no entry
    with the id [c] and no link under the category id [c]. *)
Theorem X24_deleted_category_gone `{GoEnv} (s : server) (r : Request) (w : world)
    (p0 : string) (c : Z) :
  Method r = MethodPost ->
  pathParts "/actions/categories/" (Path r) = [p0; "delete"] ->
  strconv.ParseInt p0 = inl c ->
  Status (handleCategoryActions s r w).1 = StatusOK ->
  (exists w1, (handleCategoryActions s r w).1 = (renderDashboard s w1).1 /\
              db w1 = db (handleCategoryActions s r w).2) /\
  Forall (fun e => dc_ID e <> strconv.FormatInt c /\
                   Forall (fun l => dl_CategoryID l <> strconv.FormatInt c) (links_of e))
    (Categories (aggregate (categories (db (handleCategoryActions s r w).2))
                           (links (db (handleCategoryActions s r w).2)))).
Proof.
  intros Hm Hparts Hid Hok.
  destruct (handleCategoryActions_rows s r w p0 c Hm Hparts Hid)
    as [(msg & Hresp & _)|(w1 & Hresp & Hw1 & Hdb)].
  { rewrite Hresp in Hok. discriminate. }
  split; [by exists w1|]. rewrite Hdb. simpl.
  apply Forall_forall. intros e He.
  apply aggregate_from_rows in He as [(k & Hk & HID & _) Hlinks]. split.
  - rewrite HID. intros E%FormatInt_inj.
    by apply list_elem_of_filter in Hk as [Hne _].
  - apply Forall_forall. intros l (row & Hrow & ->)%Hlinks. simpl.
    intros E%FormatInt_inj. by apply list_elem_of_filter in Hrow as [Hne _].
Qed.

Lemma X24_deleted_category_gone_witness :
  let out := handleCategoryActions (H := goASCII) plainServer
               (post "/actions/categories/1/delete" []) repoWorld in
  (exists w1, out.1 = (renderDashboard (H := goASCII) plainServer w1).1 /\
              db w1 = db out.2) /\
  Forall (fun e => dc_ID e <> strconv.FormatInt 1 /\
                   Forall (fun l => dl_CategoryID l <> strconv.FormatInt 1) (links_of e))
    (Categories (aggregate (H := goASCII) (categories (db out.2)) (links (db out.2)))).
Proof.
  intros out.
  apply (X24_deleted_category_gone (H := goASCII) plainServer
           (post "/actions/categories/1/delete" []) repoWorld "1" 1); reflexivity.
Defined.

(** * loadConfig *)

(** X25. [loadConfig] returns no error and never an empty path or
    port: each is the default or the value of its variable without the
    white space around it, and the address to listen on is more than
    the colon.  The port is not looked at otherwise. *)
Theorem X25_config_never_empty `{GoEnv} (Getenv : string -> string) :
  (loadConfig Getenv).2 = None /\
  sqlitePath (loadConfig Getenv).1 <> "" /\
  port (loadConfig Getenv).1 <> "" /\
  sqlitePath (loadConfig Getenv).1
    ∈ ["./data/personal_dash.db"; TrimSpace (Getenv "SQLITE_PATH")] /\
  port (loadConfig Getenv).1 ∈ ["8080"; TrimSpace (Getenv "PORT")] /\
  listenAddr (loadConfig Getenv).1 <> ":".
Proof.
  unfold loadConfig, listenAddr. simpl.
  destruct (String.eqb (TrimSpace (Getenv "SQLITE_PATH")) "") eqn:Hp;
    destruct (String.eqb (TrimSpace (Getenv "PORT")) "") eqn:Hq;
    try apply String.eqb_neq in Hp; try apply String.eqb_neq in Hq;
    split_and!; try done;
    try apply list_elem_of_here; try (apply list_elem_of_further, list_elem_of_here);
    intros [= E]; done.
Qed.

Example loadConfig_demo :
  loadConfig (H := goASCII) demoEnv
  = ({| sqlitePath := "./data/personal_dash.db"; port := "9090" |}, None) /\
  listenAddr (loadConfig (H := goASCII) demoEnv).1 = ":9090".
Proof. split; reflexivity. Qed.

(** A port that is no number is passed on as it is. *)
Example loadConfig_port_unchecked :
  port (loadConfig (H := goASCII)
          (fun name => if String.eqb name "PORT" then "http" else "")).1 = "http".
Proof. reflexivity. Qed.
